(** * Item-item collaborative filtering (collab_part1/2/3 notebooks)

    A shallow embedding of the PySpark notebooks of the movie recommender:
    the utility-matrix pivot, the [co_sym] similarity UDF, the windowed
    top-N neighbour ranking, the weighted-average predictor and the RMSE
    evaluation of part 2, the single-query predictor of part 1 and the
    scoring of the ALS model of part 3, followed by their properties.

    Every DataFrame is a list of rows; the order of the list is the order
    in which Spark happens to deliver the rows, which the notebooks do not
    control. Spark and numpy operators follow the behaviour of Spark 3
    (ANSI mode off) and numpy on which the notebooks ran. Python and Spark
    values of type double are kept abstract behind the class [Float64] and
    interpreted twice: as IEEE binary64 numbers ([b64]), in which the code
    runs, and as extended reals ([xreal]), exact arithmetic with the IEEE
    special values, in which most general statements are proved. *)

From Stdlib Require Import ZArith List Bool Lia Reals Lra Floats.
From Stdlib Require Import Permutation Sorted.
Import ListNotations.

Set Implicit Arguments.

(** ** Doubles *)

(** The operations the notebooks apply to doubles. The arithmetic ones are
    the IEEE 754 operations (numpy and the JVM agree on them): a division by
    zero yields an infinity or NaN and raises nothing. *)
Class Float64 (D : Type) : Type := {
  fzero : D;
  fone : D;
  fnan : D;
  fadd : D -> D -> D;
  fsub : D -> D -> D;
  fmul : D -> D -> D;
  fdiv : D -> D -> D;
  fsqrt : D -> D;
  feqb : D -> D -> bool;
  fltb : D -> D -> bool;
  fis_nan : D -> bool;
  fcast32 : D -> D
}.

(** *** IEEE binary64 *)

(** [cast(FloatType())]: rounding of a binary64 number to binary32
    (precision 24, maximal exponent 128), to nearest even. *)
Definition b64_cast32 (x : float) : float :=
  match Prim2SF x with
  | S754_finite s m e =>
      SF2Prim (binary_normalize 24 128 (cond_Zopp s (Zpos m)) e s)
  | _ => x
  end.

#[export] Instance b64 : Float64 float := {
  fzero := 0%float;
  fone := 1%float;
  fnan := PrimFloat.nan;
  fadd := PrimFloat.add;
  fsub := PrimFloat.sub;
  fmul := PrimFloat.mul;
  fdiv := PrimFloat.div;
  fsqrt := PrimFloat.sqrt;
  feqb := PrimFloat.eqb;
  fltb := PrimFloat.ltb;
  fis_nan := PrimFloat.is_nan;
  fcast32 := b64_cast32
}.

(** *** Extended reals *)

(** The values of a double with rounding left out: a real number, one of
    the two infinities, or NaN. Zero carries no sign. *)
Inductive xreal : Type :=
| Fin (r : R)
| PInf
| NInf
| NaN.

Definition Req_bool (a b : R) : bool := if Req_dec_T a b then true else false.
Definition Rlt_bool (a b : R) : bool := if Rlt_dec a b then true else false.

Definition xopp (x : xreal) : xreal :=
  match x with
  | Fin a => Fin (- a)
  | PInf => NInf
  | NInf => PInf
  | NaN => NaN
  end.

Definition xadd (x y : xreal) : xreal :=
  match x, y with
  | NaN, _ | _, NaN => NaN
  | Fin a, Fin b => Fin (a + b)
  | PInf, NInf | NInf, PInf => NaN
  | PInf, _ | _, PInf => PInf
  | NInf, _ | _, NInf => NInf
  end.

(** An infinity scaled by the real [a]. *)
Definition xscale_inf (pos : bool) (a : R) : xreal :=
  if Req_bool a 0 then NaN
  else if Rlt_bool 0 a then (if pos then PInf else NInf)
  else (if pos then NInf else PInf).

Definition xmul (x y : xreal) : xreal :=
  match x, y with
  | NaN, _ | _, NaN => NaN
  | Fin a, Fin b => Fin (a * b)
  | PInf, Fin a | Fin a, PInf => xscale_inf true a
  | NInf, Fin a | Fin a, NInf => xscale_inf false a
  | PInf, PInf | NInf, NInf => PInf
  | PInf, NInf | NInf, PInf => NInf
  end.

Definition xdiv (x y : xreal) : xreal :=
  match x, y with
  | NaN, _ | _, NaN => NaN
  | Fin a, Fin b =>
      if Req_bool b 0 then
        (if Req_bool a 0 then NaN else if Rlt_bool 0 a then PInf else NInf)
      else Fin (a / b)
  | Fin _, (PInf | NInf) => Fin 0
  | PInf, Fin b => if Rlt_bool b 0 then NInf else PInf
  | NInf, Fin b => if Rlt_bool b 0 then PInf else NInf
  | (PInf | NInf), (PInf | NInf) => NaN
  end.

Definition xsqrt (x : xreal) : xreal :=
  match x with
  | Fin a => if Rlt_bool a 0 then NaN else Fin (R_sqrt.sqrt a)
  | PInf => PInf
  | NInf | NaN => NaN
  end.

Definition xeqb (x y : xreal) : bool :=
  match x, y with
  | Fin a, Fin b => Req_bool a b
  | PInf, PInf | NInf, NInf => true
  | _, _ => false
  end.

Definition xltb (x y : xreal) : bool :=
  match x, y with
  | NaN, _ | _, NaN => false
  | Fin a, Fin b => Rlt_bool a b
  | NInf, (Fin _ | PInf) | Fin _, PInf => true
  | _, _ => false
  end.

Definition xis_nan (x : xreal) : bool :=
  match x with NaN => true | _ => false end.

#[export] Instance xreal_float64 : Float64 xreal := {
  fzero := Fin 0;
  fone := Fin 1;
  fnan := NaN;
  fadd := xadd;
  fsub := fun x y => xadd x (xopp y);
  fmul := xmul;
  fdiv := xdiv;
  fsqrt := xsqrt;
  feqb := xeqb;
  fltb := xltb;
  fis_nan := xis_nan;
  fcast32 := fun x => x
}.

(** ** Python and Spark values *)

(** The exceptions a cell of the notebooks can end with. *)
Inductive exn : Type :=
| DimensionMismatch   (* a dot product of vectors of different sizes *)
| TypeError           (* arithmetic on None *)
| ZeroDivisionError   (* a Python float divided by zero *)
| AnalysisException   (* Spark refuses the query *)
| SparkException.     (* an executor fails on a row *)

Inductive result (A : Type) : Type :=
| Ok (a : A)
| Raise (e : exn).

Arguments Ok {A} a.
Arguments Raise {A} e.

Definition bind {A B} (m : result A) (k : A -> result B) : result B :=
  match m with
  | Ok a => k a
  | Raise e => Raise e
  end.

Notation "x <- m ;; k" := (bind m (fun x => k))
  (at level 61, m at next level, right associativity).

Fixpoint mapM {A B} (f : A -> result B) (l : list A) : result (list B) :=
  match l with
  | [] => Ok []
  | a :: l' => b <- f a ;; bs <- mapM f l' ;; Ok (b :: bs)
  end.

(** ** Generic DataFrame helpers *)

(** A stable insertion sort: [le a b] tells that [a] may stand before [b];
    rows that compare equal keep the order in which they arrived. *)
Fixpoint insert_by {A} (le : A -> A -> bool) (a : A) (l : list A) : list A :=
  match l with
  | [] => [a]
  | b :: l' => if le a b then a :: l else b :: insert_by le a l'
  end.

Definition sort_by {A} (le : A -> A -> bool) (l : list A) : list A :=
  fold_right (insert_by le) [] l.

(** The distinct values of a column, first occurrences kept. *)
Fixpoint distinct_by {A} (eqb : A -> A -> bool) (l : list A) : list A :=
  match l with
  | [] => []
  | a :: l' => a :: filter (fun b => negb (eqb a b)) (distinct_by eqb l')
  end.

(** [row_number()] over an ordered window partition: 1, 2, 3, ... *)
Fixpoint row_number_from {A} (n : Z) (l : list A) : list (A * Z) :=
  match l with
  | [] => []
  | a :: l' => (a, n) :: row_number_from (n + 1) l'
  end.

(** ** Rows *)

(** A row of ratings.csv once the timestamp is dropped. *)
Record Rating (D : Type) : Type := mkRating {
  userId : Z;
  movieId : Z;
  rating : D
}.

(** A row of [similarity_matrix]. *)
Record SimRow (D : Type) : Type := mkSimRow {
  sim_movieId : Z;
  sim_movieId_1 : Z;
  sim_similarity : D
}.

(** A row of [df_user_movie_rating]: a training rating with, from the left
    join, the columns [movieId_1] and [similarity], which are null together
    when the movie has no row in the similarity matrix. *)
Record SmRow (D : Type) : Type := mkSmRow {
  sm_userId : Z;
  sm_movieId : Z;
  sm_rating : D;
  sm_similar : option (Z * D)
}.

(** A row of the join of the test set ("tst") with [df_user_movie_rating]
    ("sm"); [similarity] is the non-null [sm.similarity]. *)
Record JoinedRow (D : Type) : Type := mkJoinedRow {
  tst : Rating D;
  sm : SmRow D;
  similarity : D
}.

(** A row of [result_df]. *)
Record ResultRow (D : Type) : Type := mkResultRow {
  res_userId : Z;
  res_movieId : Z;
  res_rating : D;
  predicted_rating : D
}.

(** ** Vectors and Spark SQL expressions on doubles *)

Section Doubles.
Context {D : Type} `{Float64 D}.

Fixpoint products (x y : list D) : list D :=
  match x, y with
  | a :: x', b :: y' => fmul a b :: products x' y'
  | _, _ => []
  end.

Definition fsum (l : list D) : D := fold_left fadd l fzero.

(** [x1.dot(x2)]: numpy's dot product of two dense arrays; vectors of
    different sizes are refused. *)
Definition dot (x y : list D) : result D :=
  if Nat.eqb (length x) (length y) then Ok (fsum (products x y))
  else Raise DimensionMismatch.

(** [Vectors.norm(x, 2)]: numpy takes the square root of [x.dot(x)]. *)
Definition norm2 (x : list D) : D := fsqrt (fsum (products x x)).

(** Spark's [sum] aggregate over a column without nulls: null on no row. *)
Definition spark_sum (l : list D) : option D :=
  match l with
  | [] => None
  | a :: l' => Some (fold_left fadd l' a)
  end.

(** Spark's [/] with ANSI mode off, the default of Spark 3: null when an
    operand is null or the divisor equals zero. *)
Definition spark_div (a b : option D) : option D :=
  match a, b with
  | Some x, Some y => if feqb y fzero then None else Some (fdiv x y)
  | _, _ => None
  end.

(** [fillna(0)] on a column of doubles: null and NaN are replaced by 0. *)
Definition fillna0 (c : option D) : D :=
  match c with
  | Some x => if fis_nan x then fzero else x
  | None => fzero
  end.

(** [coalesce(c, lit(v))]. *)
Definition coalesce (c : option D) (v : D) : D :=
  match c with
  | Some x => x
  | None => v
  end.

(** Spark's ordering of doubles: NaN is the largest value and equals
    itself. [spark_leb x y] is "x sorts no later than y, ascending". *)
Definition spark_leb (x y : D) : bool :=
  fis_nan y || (negb (fis_nan x) && (fltb x y || feqb x y)).

(** Equality of doubles as grouping keys: NaN groups with NaN. *)
Definition spark_key_eqb (x y : D) : bool :=
  feqb x y || (fis_nan x && fis_nan y).

End Doubles.

(** ** Part 2: the similarity pipeline (collab_part2) *)

(** A row of [df_vector]: a movie and its row of the pivoted utility
    matrix, assembled into one vector over the user columns. *)
Record VectorRow (D : Type) : Type := mkVectorRow {
  vec_movieId : Z;
  features : list D
}.

(** [spark.sql.pivotMaxValues], as the session is configured. *)
Definition pivotMaxValues : Z := 20000.

Section Part2.
Context {D : Type} `{Float64 D}.

(** The user columns of the pivot: the distinct [userId]s, ascending. *)
Definition pivot_values (df : list (Rating D)) : list Z :=
  sort_by Z.leb (distinct_by Z.eqb (map (@userId D) df)).

(** [agg({"rating": "first"})] for one cell of the pivot: the first rating
    of the movie by the user, null when there is none. *)
Definition first_rating (df : list (Rating D)) (m u : Z) : option D :=
  option_map (@rating D)
    (find (fun r => (movieId r =? m)%Z && (userId r =? u)%Z) df).

(** [df.groupBy("movieId").pivot("userId").agg({"rating": "first"})
    .fillna(0)]: one row per movie, one cell per user, 0 where the user has
    not rated the movie (or the rating is NaN). Spark refuses a pivot over
    more than [pivotMaxValues] distinct values. *)
Definition pivot (df : list (Rating D)) : result (list (VectorRow D)) :=
  let users := pivot_values df in
  if (Z.of_nat (length users) >? pivotMaxValues)%Z then Raise AnalysisException
  else
    Ok (map (fun m =>
               mkVectorRow m
                 (map (fun u => fillna0 (first_rating df m u)) users))
            (distinct_by Z.eqb (map (@movieId D) df))).

(** [df.sort("movieId")] followed by the VectorAssembler over all the
    user columns; with its default [handleInvalid="error"] the assembler
    fails on a NaN cell (there is none after [fillna]). *)
Definition df_vector (training : list (Rating D))
  : result (list (VectorRow D)) :=
  df <- pivot training ;;
  let df := sort_by (fun a b => (vec_movieId a <=? vec_movieId b)%Z) df in
  if existsb (fun row => existsb fis_nan (features row)) df
  then Raise SparkException
  else Ok df.

(** The cosine similarity UDF of collab_part2. *)
Definition co_sym (x y : list D) : result D :=
  let x1 := x in
  let x2 := y in
  d <- dot x1 x2 ;;
  Ok (fdiv d (fmul (norm2 x1) (norm2 x2))).

(** The cross join of [df_vector] with itself, without the pairs of a movie
    with itself, and [dot_udf] applied to every remaining pair. *)
Definition similarity_matrix (dfv : list (VectorRow D))
  : result (list (SimRow D)) :=
  mapM (fun ab =>
          s <- co_sym (features (fst ab)) (features (snd ab)) ;;
          Ok (mkSimRow (vec_movieId (fst ab)) (vec_movieId (snd ab)) s))
       (filter (fun ab => negb (vec_movieId (fst ab) =? vec_movieId (snd ab))%Z)
               (list_prod dfv dfv)).

(** The left join of the training ratings with the similarity matrix on
    [movieId]. *)
Definition df_user_movie_rating (training : list (Rating D))
    (sims : list (SimRow D)) : list (SmRow D) :=
  flat_map (fun r =>
    match filter (fun s => (sim_movieId s =? movieId r)%Z) sims with
    | [] => [mkSmRow (userId r) (movieId r) (rating r) None]
    | matches =>
        map (fun s =>
               mkSmRow (userId r) (movieId r) (rating r)
                 (Some (sim_movieId_1 s, sim_similarity s)))
            matches
    end) training.

(** Step 4 of the notebook, from the training split to the
    user-movie-rating matrix. *)
Definition data_modeling (training : list (Rating D))
  : result (list (SmRow D)) :=
  dfv <- df_vector training ;;
  sims <- similarity_matrix dfv ;;
  Ok (df_user_movie_rating training sims).

(** The inner join of the test set with the user-movie-rating matrix on
    [tst.userId == sm.userId] and [tst.movieId == sm.movieId_1]; a null
    [movieId_1] equals nothing. *)
Definition join_tst_sm (test : list (Rating D)) (sm_alias : list (SmRow D))
  : list (JoinedRow D) :=
  flat_map (fun t =>
    flat_map (fun s =>
      match sm_similar s with
      | Some (m1, sim) =>
          if (userId t =? sm_userId s)%Z && (movieId t =? m1)%Z
          then [mkJoinedRow t s sim] else []
      | None => []
      end) sm_alias) test.

(** [Window.partitionBy("tst.userId", "tst.movieId")]. *)
Definition window_key (j : JoinedRow D) : Z * Z :=
  (userId (tst j), movieId (tst j)).

Definition key_eqb (k k' : Z * Z) : bool :=
  (fst k =? fst k')%Z && (snd k =? snd k')%Z.

(** [orderBy(col("sm.similarity").desc())]: no other ordering column. *)
Definition similarity_desc (a b : JoinedRow D) : bool :=
  spark_leb (similarity b) (similarity a).

(** Two rows that the ordering of the window does not tell apart. *)
Definition tied (a b : JoinedRow D) : bool :=
  similarity_desc a b && similarity_desc b a.

Definition window_partition (rows : list (JoinedRow D)) (k : Z * Z)
  : list (JoinedRow D) :=
  filter (fun j => key_eqb (window_key j) k) rows.

(** [withColumn("rank", row_number().over(window_spec))]. *)
Definition with_rank (rows : list (JoinedRow D)) : list (JoinedRow D * Z) :=
  flat_map (fun k =>
              row_number_from 1
                (sort_by similarity_desc (window_partition rows k)))
           (distinct_by key_eqb (map window_key rows)).

(** The rows of the join ranked no lower than [nValue] in their window. *)
Definition joined_df (nValue : Z) (test : list (Rating D))
    (sm_alias : list (SmRow D)) : list (JoinedRow D) :=
  map fst
    (filter (fun jr => (snd jr <=? nValue)%Z)
            (with_rank (join_tst_sm test sm_alias))).

(** The NeighborSet of the query (u, t): its rows in [joined_df]; and the
    rows of the join among which they are chosen. *)
Definition neighbour_set (nValue : Z) (test : list (Rating D))
    (sm_alias : list (SmRow D)) (u t : Z) : list (JoinedRow D) :=
  window_partition (joined_df nValue test sm_alias) (u, t).

Definition candidates (test : list (Rating D)) (sm_alias : list (SmRow D))
    (u t : Z) : list (JoinedRow D) :=
  window_partition (join_tst_sm test sm_alias) (u, t).

(** [withColumn("weighted_rating", col("sm.rating") * col("sm.similarity"))]:
    the row and its new column. *)
Definition weighted_df (joined : list (JoinedRow D))
  : list (JoinedRow D * D) :=
  map (fun j => (j, fmul (sm_rating (sm j)) (similarity j))) joined.

(** [groupBy("tst.userId", "tst.movieId", "tst.rating")]. *)
Definition group_key (w : JoinedRow D * D) : Z * Z * D :=
  (userId (tst (fst w)), movieId (tst (fst w)), rating (tst (fst w))).

Definition group_eqb (k k' : Z * Z * D) : bool :=
  (fst (fst k) =? fst (fst k'))%Z && (snd (fst k) =? snd (fst k'))%Z
  && spark_key_eqb (snd k) (snd k').

Definition group_rows (weighted : list (JoinedRow D * D)) (k : Z * Z * D)
  : list (JoinedRow D * D) :=
  filter (fun w => group_eqb (group_key w) k) weighted.

(** The aggregation of one group: the two sums, their quotient, and the
    coalesce with [lit(0.0)]. *)
Definition predict_group (g : list (JoinedRow D * D)) : D :=
  let sum_weighted_rating := spark_sum (map snd g) in
  let sum_similarity := spark_sum (map (fun w => similarity (fst w)) g) in
  coalesce (spark_div sum_weighted_rating sum_similarity) fzero.

Definition result_df (weighted : list (JoinedRow D * D))
  : list (ResultRow D) :=
  map (fun k =>
         mkResultRow (fst (fst k)) (snd (fst k)) (snd k)
           (predict_group (group_rows weighted k)))
      (distinct_by group_eqb (map group_key weighted)).

(** Step 5 of the notebook. *)
Definition data_prediction (nValue : Z) (test : list (Rating D))
    (sm_alias : list (SmRow D)) : list (ResultRow D) :=
  result_df (weighted_df (joined_df nValue test sm_alias)).

(** [RegressionEvaluator(metricName="rmse", labelCol="rating",
    predictionCol="predicted_rating").evaluate]: Spark's RegressionMetrics
    accumulate, with weight 1.0 per row, the residuals [label - prediction];
    SSerr is the square of their L2 norm, the mean squared error is SSerr
    over the sum of the weights, and the metric is its square root. *)
Definition evaluate_rmse (rows : list (ResultRow D)) : D :=
  let residuals :=
    map (fun r => fsub (res_rating r) (predicted_rating r)) rows in
  let weightSum := fsum (map (fun _ => fone) rows) in
  let normL2 :=
    fsqrt (fsum (map (fun e => fmul (fmul fone e) e) residuals)) in
  let SSerr := fmul normL2 normL2 in
  let meanSquaredError := fdiv SSerr weightSum in
  fsqrt meanSquaredError.

(** Steps 4 to 6 on a given split. *)
Definition pipeline (nValue : Z) (training test : list (Rating D))
  : result (list (ResultRow D)) :=
  sm_alias <- data_modeling training ;;
  Ok (data_prediction nValue test sm_alias).

Definition pipeline_rmse (nValue : Z) (training test : list (Rating D))
  : result D :=
  rows <- pipeline nValue training test ;;
  Ok (evaluate_rmse rows).

End Part2.

(** ** Part 1: the single-query predictor (collab_part1) *)

Section Part1.
Context {D : Type} `{Float64 D}.

(** The rows of [smDF] of the user for which [movieId_1] is the movie
    asked for, with their similarity. *)
Definition user_ratings (user_id movie_id : Z) (smDF : list (SmRow D))
  : list (SmRow D * D) :=
  flat_map (fun s =>
    match sm_similar s with
    | Some (m1, sim) =>
        if (sm_userId s =? user_id)%Z && (m1 =? movie_id)%Z
        then [(s, sim)] else []
    | None => []
    end) smDF.

(** [sort(col("similarity").desc()).limit(2)]. *)
Definition top2 (rows : list (SmRow D * D)) : list (SmRow D * D) :=
  firstn 2 (sort_by (fun a b => spark_leb (snd b) (snd a)) rows).

(** Python's [denominator != 0]: None differs from 0. *)
Definition py_ne_zero (d : option D) : bool :=
  match d with
  | Some x => negb (feqb x fzero)
  | None => true
  end.

(** Python's [numerator / denominator] on what [collect] returns: floats,
    or None for a null. *)
Definition py_truediv (a b : option D) : result (option D) :=
  match a, b with
  | Some x, Some y =>
      if feqb y fzero then Raise ZeroDivisionError else Ok (Some (fdiv x y))
  | _, _ => Raise TypeError
  end.

(** The value returned is a Python float ([Some]) or None. *)
Definition predict_user_rating (user_id movie_id : Z) (smDF : list (SmRow D))
  : result (option D) :=
  let user_ratings := top2 (user_ratings user_id movie_id smDF) in
  let weighted_rating :=
    map (fun r => fcast32 (fmul (sm_rating (fst r)) (snd r))) user_ratings in
  let numerator := spark_sum weighted_rating in
  let denominator := spark_sum (map snd user_ratings) in
  if py_ne_zero denominator then py_truediv numerator denominator
  else Ok None.

End Part1.

(** ** Part 2: recommendations for a sample user (collab_part2) *)

(** A row of [sm_alias] once [userId] and [rating] are dropped and
    [movieId] is renamed: a movie of the training set with, from the left
    join, [movieId_1] and [similarity], null together. *)
Record PairRow (D : Type) : Type := mkPairRow {
  movieId2 : Z;
  pair_similar : option (Z * D)
}.

(** A row of the join of the ratings of the user ("tst") with these
    pairs. *)
Record CandidateRow (D : Type) : Type := mkCandidateRow {
  cand_tst : Rating D;
  cand_similar : option (Z * D)
}.

(** A row of the last [result_df]: [movieId_1], which can be null, and
    [predicted_rating]. *)
Record Recommendation (D : Type) : Type := mkRecommendation {
  rec_movieId_1 : option Z;
  rec_predicted_rating : D
}.

Section SampleUser.
Context {D : Type} `{Float64 D}.

(** [spark.createDataFrame(data, schema)] with [rating] a FloatType: the
    ratings are stored as 32-bit floats. *)
Definition createDataFrame (data : list (Z * Z * D)) : list (Rating D) :=
  map (fun d => mkRating (fst (fst d)) (snd (fst d)) (fcast32 (snd d))) data.

(** [sm_alias.drop("userId", "rating")]. *)
Definition drop_userId_rating (sm_alias : list (SmRow D))
  : list (PairRow D) :=
  map (fun s => mkPairRow (sm_movieId s) (sm_similar s)) sm_alias.

(** The columns [movieId_1] and [similarity] of a row. *)
Definition movieId_1 (c : option (Z * D)) : option Z := option_map fst c.

Definition similarity_of (c : option (Z * D)) : option D := option_map snd c.

(** Equality of [movieId_1] as a grouping key: null groups with null. *)
Definition movie_key_eqb (a b : option Z) : bool :=
  match a, b with
  | Some x, Some y => (x =? y)%Z
  | None, None => true
  | _, _ => false
  end.

(** [dropDuplicates(["movieId", "movieId_1"])]: one row per pair, the first
    that arrives. *)
Definition dropDuplicates (rows : list (PairRow D)) : list (PairRow D) :=
  distinct_by
    (fun a b =>
       (movieId2 a =? movieId2 b)%Z
       && movie_key_eqb (movieId_1 (pair_similar a))
                        (movieId_1 (pair_similar b)))
    rows.

(** [test_df_alias.join(sm_alias, col("movieId") == col("movieId2"))
    .drop("movieId2")]. *)
Definition join_on_movieId (tst : list (Rating D)) (sm_alias : list (PairRow D))
  : list (CandidateRow D) :=
  flat_map (fun t =>
    flat_map (fun p =>
      if (movieId t =? movieId2 p)%Z
      then [mkCandidateRow t (pair_similar p)] else [])
      sm_alias) tst.

(** [orderBy(col("sm.similarity").desc())] on a column with nulls: a
    descending order puts the nulls last. *)
Definition desc_nulls_last (a b : option D) : bool :=
  match a, b with
  | Some x, Some y => spark_leb y x
  | Some _, None => true
  | None, Some _ => false
  | None, None => true
  end.

Definition candidate_key (c : CandidateRow D) : Z * Z :=
  (userId (cand_tst c), movieId (cand_tst c)).

Definition candidate_desc (a b : CandidateRow D) : bool :=
  desc_nulls_last (similarity_of (cand_similar a))
                  (similarity_of (cand_similar b)).

(** [withColumn("rank", row_number().over(window_spec))
    .filter(col("rank") <= nValue)]. *)
Definition top_candidates (nValue : Z) (rows : list (CandidateRow D))
  : list (CandidateRow D) :=
  map fst
    (filter (fun cr => (snd cr <=? nValue)%Z)
       (flat_map (fun k =>
                    row_number_from 1
                      (sort_by candidate_desc
                         (filter (fun c => key_eqb (candidate_key c) k) rows)))
                 (distinct_by key_eqb (map candidate_key rows)))).

(** [col("rating") * col("similarity")]: null when the similarity is. *)
Definition weighted_rating (c : CandidateRow D) : option D :=
  option_map (fun s => fmul (rating (cand_tst c)) s)
             (similarity_of (cand_similar c)).

(** Spark's [sum] over a column with nulls: they are skipped, and the sum
    is null when nothing is left. *)
Definition sum_non_null (l : list (option D)) : option D :=
  spark_sum (flat_map (fun o => match o with Some x => [x] | None => [] end) l).

(** The aggregation of one group of [groupBy("movieId_1")]. *)
Definition recommend_group (g : list (CandidateRow D)) : D :=
  let sum_weighted_rating := sum_non_null (map weighted_rating g) in
  let sum_similarity :=
    sum_non_null (map (fun c => similarity_of (cand_similar c)) g) in
  coalesce (spark_div sum_weighted_rating sum_similarity) fzero.

Definition group_by_movieId_1 (weighted : list (CandidateRow D))
  : list (Recommendation D) :=
  map (fun k =>
         mkRecommendation k
           (recommend_group
              (filter (fun c =>
                         movie_key_eqb (movieId_1 (cand_similar c)) k)
                      weighted)))
      (distinct_by movie_key_eqb
         (map (fun c => movieId_1 (cand_similar c)) weighted)).

(** [result_df.join(userRatingsDf, (col("movieId_1") == col("movieId"))
    & (col("userId") == col("userId")), how="left_anti")]: the rows that
    match no rating of the user; both [userId] are the column of
    [userRatingsDf], and a null [movieId_1] matches nothing. *)
Definition left_anti (result_df : list (Recommendation D))
    (userRatingsDf : list (Rating D)) : list (Recommendation D) :=
  filter (fun r =>
            negb (existsb (fun t =>
                             match rec_movieId_1 r with
                             | Some m1 =>
                                 (m1 =? movieId t)%Z
                                 && (userId t =? userId t)%Z
                             | None => false
                             end) userRatingsDf))
         result_df.

(** The cell that applies the model to the ratings of a sample user, up
    to the sort on [predicted_rating], descending. *)
Definition recommend (nValue : Z) (userRatingsDf : list (Rating D))
    (smDF : list (SmRow D)) : list (Recommendation D) :=
  let sm_alias := drop_userId_rating smDF in
  let sm_alias := dropDuplicates sm_alias in
  let joined_df :=
    top_candidates nValue (join_on_movieId userRatingsDf sm_alias) in
  let result_df := group_by_movieId_1 joined_df in
  let result_df := left_anti result_df userRatingsDf in
  sort_by (fun a b =>
             spark_leb (rec_predicted_rating b) (rec_predicted_rating a))
          result_df.

End SampleUser.

(** ** Part 1: the Pearson similarity (collab_part1) *)

(** A [features] vector as the Python UDF receives it from the
    VectorAssembler (pyspark.ml.linalg): dense, all its cells in an array;
    or sparse, its size and the cells that are not zero with their
    indices. *)
Inductive Vector (D : Type) : Type :=
| DenseVector (values : list D)
| SparseVector (size : nat) (entries : list (nat * D)).

Arguments DenseVector {D} values.
Arguments SparseVector {D} size entries.

(** A number met when Python iterates over a vector: a numpy double, or
    the Python float that a sparse vector returns for a cell it does not
    store. numpy divides by zero without raising; Python raises. *)
Inductive pynum (D : Type) : Type :=
| np_float64 (x : D)
| py_float (x : D).

Arguments np_float64 {D} x.
Arguments py_float {D} x.

Module Pearson.
Section Pearson.
Context {D : Type} `{Float64 D}.

Definition value (e : pynum D) : D :=
  match e with
  | np_float64 x => x
  | py_float x => x
  end.

(** The vector that the VectorAssembler makes of the cells of a row: the
    cells that differ from 0.0 with their indices, stored sparse when that
    is shorter (1.5 * (nnz + 1) < size) and dense otherwise. *)
Definition assemble (cells : list D) : Vector D :=
  let entries :=
    filter (fun iv => negb (feqb (snd iv) fzero))
           (combine (seq 0 (length cells)) cells) in
  if (3 * (length entries + 1) <? 2 * length cells)%nat
  then SparseVector (length cells) entries
  else DenseVector cells.

(** [v[i]]: a sparse vector answers the Python float 0.0 for an index it
    does not store. *)
Definition getitem (v : Vector D) (i : nat) : option (pynum D) :=
  match v with
  | DenseVector values => option_map np_float64 (nth_error values i)
  | SparseVector size entries =>
      if (i <? size)%nat then
        Some match find (fun iv => (fst iv =? i)%nat) entries with
             | Some iv => np_float64 (snd iv)
             | None => py_float fzero
             end
      else None
  end.

Definition len (v : Vector D) : nat :=
  match v with
  | DenseVector values => length values
  | SparseVector size _ => size
  end.

(** [for e in v]: the items of the indices 0, 1, ... up to the size. *)
Definition elements (v : Vector D) : list (pynum D) :=
  flat_map (fun i => match getitem v i with Some e => [e] | None => [] end)
           (seq 0 (len v)).

(** Python's [+] on two such numbers: a numpy double as soon as one of
    them is. *)
Definition py_add (a b : pynum D) : pynum D :=
  match a, b with
  | py_float x, py_float y => py_float (fadd x y)
  | _, _ => np_float64 (fadd (value a) (value b))
  end.

(** [sum(v)], from the integer 0. *)
Definition py_sum (l : list (pynum D)) : pynum D :=
  fold_left py_add l (py_float fzero).

(** The double of a count (exact below 2^53). *)
Definition of_count (n : nat) : D := fsum (repeat fone n).

(** [sum_nonzero / count_nonzero]. *)
Definition py_div_count (s : pynum D) (n : nat) : result D :=
  match s with
  | np_float64 x => Ok (fdiv x (of_count n))
  | py_float x =>
      match n with
      | O => Raise ZeroDivisionError
      | _ => Ok (fdiv x (of_count n))
      end
  end.

(** The ratings of a movie centred on their mean, the cells without rating
    left at 0; the array of the dense vector returned. *)
Definition pearson_average (v : Vector D) : result (list D) :=
  let sum_nonzero := py_sum (elements v) in
  let count_nonzero :=
    length (filter (fun e => negb (feqb (value e) fzero)) (elements v)) in
  mean <- py_div_count sum_nonzero count_nonzero ;;
  let v2 :=
    map (fun e => if negb (feqb (value e) fzero)
                  then fsub (value e) mean else fzero)
        (elements v) in
  Ok v2.

(** The Pearson correlation UDF of collab_part1. *)
Definition co_sym (x y : Vector D) : result D :=
  pearson1 <- pearson_average x ;;
  pearson2 <- pearson_average y ;;
  d <- dot pearson1 pearson2 ;;
  Ok (fdiv d (fmul (norm2 pearson1) (norm2 pearson2))).

(** The assembled rows of the pivot; part 1 does not sort them. *)
Definition df_vector (df : list (Rating D))
  : result (list (Z * Vector D)) :=
  rows <- pivot df ;;
  if existsb (fun row => existsb fis_nan (features row)) rows
  then Raise SparkException
  else Ok (map (fun row => (vec_movieId row, assemble (features row))) rows).

(** The cross join of [df_vector] with itself, without the pairs of a movie
    with itself, and [dot_udf] applied to every remaining pair. *)
Definition similarity_matrix (dfv : list (Z * Vector D))
  : result (list (SimRow D)) :=
  mapM (fun ab =>
          s <- co_sym (snd (fst ab)) (snd (snd ab)) ;;
          Ok (mkSimRow (fst (fst ab)) (fst (snd ab)) s))
       (filter (fun ab => negb (fst (fst ab) =? fst (snd ab))%Z)
               (list_prod dfv dfv)).

(** Step 4 of the notebook, on the whole dataset, and the prediction for
    one user and one movie of step 5. *)
Definition data_modeling (df : list (Rating D)) : result (list (SmRow D)) :=
  dfv <- df_vector df ;;
  sims <- similarity_matrix dfv ;;
  Ok (df_user_movie_rating df sims).

Definition predict (user_id movie_id : Z) (df : list (Rating D))
  : result (option D) :=
  smDF <- data_modeling df ;;
  predict_user_rating user_id movie_id smDF.

End Pearson.
End Pearson.

(** ** Part 3: scoring the latent-factor model (collab_part3) *)

Section Part3.
Context {D : Type} `{Float64 D}.

(** The fitted ALS model is the library's: [predict u i] stands for the
    product of the factors it learnt for a user and a movie of the
    training set. *)
Variable predict : Z -> Z -> D.

Definition has_user (train : list (Rating D)) (u : Z) : bool :=
  existsb (fun r => (userId r =? u)%Z) train.

Definition has_movie (train : list (Rating D)) (m : Z) : bool :=
  existsb (fun r => (movieId r =? m)%Z) train.

(** [model.transform(test_data)] with [coldStartStrategy="drop"]: the
    prediction is NaN for a user or a movie without factors, and the rows
    with a NaN prediction are dropped. *)
Definition als_transform (train_data test_data : list (Rating D))
  : list (Rating D * D) :=
  filter (fun p => negb (fis_nan (snd p)))
    (map (fun r =>
            (r, if has_user train_data (userId r)
                   && has_movie train_data (movieId r)
                then predict (userId r) (movieId r) else fnan))
         test_data).

End Part3.

(** ** Rows scored by the two notebooks *)

(** The (user, item) pair a rating is about. *)
Definition rating_key {D} (r : Rating D) : Z * Z := (userId r, movieId r).

(** The test row a result row scores. *)
Definition scored_row {D} (row : ResultRow D) : Rating D :=
  mkRating (res_userId row) (res_movieId row) (res_rating row).

(** ** Two runs *)



(** ** Exact arithmetic *)

(** The formulas of the design over the real numbers, against which the
    code interpreted in [xreal] is compared. *)

Definition lift (xs : list R) : list xreal := map Fin xs.

Fixpoint Rproducts (xs ys : list R) : list R :=
  match xs, ys with
  | a :: xs', b :: ys' => (a * b)%R :: Rproducts xs' ys'
  | _, _ => []
  end.

Definition Rsum (l : list R) : R := fold_left Rplus l 0%R.

Definition Rdot (xs ys : list R) : R := Rsum (Rproducts xs ys).

Definition Rnorm2 (xs : list R) : R := R_sqrt.sqrt (Rdot xs xs).

(** score(i,j) = dot(rowI, rowJ) / (norm2(rowI) * norm2(rowJ)). *)
Definition cosine (xs ys : list R) : R :=
  (Rdot xs ys / (Rnorm2 xs * Rnorm2 ys))%R.

(** The real number held by a finite double. *)
Definition to_R (x : xreal) : R :=
  match x with
  | Fin r => r
  | _ => 0%R
  end.

(** predicted = sum(similarity_k * rating_k) / sum(similarity_k) over the
    neighbours. *)
Definition weighted_average (ns : list (JoinedRow xreal)) : R :=
  (Rsum (map (fun j => to_R (similarity j) * to_R (sm_rating (sm j))) ns)
   / Rsum (map (fun j => to_R (similarity j)) ns))%R.



(** A neighbour whose similarity is a non-negative real and whose rating
    lies in the rating range. *)
Definition contributes (j : JoinedRow xreal) : Prop :=
  exists s r : R,
    similarity j = Fin s /\ sm_rating (sm j) = Fin r
    /\ (0 <= s)%R /\ (0 <= r <= 5)%R.


(** The Pearson correlation of the design of part 1: the ratings of a
    movie (the cells that are not 0) are centred on their mean, the cells
    without rating stay 0, and the similarity is the cosine of the centred
    rows. *)
Definition Rmean_nonzero (xs : list R) : R :=
  (Rsum xs / INR (length (filter (fun x => negb (Req_bool x 0)) xs)))%R.

Definition centred (xs : list R) : list R :=
  map (fun x => if Req_bool x 0 then 0 else x - Rmean_nonzero xs)%R xs.

Definition pearson (xs ys : list R) : R := cosine (centred xs) (centred ys).

(** ** Sample data *)

(** A user-movie-rating matrix in which user 1 has rated the movies 10 and
    20, whose similarities to movie 30 are opposite. *)
Definition smDF_opposite : list (SmRow float) :=
  [mkSmRow 1 10 3%float (Some (30%Z, 0.5%float));
   mkSmRow 1 20 4%float (Some (30%Z, (-0.5)%float))].

(** Two neighbours of the query (user 1, movie 30), rated 5 and 3, both of
    similarity 1 to the movie. *)
Definition ns_two_neighbours : list (JoinedRow xreal) :=
  [mkJoinedRow (mkRating 1 30 (Fin 4)) (mkSmRow 1 10 (Fin 5) (Some (30%Z, Fin 1)))
     (Fin 1);
   mkJoinedRow (mkRating 1 30 (Fin 4)) (mkSmRow 1 20 (Fin 3) (Some (30%Z, Fin 1)))
     (Fin 1)].

#[local] Set Warnings "-inexact-float".

(** User 1 has rated the movies 10 and 20 with 5.0; their similarities to
    movie 30 are the doubles nearest to 0.01 and 0.02. *)
Definition sm_small_weights : list (SmRow float) :=
  [mkSmRow 1 10 5%float (Some (30%Z, 0.01%float));
   mkSmRow 1 20 5%float (Some (30%Z, 0.02%float))].

Definition test_user1_movie30 : list (Rating float) :=
  [mkRating 1 30 4%float].


(** User 1 has rated the movies 10 and 20, which are equally similar to
    movie 30; the same two rows in the two possible orders. *)
Definition sm_tie_10_first : list (SmRow float) :=
  [mkSmRow 1 10 3%float (Some (30%Z, 0.5%float));
   mkSmRow 1 20 4%float (Some (30%Z, 0.5%float))].

Definition sm_tie_20_first : list (SmRow float) :=
  [mkSmRow 1 20 4%float (Some (30%Z, 0.5%float));
   mkSmRow 1 10 3%float (Some (30%Z, 0.5%float))].

(** In exact arithmetic: user 1 has rated three movies, user 2 one, and the
    test set asks for movie 30 for both. *)
Definition sm_three_ratings : list (SmRow xreal) :=
  [mkSmRow 1 10 (Fin 3) (Some (30%Z, Fin 1));
   mkSmRow 1 20 (Fin 4) (Some (30%Z, Fin 1));
   mkSmRow 2 10 (Fin 5) (Some (30%Z, Fin 1));
   mkSmRow 1 40 (Fin 2) (Some (50%Z, Fin 1))].

Definition test_two_queries : list (Rating xreal) :=
  [mkRating 1 30 (Fin 5); mkRating 2 30 (Fin 1)].

(** A query of user 2, who has rated one movie. *)
Definition test_user2_movie30 : list (Rating xreal) :=
  [mkRating 2 30 (Fin 1)].

(** Three users and three movies; movie 30 is rated by the users 2 and 3. *)
Definition training_three_movies : list (Rating float) :=
  [mkRating 1 10 3%float; mkRating 2 10 4%float;
   mkRating 1 20 4%float; mkRating 3 20 3%float;
   mkRating 2 30 3%float; mkRating 3 30 4%float].

(** A query by user 9, who has no rating in the training set. *)
Definition test_user9_movie30 : list (Rating float) :=
  [mkRating 9 30 5%float].

(** In exact arithmetic: three users and three movies, and a test set
    that asks for movie 30 for user 1 and for user 9, who has no rating in
    the training set. *)
Definition training_exact : list (Rating xreal) :=
  [mkRating 1 10 (Fin 3); mkRating 2 10 (Fin 4);
   mkRating 1 20 (Fin 4); mkRating 3 20 (Fin 3);
   mkRating 2 30 (Fin 3); mkRating 3 30 (Fin 4)].

Definition test_exact : list (Rating xreal) :=
  [mkRating 1 30 (Fin 5); mkRating 9 30 (Fin 5)].


(** In exact arithmetic: two ratings, in the two possible orders, and the
    query of user 1 for movie 30. *)
Definition training_two_ratings : list (Rating xreal) :=
  [mkRating 1 10 (Fin 3); mkRating 2 30 (Fin 4)].


Definition test_user1_movie30_exact : list (Rating xreal) :=
  [mkRating 1 30 (Fin 5)].

(** Movie 20 has one rating, and it is 0.0: its row of the utility matrix
    is the zero vector. *)
Definition training_zero_rating : list (Rating float) :=
  [mkRating 1 10 3%float; mkRating 2 10 4%float; mkRating 3 20 0%float].

(** In exact arithmetic: a user outside the training set who has rated the
    movies 10 and 40. *)
Definition user7_ratings : list (Rating xreal) :=
  [mkRating 7 10 (Fin 4); mkRating 7 40 (Fin 2)].

(** The utility matrix of the course slides on which part 1 validates its
    prediction, six movies and twelve users; the similarities and the
    prediction that the notebook prints are those of these ratings. *)
Definition ratings_tiny : list (Rating float) :=
  [mkRating 1 1 1%float; mkRating 3 1 3%float; mkRating 6 1 5%float;
   mkRating 9 1 5%float; mkRating 11 1 4%float; mkRating 3 2 5%float;
   mkRating 4 2 4%float; mkRating 7 2 4%float; mkRating 10 2 2%float;
   mkRating 11 2 1%float; mkRating 12 2 3%float; mkRating 1 3 2%float;
   mkRating 2 3 4%float; mkRating 4 3 1%float; mkRating 5 3 2%float;
   mkRating 7 3 3%float; mkRating 9 3 4%float; mkRating 10 3 3%float;
   mkRating 11 3 5%float; mkRating 2 4 2%float; mkRating 3 4 4%float;
   mkRating 5 4 5%float; mkRating 8 4 4%float; mkRating 11 4 2%float;
   mkRating 3 5 4%float; mkRating 4 5 3%float; mkRating 5 5 4%float;
   mkRating 6 5 2%float; mkRating 11 5 2%float; mkRating 12 5 5%float;
   mkRating 1 6 1%float; mkRating 3 6 3%float; mkRating 5 6 3%float;
   mkRating 8 6 2%float; mkRating 11 6 4%float].

(** In exact arithmetic: user 1 has rated the movies 10 and 20; the
    similarity of movie 10 to movie 30 is NaN. *)
Definition sm_nan_similarity : list (SmRow xreal) :=
  [mkSmRow 1 10 (Fin 3) (Some (30%Z, NaN));
   mkSmRow 1 20 (Fin 4) (Some (30%Z, Fin 1))].

(** * Properties *)

(** ** Sorting, distinct values and row numbers *)

Section SortBy.
Context {A : Type} (le : A -> A -> bool).

Lemma insert_by_perm (a : A) (l : list A) :
  Permutation (insert_by le a l) (a :: l).
Proof.
  induction l as [|b l IH]; simpl.
  - apply Permutation_refl.
  - destruct (le a b).
    + apply Permutation_refl.
    + apply perm_trans with (b :: a :: l).
      * apply perm_skip, IH.
      * apply perm_swap.
Qed.

Lemma sort_by_perm (l : list A) : Permutation (sort_by le l) l.
Proof.
  induction l as [|a l IH]; simpl.
  - apply perm_nil.
  - apply perm_trans with (a :: sort_by le l).
    + apply insert_by_perm.
    + apply perm_skip, IH.
Qed.

Lemma sort_by_in (l : list A) (a : A) : In a (sort_by le l) <-> In a l.
Proof.
  split; apply Permutation_in;
    [apply sort_by_perm | apply Permutation_sym, sort_by_perm].
Qed.

Lemma sort_by_length (l : list A) : length (sort_by le l) = length l.
Proof. apply Permutation_length, sort_by_perm. Qed.

Hypothesis le_total : forall a b, le a b = true \/ le b a = true.
Hypothesis le_trans :
  forall a b c, le a b = true -> le b c = true -> le a c = true.

Let before (a b : A) : Prop := le a b = true.

Lemma insert_by_sorted (a : A) (l : list A) :
  StronglySorted before l -> StronglySorted before (insert_by le a l).
Proof.
  induction 1 as [|b l Hs IH Hb]; simpl.
  - constructor; constructor.
  - destruct (le a b) eqn:Hab.
    + constructor; [constructor; assumption|].
      constructor; [exact Hab|].
      apply Forall_forall. intros c Hc.
      apply le_trans with b; [exact Hab|].
      exact (proj1 (Forall_forall _ _) Hb c Hc).
    + constructor; [exact IH|].
      apply Forall_forall. intros c Hc.
      apply (Permutation_in _ (insert_by_perm a l)) in Hc as [<- | Hc].
      * destruct (le_total a b) as [H1 | H1]; [congruence | exact H1].
      * exact (proj1 (Forall_forall _ _) Hb c Hc).
Qed.

(** The sort is stable: the rows that tie with a given row keep their
    order. *)
Lemma insert_by_stable (x a : A) (l : list A) :
  filter (fun y => le x y && le y x) (insert_by le a l)
  = filter (fun y => le x y && le y x) (a :: l).
Proof.
  induction l as [|b l IH]; [reflexivity|].
  cbn [insert_by]. destruct (le a b) eqn:Hab; [reflexivity|].
  cbn [filter] in *. rewrite IH.
  destruct (le x a && le a x) eqn:Ha, (le x b && le b x) eqn:Hb;
    try reflexivity.
  apply andb_true_iff in Ha as [Hxa Hax], Hb as [Hxb Hbx].
  rewrite (le_trans Hax Hxb) in Hab. discriminate Hab.
Qed.

Lemma sort_by_stable (x : A) (l : list A) :
  filter (fun y => le x y && le y x) (sort_by le l)
  = filter (fun y => le x y && le y x) l.
Proof.
  induction l as [|a l IH]; [reflexivity|].
  cbn [sort_by fold_right]. fold (sort_by le l).
  rewrite insert_by_stable. cbn [filter]. rewrite IH. reflexivity.
Qed.

Lemma sort_by_sorted (l : list A) : StronglySorted before (sort_by le l).
Proof.
  induction l as [|a l IH]; simpl.
  - constructor.
  - apply insert_by_sorted, IH.
Qed.

End SortBy.

Section DistinctBy.
Context {A : Type} (eqb : A -> A -> bool).
Hypothesis eqb_eq : forall a b, eqb a b = true <-> a = b.

Lemma distinct_by_in (l : list A) (a : A) :
  In a (distinct_by eqb l) <-> In a l.
Proof.
  induction l as [|b l IH]; simpl; [tauto|]. split.
  - intros [<- | Hin]; [left; reflexivity|].
    apply filter_In in Hin as [Hin _]. right. apply IH, Hin.
  - intros [<- | Hin]; [left; reflexivity|].
    destruct (eqb b a) eqn:Hba.
    + left. apply eqb_eq, Hba.
    + right. apply filter_In. split; [apply IH, Hin | rewrite Hba; reflexivity].
Qed.

Lemma distinct_by_nodup (l : list A) : NoDup (distinct_by eqb l).
Proof.
  induction l as [|b l IH]; simpl; constructor.
  - intros Hin. apply filter_In in Hin as [_ Hin].
    rewrite (proj2 (eqb_eq b b) eq_refl) in Hin. discriminate Hin.
  - apply NoDup_filter, IH.
Qed.

End DistinctBy.

Lemma filter_all {A} (p : A -> bool) (l : list A) :
  (forall x, In x l -> p x = true) -> filter p l = l.
Proof.
  induction l as [|a l IH]; simpl; intros Hall; [reflexivity|].
  rewrite (Hall a) by (left; reflexivity). f_equal. apply IH. auto.
Qed.

Lemma filter_none {A} (p : A -> bool) (l : list A) :
  (forall x, In x l -> p x = false) -> filter p l = [].
Proof.
  induction l as [|a l IH]; simpl; intros Hall; [reflexivity|].
  rewrite (Hall a) by (left; reflexivity). apply IH. auto.
Qed.

Lemma filter_flat_map {A B} (p : B -> bool) (f : A -> list B) (l : list A) :
  filter p (flat_map f l) = flat_map (fun a => filter p (f a)) l.
Proof.
  induction l as [|a l IH]; simpl; [reflexivity|].
  rewrite filter_app, IH. reflexivity.
Qed.

Lemma map_flat_map {A B C} (g : B -> C) (f : A -> list B) (l : list A) :
  map g (flat_map f l) = flat_map (fun a => map g (f a)) l.
Proof.
  induction l as [|a l IH]; simpl; [reflexivity|].
  rewrite map_app, IH. reflexivity.
Qed.

(** Of chunks that are keyed by distinct values, a filter on one key keeps
    the chunk of that key. *)
Lemma filter_chunk {K B} (eqb : K -> K -> bool) (key : B -> K)
    (f : K -> list B) (ks : list K) (k : K) :
  (forall a b, eqb a b = true <-> a = b) ->
  NoDup ks ->
  (forall k' x, In x (f k') -> key x = k') ->
  filter (fun x => eqb (key x) k) (flat_map f ks)
  = if existsb (fun k' => eqb k' k) ks then f k else [].
Proof.
  intros Heqb Hnd Hkey. induction Hnd as [|a ks Hnotin Hnd IH]; simpl.
  - reflexivity.
  - rewrite filter_app, IH. destruct (eqb a k) eqn:Hak; simpl.
    + apply Heqb in Hak. subst a.
      rewrite filter_all.
      2:{ intros x Hx. apply Heqb, (Hkey k x Hx). }
      destruct (existsb (fun k' => eqb k' k) ks) eqn:Hex.
      * apply existsb_exists in Hex as (k' & Hin & Hk'). apply Heqb in Hk'.
        subst k'. contradiction.
      * apply app_nil_r.
    + rewrite filter_none; [reflexivity|].
      intros x Hx. rewrite (Hkey a x Hx). exact Hak.
Qed.

Lemma existsb_eqb_in {K} (eqb : K -> K -> bool) (ks : list K) (k : K) :
  (forall a b, eqb a b = true <-> a = b) ->
  existsb (fun k' => eqb k' k) ks = true <-> In k ks.
Proof.
  intros Heqb. rewrite existsb_exists. split.
  - intros (k' & Hin & Hk'). apply Heqb in Hk'. subst k'. exact Hin.
  - intros Hin. exists k. split; [exact Hin | apply Heqb; reflexivity].
Qed.

Lemma firstn_In {A} (n : nat) (l : list A) (x : A) :
  In x (firstn n l) -> In x l.
Proof.
  intros Hx. rewrite <- (firstn_skipn n l). apply in_or_app. left. exact Hx.
Qed.

Lemma firstn_sorted {A} (R : A -> A -> Prop) (n : nat) (l : list A) :
  StronglySorted R l -> StronglySorted R (firstn n l).
Proof.
  intros Hs. revert n. induction Hs as [|a l Hs IH Ha]; intros [|n]; simpl;
    try constructor.
  - apply IH.
  - apply Forall_forall. intros x Hx. apply firstn_In in Hx.
    exact (proj1 (Forall_forall _ _) Ha x Hx).
Qed.

(** Keeping the ranks up to [n] of a numbered list keeps its first rows. *)
Lemma rank_filter_firstn {A} (l : list A) (k n : Z) :
  map fst (filter (fun jr => (snd jr <=? n)%Z) (row_number_from k l))
  = firstn (Z.to_nat (n - k + 1)) l.
Proof.
  revert k. induction l as [|a l IH]; intros k; simpl.
  - rewrite firstn_nil. reflexivity.
  - destruct (Z.leb_spec k n) as [Hle | Hgt]; simpl; rewrite IH.
    + replace (Z.to_nat (n - k + 1)) with (S (Z.to_nat (n - (k + 1) + 1)))
        by lia.
      reflexivity.
    + replace (Z.to_nat (n - (k + 1) + 1)) with 0%nat by lia.
      replace (Z.to_nat (n - k + 1)) with 0%nat by lia.
      reflexivity.
Qed.

(** ** Permutations and keys *)







Lemma NoDup_map_eq {A B} (f : A -> B) (l : list A) (a b : A) :
  NoDup (map f l) -> In a l -> In b l -> f a = f b -> a = b.
Proof.
  induction l as [|x l IH]; simpl; intros Hnd Ha Hb Hf; [destruct Ha|].
  apply NoDup_cons_iff in Hnd as [Hx Hnd].
  destruct Ha as [-> | Ha], Hb as [-> | Hb]; auto.
  - exfalso. apply Hx. rewrite Hf. apply in_map, Hb.
  - exfalso. apply Hx. rewrite <- Hf. apply in_map, Ha.
Qed.

Lemma NoDup_map_app_disjoint {A B} (f : A -> B) (l1 l2 : list A) (a b : A) :
  NoDup (map f (l1 ++ l2)) -> In a l1 -> In b l2 -> f a <> f b.
Proof.
  induction l1 as [|x l1 IH]; simpl; intros Hnd Ha Hb; [destruct Ha|].
  apply NoDup_cons_iff in Hnd as [Hx Hnd].
  destruct Ha as [-> | Ha]; [|apply IH; assumption].
  intros Hf. apply Hx. rewrite Hf. apply in_map, in_or_app. right. exact Hb.
Qed.




(** ** The error monad *)

Lemma mapM_Ok_in {A B} (f : A -> result B) (l : list A) (bs : list B) :
  mapM f l = Ok bs ->
  forall b, In b bs <-> exists a, In a l /\ f a = Ok b.
Proof.
  revert bs. induction l as [|a l IH]; simpl; intros bs Hm b.
  - injection Hm as <-. simpl. split; [tauto | intros (? & [] & _)].
  - destruct (f a) as [b0|e] eqn:Hfa; simpl in Hm; [|discriminate].
    destruct (mapM f l) as [bs'|e] eqn:Hl; simpl in Hm; [|discriminate].
    injection Hm as <-. simpl. rewrite (IH bs' eq_refl b). split.
    + intros [<- | (a' & Hin & Hfa')].
      * exists a. split; [left; reflexivity | exact Hfa].
      * exists a'. split; [right; exact Hin | exact Hfa'].
    + intros (a' & [<- | Hin] & Hfa').
      * left. congruence.
      * right. exists a'. split; assumption.
Qed.

Lemma mapM_ok {A B} (f : A -> result B) (l : list A) :
  (forall a, In a l -> exists b, f a = Ok b) -> exists bs, mapM f l = Ok bs.
Proof.
  induction l as [|a l IH]; simpl; intros Hall.
  - exists []. reflexivity.
  - destruct (Hall a) as [b Hb]; [left; reflexivity|].
    destruct IH as [bs Hbs]; [intros a' Ha'; apply Hall; right; exact Ha'|].
    exists (b :: bs). rewrite Hb, Hbs. reflexivity.
Qed.

(** ** Extended reals *)

Lemma Req_bool_true (a b : R) : a = b -> Req_bool a b = true.
Proof. intros ->. unfold Req_bool. destruct (Req_dec_T b b); congruence. Qed.

Lemma Req_bool_false (a b : R) : a <> b -> Req_bool a b = false.
Proof. intros Hab. unfold Req_bool. destruct (Req_dec_T a b); congruence. Qed.

Lemma Req_bool_spec (a b : R) : reflect (a = b) (Req_bool a b).
Proof. unfold Req_bool. destruct (Req_dec_T a b); constructor; assumption. Qed.

Lemma Rlt_bool_true (a b : R) : (a < b)%R -> Rlt_bool a b = true.
Proof. intros Hab. unfold Rlt_bool. destruct (Rlt_dec a b); tauto. Qed.

Lemma Rlt_bool_false (a b : R) : (b <= a)%R -> Rlt_bool a b = false.
Proof. intros Hab. unfold Rlt_bool. destruct (Rlt_dec a b); [lra | reflexivity]. Qed.

Lemma Rlt_bool_spec (a b : R) : reflect (a < b)%R (Rlt_bool a b).
Proof. unfold Rlt_bool. destruct (Rlt_dec a b); constructor; assumption. Qed.


Lemma xmul_comm (x y : xreal) : xmul x y = xmul y x.
Proof. destruct x, y; simpl; try reflexivity. f_equal. lra. Qed.

Lemma xadd_assoc (x y z : xreal) : xadd (xadd x y) z = xadd x (xadd y z).
Proof. destruct x, y, z; simpl; try reflexivity. f_equal. lra. Qed.

(** ** The code on finite vectors *)

Lemma fold_left_xadd_Fin (l : list R) (a : R) :
  fold_left xadd (lift l) (Fin a) = Fin (fold_left Rplus l a).
Proof.
  revert a. induction l as [|b l IH]; intros a; simpl.
  - reflexivity.
  - apply IH.
Qed.

Lemma fsum_lift (l : list R) : fsum (lift l) = Fin (Rsum l).
Proof. apply fold_left_xadd_Fin. Qed.

Lemma products_lift (xs ys : list R) :
  products (lift xs) (lift ys) = lift (Rproducts xs ys).
Proof.
  revert ys. induction xs as [|a xs IH]; intros [|b ys]; simpl; try reflexivity.
  f_equal. apply IH.
Qed.

Lemma fold_left_Rplus_acc (l : list R) (a : R) :
  fold_left Rplus l a = (a + fold_left Rplus l 0)%R.
Proof.
  revert a. induction l as [|b l IH]; intros a; simpl.
  - lra.
  - rewrite IH, (IH (0 + b)%R). lra.
Qed.

Lemma Rsum_cons (a : R) (l : list R) : Rsum (a :: l) = (a + Rsum l)%R.
Proof. unfold Rsum. simpl. rewrite fold_left_Rplus_acc. lra. Qed.

Lemma Rdot_cons (a b : R) (xs ys : list R) :
  Rdot (a :: xs) (b :: ys) = (a * b + Rdot xs ys)%R.
Proof. unfold Rdot. simpl. apply Rsum_cons. Qed.

Lemma Rdot_comm (xs ys : list R) : Rdot xs ys = Rdot ys xs.
Proof.
  revert ys. induction xs as [|a xs IH]; intros [|b ys]; try reflexivity.
  rewrite !Rdot_cons, IH. lra.
Qed.

Lemma Rdot_self_nonneg (xs : list R) : (0 <= Rdot xs xs)%R.
Proof.
  induction xs as [|a xs IH].
  - unfold Rdot, Rsum. simpl. lra.
  - rewrite Rdot_cons. nra.
Qed.

(** A vector of squared norm zero is the zero vector: its dot product with
    any vector vanishes. *)
Lemma Rdot_self_zero (xs ys : list R) : Rdot xs xs = 0%R -> Rdot xs ys = 0%R.
Proof.
  revert ys. induction xs as [|a xs IH]; intros ys Hz.
  - reflexivity.
  - destruct ys as [|b ys]; [reflexivity|].
    rewrite Rdot_cons in *.
    pose proof (Rdot_self_nonneg xs) as Hn.
    assert (Ha : a = 0%R) by nra.
    assert (Hx : Rdot xs xs = 0%R) by nra.
    rewrite (IH ys Hx), Ha. lra.
Qed.

Lemma Rnorm2_nonneg (xs : list R) : (0 <= Rnorm2 xs)%R.
Proof. apply sqrt_pos. Qed.

Lemma Rnorm2_zero (xs : list R) : Rnorm2 xs = 0%R -> Rdot xs xs = 0%R.
Proof. intros Hz. apply sqrt_eq_0; [apply Rdot_self_nonneg | exact Hz]. Qed.

Lemma norm2_lift (xs : list R) : norm2 (lift xs) = Fin (Rnorm2 xs).
Proof.
  unfold norm2. rewrite products_lift, fsum_lift. simpl.
  rewrite Rlt_bool_false by apply Rdot_self_nonneg. reflexivity.
Qed.

Lemma dot_lift (xs ys : list R) :
  length xs = length ys -> dot (lift xs) (lift ys) = Ok (Fin (Rdot xs ys)).
Proof.
  intros Hlen. unfold dot, lift. rewrite !length_map, Hlen, Nat.eqb_refl.
  fold (lift xs) (lift ys). rewrite products_lift, fsum_lift. reflexivity.
Qed.

(** The value of [co_sym] on two finite vectors of one size. *)
Lemma co_sym_lift (xs ys : list R) :
  length xs = length ys ->
  co_sym (lift xs) (lift ys)
  = Ok (xdiv (Fin (Rdot xs ys)) (Fin (Rnorm2 xs * Rnorm2 ys))).
Proof.
  intros Hlen. unfold co_sym. rewrite (dot_lift _ _ Hlen), !norm2_lift.
  reflexivity.
Qed.

(** ** The similarity UDF *)

(** C1 (amended): [co_sym] checks no norm. On two rating vectors over the
    shared user index, if either has zero 2-norm the division is evaluated
    with the denominator zero and the value returned is NaN (0/0), not 0.0,
    and nothing is raised; if neither norm is zero the denominator is not
    zero and the value is dot(x,y) / (norm2(x) * norm2(y)). *)
Theorem co_sym_zero_norm (xs ys : list R) :
  length xs = length ys ->
  (norm2 (lift xs) = Fin 0 \/ norm2 (lift ys) = Fin 0 ->
     fmul (norm2 (lift xs)) (norm2 (lift ys)) = Fin 0
     /\ co_sym (lift xs) (lift ys) = Ok NaN)
  /\ (norm2 (lift xs) <> Fin 0 -> norm2 (lift ys) <> Fin 0 ->
     fmul (norm2 (lift xs)) (norm2 (lift ys)) <> Fin 0
     /\ co_sym (lift xs) (lift ys) = Ok (Fin (cosine xs ys))).
Proof.
  intros Hlen. rewrite (co_sym_lift _ _ Hlen), !norm2_lift. simpl. split.
  - intros Hz.
    assert (Hden : (Rnorm2 xs * Rnorm2 ys)%R = 0%R).
    { destruct Hz as [Hz | Hz]; injection Hz as ->; lra. }
    assert (Hnum : Rdot xs ys = 0%R).
    { destruct Hz as [Hz | Hz]; injection Hz as Hz.
      - apply Rdot_self_zero, Rnorm2_zero, Hz.
      - rewrite Rdot_comm. apply Rdot_self_zero, Rnorm2_zero, Hz. }
    rewrite Hden, Hnum, Req_bool_true by reflexivity. split; reflexivity.
  - intros Hx Hy.
    assert (Hden : (Rnorm2 xs * Rnorm2 ys)%R <> 0%R).
    { apply Rmult_integral_contrapositive. split; congruence. }
    rewrite Req_bool_false by exact Hden. split; [congruence | reflexivity].
Qed.

Lemma norm2_zero_vector : norm2 (lift [0; 0]%R) = Fin 0.
Proof.
  rewrite norm2_lift. f_equal. unfold Rnorm2.
  replace (Rdot [0; 0] [0; 0])%R with 0%R
    by (rewrite !Rdot_cons; unfold Rdot, Rsum; simpl; lra).
  apply sqrt_0.
Qed.

(** The zero vector against the vector (3, 4), in exact arithmetic. *)
Lemma co_sym_zero_norm_witness :
  co_sym (lift [0; 0]%R) (lift [3; 4]%R) = Ok NaN.
Proof.
  apply (co_sym_zero_norm [0; 0]%R [3; 4]%R).
  - reflexivity.
  - left. exact norm2_zero_vector.
Defined.

(** C1 as stated fails: in binary64, as in exact arithmetic, the
    similarity of the zero vector with (3, 4) is NaN and not 0.0; and the
    similarity matrix of a training set in which a movie is only rated 0.0
    holds NaN for that movie. *)
Lemma co_sym_zero_vector_is_nan :
  norm2 [0; 0]%float = 0%float
  /\ (exists s, co_sym [0; 0]%float [3; 4]%float = Ok s
                /\ PrimFloat.is_nan s = true)
  /\ co_sym [0; 0]%float [3; 4]%float <> Ok 0%float
  /\ co_sym (lift [0; 0]%R) (lift [3; 4]%R) <> Ok (Fin 0)
  /\ (exists sims,
        (dfv <- df_vector training_zero_rating ;; similarity_matrix dfv)
          = Ok sims
        /\ map (fun r => (sim_movieId r, sim_movieId_1 r,
                          PrimFloat.is_nan (sim_similarity r))) sims
           = [(10%Z, 20%Z, true); (20%Z, 10%Z, true)]).
Proof.
  split; [reflexivity|]. split; [|split; [|split]].
  - exists PrimFloat.nan. split; reflexivity.
  - intros E.
    assert (Hn : match co_sym [0; 0]%float [3; 4]%float with
                 | Ok s => PrimFloat.is_nan s
                 | Raise _ => false
                 end = true) by reflexivity.
    rewrite E in Hn. discriminate Hn.
  - rewrite co_sym_lift by reflexivity.
    replace (Rnorm2 [0; 0]%R) with 0%R
      by (pose proof norm2_zero_vector as Hz; rewrite norm2_lift in Hz;
          congruence).
    replace (Rdot [0; 0] [3; 4])%R with 0%R
      by (rewrite !Rdot_cons; unfold Rdot, Rsum; simpl; lra).
    simpl. rewrite Rmult_0_l, Req_bool_true by reflexivity. discriminate.
  - eexists. split; reflexivity.
Qed.

Lemma SF64mul_comm (x y : spec_float) : SF64mul x y = SF64mul y x.
Proof.
  unfold SF64mul, SFmul.
  destruct x as [sx|sx| |sx mx ex], y as [sy|sy| |sy my ey];
    rewrite ?(xorb_comm sy sx), ?(Pos.mul_comm my mx), ?(Z.add_comm ey ex);
    reflexivity.
Qed.

Lemma xreal_mul_comm (x y : xreal) : fmul x y = fmul y x.
Proof. apply xmul_comm. Qed.

(** The multiplication of binary64 numbers commutes. *)
Lemma b64_mul_comm (x y : float) : fmul x y = fmul y x.
Proof.
  simpl. apply Prim2SF_inj. rewrite !mul_spec. apply SF64mul_comm.
Qed.

Section Symmetry.
Context {D : Type} `{Float64 D}.
Hypothesis fmul_comm : forall x y : D, fmul x y = fmul y x.

Lemma products_comm (x y : list D) : products x y = products y x.
Proof.
  revert y. induction x as [|a x IH]; intros [|b y]; simpl; try reflexivity.
  rewrite fmul_comm, IH. reflexivity.
Qed.

(** [co_sym] does not depend on the order of its arguments, whatever the
    vectors hold (a size mismatch is raised both ways). *)
Lemma co_sym_comm (x y : list D) : co_sym x y = co_sym y x.
Proof.
  unfold co_sym, dot. rewrite (Nat.eqb_sym (length y)), products_comm.
  destruct (Nat.eqb (length x) (length y)); simpl; [|reflexivity].
  f_equal. f_equal. apply fmul_comm.
Qed.

End Symmetry.

(** Membership in the similarity matrix: the ordered pairs of rows of
    [df_vector] with different movies, with the value of the UDF. *)
Lemma similarity_matrix_in {D} `{Float64 D} (dfv : list (VectorRow D))
    (sims : list (SimRow D)) :
  similarity_matrix dfv = Ok sims ->
  forall row, In row sims <->
    exists a b, In a dfv /\ In b dfv /\ vec_movieId a <> vec_movieId b
      /\ co_sym (features a) (features b) = Ok (sim_similarity row)
      /\ sim_movieId row = vec_movieId a
      /\ sim_movieId_1 row = vec_movieId b.
Proof.
  intros Hs row. unfold similarity_matrix in Hs.
  rewrite (mapM_Ok_in _ _ Hs row). split.
  - intros ([a b] & Hin & Hf). apply filter_In in Hin as [Hin Hne].
    apply in_prod_iff in Hin as [Ha Hb]. simpl in *.
    apply negb_true_iff, Z.eqb_neq in Hne.
    destruct (co_sym (features a) (features b)) as [s|e] eqn:Hco;
      simpl in Hf; [|discriminate].
    injection Hf as <-. exists a, b. simpl. tauto.
  - intros (a & b & Ha & Hb & Hne & Hco & Hi & Hj). exists (a, b). split.
    + apply filter_In. split; [apply in_prod; assumption|].
      simpl. apply negb_true_iff, Z.eqb_neq, Hne.
    + simpl. rewrite Hco. simpl. destruct row; simpl in *. congruence.
Qed.

(** The rows of the utility matrix are about different movies. *)
Lemma df_vector_nodup {D} `{Float64 D} (training : list (Rating D))
    (dfv : list (VectorRow D)) :
  df_vector training = Ok dfv -> NoDup (map (@vec_movieId D) dfv).
Proof.
  unfold df_vector, pivot.
  destruct (Z.of_nat (length (pivot_values training)) >? pivotMaxValues)%Z;
    [discriminate|].
  simpl. destruct (existsb _ _); [discriminate|]. intros Hdfv.
  injection Hdfv as <-.
  set (row := fun m => mkVectorRow m _).
  apply (Permutation_NoDup
           (l := map (@vec_movieId D)
                     (map row (distinct_by Z.eqb (map (@movieId D) training))))).
  - apply Permutation_map, Permutation_sym, sort_by_perm.
  - rewrite map_map. simpl. rewrite map_id.
    apply distinct_by_nodup, Z.eqb_eq.
Qed.

(** C6: the similarity matrix is symmetric: whenever it holds the score
    [s] for the ordered pair of movies (i, j), it holds a score for (j, i)
    too, and that score is [s]. This needs of the doubles only that their
    multiplication commutes, as it does in binary64 and in exact
    arithmetic. *)
Theorem similarity_matrix_symmetric (D : Type) (F : Float64 D)
    (training : list (Rating D)) (dfv : list (VectorRow D))
    (sims : list (SimRow D)) (i j : Z) (s : D) :
  (forall x y : D, fmul x y = fmul y x) ->
  df_vector training = Ok dfv ->
  similarity_matrix dfv = Ok sims ->
  In (mkSimRow i j s) sims ->
  In (mkSimRow j i s) sims
  /\ forall s', In (mkSimRow j i s') sims -> s' = s.
Proof.
  intros Hcomm Hdfv Hs Hin.
  apply (similarity_matrix_in _ Hs) in Hin
    as (a & b & Ha & Hb & Hne & Hco & Hi & Hj). simpl in *.
  split.
  - apply (similarity_matrix_in _ Hs). exists b, a. simpl.
    rewrite (co_sym_comm Hcomm). repeat split; auto.
  - intros s' Hin'.
    apply (similarity_matrix_in _ Hs) in Hin'
      as (b' & a' & Hb' & Ha' & _ & Hco' & Hj' & Hi'). simpl in *.
    pose proof (df_vector_nodup _ Hdfv) as Hnd.
    assert (Eb : b' = b)
      by (apply (NoDup_map_eq (@vec_movieId D) dfv); auto; congruence).
    assert (Ea : a' = a)
      by (apply (NoDup_map_eq (@vec_movieId D) dfv); auto; congruence).
    subst a' b'. rewrite (co_sym_comm Hcomm) in Hco'. congruence.
Qed.

(** In binary64 the movies 10 and 20 of the three-movie training set have
    the similarity 12/25 both ways. *)
Lemma similarity_matrix_symmetric_witness :
  exists dfv sims,
    df_vector training_three_movies = Ok dfv
    /\ similarity_matrix dfv = Ok sims
    /\ In (mkSimRow 10 20 0x1.eb851eb851eb8p-2%float) sims
    /\ In (mkSimRow 20 10 0x1.eb851eb851eb8p-2%float) sims.
Proof.
  eexists. eexists. split; [reflexivity|]. split; [reflexivity|].
  split; [left; reflexivity|].
  apply (@similarity_matrix_symmetric float b64 training_three_movies _ _
           10%Z 20%Z _ b64_mul_comm eq_refl eq_refl).
  left. reflexivity.
Defined.

(** In exact arithmetic too. *)
Lemma symmetric_scores_exact (dfv : list (VectorRow xreal))
    (sims : list (SimRow xreal)) (i j : Z) (s : xreal) :
  similarity_matrix dfv = Ok sims ->
  In (mkSimRow i j s) sims <-> In (mkSimRow j i s) sims.
Proof.
  intros Hs.
  assert (Hsym : forall i j, In (mkSimRow i j s) sims ->
                             In (mkSimRow j i s) sims).
  { intros i0 j0 Hin.
    apply (similarity_matrix_in _ Hs) in Hin
      as (a & b & Ha & Hb & Hne & Hco & Hi & Hj). simpl in *.
    apply (similarity_matrix_in _ Hs). exists b, a. simpl.
    rewrite (co_sym_comm xreal_mul_comm). repeat split; auto. }
  split; apply Hsym.
Qed.

(** ** The utility matrix of an empty training set *)

(** C8 (amended): given an empty training set the utility-matrix builder
    raises nothing: the pivot, the assembled vectors and the whole of the
    data modeling step are empty. *)
Theorem pivot_empty_training (D : Type) (F : Float64 D) :
  pivot (@nil (Rating D)) = Ok []
  /\ df_vector (@nil (Rating D)) = Ok []
  /\ data_modeling (@nil (Rating D)) = Ok [].
Proof. repeat split. Qed.

(** C8 as stated fails: the builder returns an empty matrix for the empty
    training set, whatever exception one expects. *)
Lemma df_vector_empty_no_error :
  df_vector (@nil (Rating float)) = Ok []
  /\ forall e, df_vector (@nil (Rating float)) <> Raise e.
Proof. split; [reflexivity | intros e; discriminate]. Qed.

(** ** The single-query predictor of part 1 *)

(** C10: when the similarities of the two selected neighbours sum to
    zero, [predict_user_rating] returns None, and so not the number 0.0. *)
Theorem predict_user_rating_zero_sum (D : Type) (F : Float64 D)
    (user_id movie_id : Z) (smDF : list (SmRow D)) (d : D) :
  spark_sum (map snd (top2 (user_ratings user_id movie_id smDF))) = Some d ->
  feqb d fzero = true ->
  predict_user_rating user_id movie_id smDF = Ok None
  /\ predict_user_rating user_id movie_id smDF <> Ok (Some fzero).
Proof.
  intros Hsum Hzero. unfold predict_user_rating.
  rewrite Hsum. simpl. rewrite Hzero. simpl. split; [reflexivity | discriminate].
Qed.

Lemma predict_user_rating_zero_sum_witness :
  predict_user_rating 1 30 smDF_opposite = Ok None
  /\ predict_user_rating 1 30 smDF_opposite <> Ok (Some 0%float).
Proof.
  apply (@predict_user_rating_zero_sum float b64 1%Z 30%Z smDF_opposite
           0%float); reflexivity.
Defined.

(** ** The weighted average of a neighbour set *)

Lemma Rsum_fold (l : list R) (a : R) : fold_left Rplus l a = Rsum (a :: l).
Proof. unfold Rsum. simpl. rewrite Rplus_0_l. reflexivity. Qed.

Lemma spark_sum_lift (l : list R) :
  spark_sum (lift l) = match l with [] => None | _ => Some (Fin (Rsum l)) end.
Proof.
  destruct l as [|a l]; simpl; [reflexivity|].
  fold (lift l). rewrite fold_left_xadd_Fin, Rsum_fold. reflexivity.
Qed.

Lemma contributes_columns (ns : list (JoinedRow xreal)) :
  Forall contributes ns ->
  map (fun w => similarity (fst w)) (weighted_df ns)
    = lift (map (fun j => to_R (similarity j)) ns)
  /\ map snd (weighted_df ns)
    = lift (map (fun j => to_R (similarity j) * to_R (sm_rating (sm j)))%R ns).
Proof.
  induction 1 as [|j ns (s & r & Hs & Hr & _) _ [IH1 IH2]]; simpl.
  - split; reflexivity.
  - unfold weighted_df in *. rewrite IH1, IH2, Hs, Hr. simpl.
    rewrite (Rmult_comm r s). split; reflexivity.
Qed.

Lemma contributes_sums (ns : list (JoinedRow xreal)) :
  Forall contributes ns ->
  let S := Rsum (map (fun j => to_R (similarity j)) ns) in
  let W := Rsum (map (fun j => to_R (similarity j) * to_R (sm_rating (sm j)))%R
                     ns) in
  (0 <= S)%R /\ (0 <= W <= 5 * S)%R.
Proof.
  induction 1 as [|j ns (s & r & Hs & Hr & Hs0 & Hr05) _ IH]; simpl.
  - unfold Rsum. simpl. lra.
  - simpl in IH. rewrite !Rsum_cons, Hs, Hr. simpl. nra.
Qed.

(** The aggregate of any set of contributing neighbours: a real number of
    the rating range; the weighted average when the similarities do not sum
    to zero, and the default 0 otherwise. *)
Lemma predict_group_contributes (ns : list (JoinedRow xreal)) :
  Forall contributes ns ->
  exists p : R,
    predict_group (weighted_df ns) = Fin p /\ (0 <= p <= 5)%R
    /\ (ns <> [] ->
        Rsum (map (fun j => to_R (similarity j)) ns) <> 0%R ->
        p = weighted_average ns).
Proof.
  intros Hall.
  destruct (contributes_columns Hall) as [Hsim Hw].
  destruct (contributes_sums Hall) as [HS HW].
  unfold predict_group. rewrite Hsim, Hw, !spark_sum_lift.
  destruct ns as [|j ns].
  { exists 0%R. simpl. split; [reflexivity|]. split; [lra | congruence]. }
  cbn [map]. unfold weighted_average. cbn [map]. cbn [map] in HS, HW.
  set (S := Rsum (to_R (similarity j)
                  :: map (fun j => to_R (similarity j)) ns)) in *.
  set (W := Rsum ((to_R (similarity j) * to_R (sm_rating (sm j)))%R
                  :: map (fun j => (to_R (similarity j)
                                    * to_R (sm_rating (sm j)))%R) ns)) in *.
  simpl.
  destruct (Req_dec_T S 0) as [Hz | Hnz].
  - rewrite (Req_bool_true Hz). simpl.
    exists 0%R. split; [reflexivity|]. split; [lra | congruence].
  - rewrite (Req_bool_false Hnz). simpl.
    exists (W / S)%R. split; [reflexivity|]. split; [|reflexivity].
    assert (HSpos : (0 < S)%R) by lra.
    split.
    + apply Rmult_le_pos; [lra|]. apply Rlt_le, Rinv_0_lt_compat, HSpos.
    + apply (Rmult_le_reg_r S); [exact HSpos|]. unfold Rdiv.
      rewrite Rmult_assoc, Rinv_l by exact Hnz. lra.
Qed.

(** C5 (amended): in exact arithmetic, for a non-empty neighbour set whose
    similarities are non-negative and not all zero and whose ratings lie in
    [0, 5], the predictor returns the weighted average
    sum(similarity * rating) / sum(similarity), which lies in [0, 5]. *)
Theorem predict_group_in_range (ns : list (JoinedRow xreal)) :
  ns <> [] ->
  Forall contributes ns ->
  Rsum (map (fun j => to_R (similarity j)) ns) <> 0%R ->
  predict_group (weighted_df ns) = Fin (weighted_average ns)
  /\ (0 <= weighted_average ns <= 5)%R.
Proof.
  intros Hne Hall Hnz.
  destruct (predict_group_contributes Hall) as (p & Hp & Hrange & Havg).
  rewrite <- (Havg Hne Hnz). split; assumption.
Qed.

Lemma predict_group_in_range_witness :
  predict_group (weighted_df ns_two_neighbours)
    = Fin (weighted_average ns_two_neighbours)
  /\ (0 <= weighted_average ns_two_neighbours <= 5)%R.
Proof.
  apply (@predict_group_in_range ns_two_neighbours).
  - discriminate.
  - repeat constructor.
    + exists 1%R, 5%R. simpl. repeat split; try reflexivity; lra.
    + exists 1%R, 3%R. simpl. repeat split; try reflexivity; lra.
  - unfold Rsum. simpl. lra.
Defined.

(** C5 as stated fails in binary64: with two neighbours rated 5.0, of
    similarities 0.01 and 0.02, the predicted rating is
    5.000000000000001, above the range. *)
Lemma predicted_rating_above_range :
  let ns := joined_df 2 test_user1_movie30 sm_small_weights in
  length ns = 2%nat
  /\ forallb (fun j => PrimFloat.leb 0 (similarity j)
                       && PrimFloat.ltb 0 (similarity j)
                       && PrimFloat.leb 0 (sm_rating (sm j))
                       && PrimFloat.leb (sm_rating (sm j)) 5) ns = true
  /\ PrimFloat.ltb 5 (predict_group (weighted_df ns)) = true
  /\ map (@predicted_rating float)
         (data_prediction 2 test_user1_movie30 sm_small_weights)
     = [0x1.4000000000001p+2%float].
Proof. vm_compute. repeat split. Qed.

(** ** The evaluator *)

Lemma Rsum_ones {A} (l : list A) : Rsum (map (fun _ => 1%R) l) = INR (length l).
Proof.
  induction l as [|a l IH].
  - reflexivity.
  - cbn [map length]. rewrite Rsum_cons, IH, S_INR. lra.
Qed.





(** ** The neighbour ranking *)

Lemma key_eqb_eq (k k' : Z * Z) : key_eqb k k' = true <-> k = k'.
Proof.
  destruct k as [a b], k' as [a' b']. unfold key_eqb. simpl.
  rewrite andb_true_iff, !Z.eqb_eq. split.
  - intros [-> ->]. reflexivity.
  - intros E. injection E as -> ->. split; reflexivity.
Qed.

Section Ranking.
Context {D : Type} `{Float64 D}.

Lemma join_tst_sm_in (test : list (Rating D)) (sm_alias : list (SmRow D))
    (j : JoinedRow D) :
  In j (join_tst_sm test sm_alias) <->
  In (tst j) test /\ In (sm j) sm_alias
  /\ userId (tst j) = sm_userId (sm j)
  /\ sm_similar (sm j) = Some (movieId (tst j), similarity j).
Proof.
  unfold join_tst_sm. rewrite in_flat_map. split.
  - intros (t & Ht & Hin). apply in_flat_map in Hin as (s & Hs & Hin).
    destruct (sm_similar s) as [[m1 sim]|] eqn:Hsim; [|destruct Hin].
    destruct ((userId t =? sm_userId s)%Z && (movieId t =? m1)%Z) eqn:Hc;
      [|destruct Hin].
    destruct Hin as [<- | []]. simpl.
    apply andb_true_iff in Hc as [Hu Hm].
    apply Z.eqb_eq in Hu, Hm. subst m1. auto.
  - intros (Ht & Hs & Hu & Hsim). exists (tst j). split; [exact Ht|].
    apply in_flat_map. exists (sm j). split; [exact Hs|].
    rewrite Hsim, Hu, !Z.eqb_refl. simpl. left. destruct j; reflexivity.
Qed.

Lemma window_partition_key (rows : list (JoinedRow D)) (k : Z * Z)
    (j : JoinedRow D) :
  In j (window_partition rows k) <-> In j rows /\ window_key j = k.
Proof. unfold window_partition. rewrite filter_In, key_eqb_eq. tauto. Qed.

(** The rows kept by the rank filter are, window by window, the first
    [nValue] rows of the window sorted by similarity, descending. *)
Lemma joined_df_top_n (nValue : Z) (test : list (Rating D))
    (sm_alias : list (SmRow D)) :
  joined_df nValue test sm_alias
  = flat_map (fun k =>
                firstn (Z.to_nat nValue)
                  (sort_by similarity_desc
                     (window_partition (join_tst_sm test sm_alias) k)))
             (distinct_by key_eqb
                (map (@window_key D) (join_tst_sm test sm_alias))).
Proof.
  unfold joined_df, with_rank. rewrite filter_flat_map, map_flat_map.
  apply flat_map_ext. intros k. rewrite rank_filter_firstn.
  f_equal. lia.
Qed.

Lemma neighbour_set_top_n (nValue : Z) (test : list (Rating D))
    (sm_alias : list (SmRow D)) (u t : Z) :
  neighbour_set nValue test sm_alias u t
  = firstn (Z.to_nat nValue)
      (sort_by similarity_desc (candidates test sm_alias u t)).
Proof.
  unfold neighbour_set, candidates. rewrite joined_df_top_n.
  unfold window_partition at 1.
  rewrite (filter_chunk key_eqb (@window_key D) _ _ key_eqb_eq).
  - destruct (existsb _ _) eqn:Hex; [reflexivity|].
    assert (Hempty : window_partition (join_tst_sm test sm_alias) (u, t) = []).
    { destruct (window_partition _ (u, t)) as [|j rows] eqn:Hw; [reflexivity|].
      assert (Hj : In j (window_partition (join_tst_sm test sm_alias) (u, t)))
        by (rewrite Hw; left; reflexivity).
      apply window_partition_key in Hj as [Hj Hk].
      assert (Hin : In (u, t) (distinct_by key_eqb
                 (map (@window_key D) (join_tst_sm test sm_alias)))).
      { apply (distinct_by_in _ key_eqb_eq). rewrite <- Hk.
        apply in_map, Hj. }
      apply (existsb_eqb_in _ _ _ key_eqb_eq) in Hin. congruence. }
    rewrite Hempty. simpl. rewrite firstn_nil. reflexivity.
  - apply (distinct_by_nodup _ key_eqb_eq).
  - intros k' x Hx. apply firstn_In, sort_by_in in Hx.
    apply window_partition_key in Hx. tauto.
Qed.

End Ranking.

Lemma xspark_leb_total (x y : xreal) :
  spark_leb x y = true \/ spark_leb y x = true.
Proof.
  unfold spark_leb. destruct x as [a| | |], y as [b| | |]; simpl; auto.
  destruct (Rlt_bool_spec a b), (Rlt_bool_spec b a); simpl; auto.
  right. apply Req_bool_true. lra.
Qed.

Lemma xspark_leb_trans (x y z : xreal) :
  spark_leb x y = true -> spark_leb y z = true -> spark_leb x z = true.
Proof.
  unfold spark_leb.
  destruct x as [a| | |], y as [b| | |], z as [c| | |]; simpl; auto;
    try discriminate.
  intros Hab Hbc. apply orb_true_iff in Hab, Hbc. apply orb_true_iff.
  assert (Hab' : (a <= b)%R).
  { destruct Hab as [Hab | Hab].
    - destruct (Rlt_bool_spec a b); [lra | discriminate].
    - destruct (Req_bool_spec a b); [lra | discriminate]. }
  assert (Hbc' : (b <= c)%R).
  { destruct Hbc as [Hbc | Hbc].
    - destruct (Rlt_bool_spec b c); [lra | discriminate].
    - destruct (Req_bool_spec b c); [lra | discriminate]. }
  destruct (Rlt_bool_spec a c); [left; reflexivity|].
  right. apply Req_bool_true. lra.
Qed.

(** C3 (amended): for a query (u, t) and N >= 1 the neighbour set is the
    first N rows of the candidates sorted by similarity, descending (in
    Spark's order of doubles): it has at most N rows, each of them a
    rating by u of a movie whose similarity to t is in the matrix, it is
    ordered by similarity, descending, and it holds all the candidates when
    there are at most N. No further key orders equally similar rows: the
    sort leaves them in their order of arrival. *)
Theorem neighbour_set_ranked (nValue : Z) (test : list (Rating xreal))
    (sm_alias : list (SmRow xreal)) (u t : Z) :
  (1 <= nValue)%Z ->
  let ns := neighbour_set nValue test sm_alias u t in
  let cs := candidates test sm_alias u t in
  ns = firstn (Z.to_nat nValue) (sort_by similarity_desc cs)
  /\ (Z.of_nat (length ns) <= nValue)%Z
  /\ (forall j, In j ns ->
        In (tst j) test /\ In (sm j) sm_alias
        /\ userId (tst j) = u /\ movieId (tst j) = t
        /\ sm_userId (sm j) = u
        /\ sm_similar (sm j) = Some (t, similarity j))
  /\ StronglySorted
       (fun a b => spark_leb (similarity b) (similarity a) = true) ns
  /\ ((Z.of_nat (length cs) <= nValue)%Z -> Permutation ns cs)
  /\ (forall j, filter (tied j) (sort_by similarity_desc cs)
                = filter (tied j) cs).
Proof.
  intros HN ns cs.
  assert (Hns : ns = firstn (Z.to_nat nValue) (sort_by similarity_desc cs))
    by apply neighbour_set_top_n.
  assert (Htotal : forall a b : JoinedRow xreal,
            similarity_desc a b = true \/ similarity_desc b a = true)
    by (intros a b; apply xspark_leb_total).
  assert (Htrans : forall a b c : JoinedRow xreal,
            similarity_desc a b = true -> similarity_desc b c = true ->
            similarity_desc a c = true)
    by (intros a b c Hab Hbc; exact (xspark_leb_trans _ _ _ Hbc Hab)).
  split; [exact Hns|]. split; [|split; [|split; [|split]]].
  5:{ intros j. apply (sort_by_stable (@similarity_desc xreal _) Htrans). }
  - rewrite Hns. pose proof (firstn_le_length (Z.to_nat nValue)
      (sort_by similarity_desc cs)). lia.
  - intros j Hj. rewrite Hns in Hj.
    apply firstn_In, sort_by_in, window_partition_key in Hj as [Hj Hk].
    apply join_tst_sm_in in Hj as (Ht & Hs & Hu & Hsim).
    unfold window_key in Hk. injection Hk as Hku Hkt.
    rewrite <- Hkt, <- Hu. tauto.
  - rewrite Hns. apply firstn_sorted.
    apply (sort_by_sorted (@similarity_desc xreal _) Htotal Htrans).
  - intros Hcs. rewrite Hns, firstn_all2.
    + apply sort_by_perm.
    + rewrite sort_by_length. lia.
Qed.

(** User 1 has two candidate neighbours for movie 30 and N is 2. *)
Lemma neighbour_set_ranked_witness :
  Permutation (neighbour_set 2 test_two_queries sm_three_ratings 1 30)
              (candidates test_two_queries sm_three_ratings 1 30)
  /\ (Z.of_nat (length (neighbour_set 2 test_two_queries sm_three_ratings
                           1 30)) <= 2)%Z.
Proof.
  destruct (@neighbour_set_ranked 2 test_two_queries sm_three_ratings 1 30)
    as (_ & Hlen & _ & _ & Hall & _); [lia|].
  split; [|exact Hlen]. apply Hall. simpl. lia.
Defined.

(** C3 as stated fails on ties: the two equally similar movies 10 and 20
    are candidates for one place (N = 1); which one is kept depends on the
    order in which the same two rows arrive. *)
Lemma neighbour_set_tie_by_arrival :
  Permutation sm_tie_10_first sm_tie_20_first
  /\ map (fun j => sm_movieId (sm j))
         (neighbour_set 1 test_user1_movie30 sm_tie_10_first 1 30) = [10%Z]
  /\ map (fun j => sm_movieId (sm j))
         (neighbour_set 1 test_user1_movie30 sm_tie_20_first 1 30) = [20%Z].
Proof.
  split; [apply perm_swap|]. split; reflexivity.
Qed.

(** ** The predictor *)

(** Evaluation of the comparisons of concrete reals. *)
Ltac real_eval :=
  cbv - [Req_bool Rlt_bool Rplus Rmult Rdiv Rminus Ropp Rinv IZR R_sqrt.sqrt
         Rle Rlt].

Ltac real_bools :=
  repeat (real_eval;
    match goal with
    | |- context [Req_bool ?a ?b] =>
        first [ rewrite (@Req_bool_true a b) by lra
              | rewrite (@Req_bool_false a b) by lra ]
    | |- context [Rlt_bool ?a ?b] =>
        first [ rewrite (@Rlt_bool_true a b) by lra
              | rewrite (@Rlt_bool_false a b) by lra ]
    end).

Lemma xspark_key_eqb_eq (x y : xreal) : spark_key_eqb x y = true <-> x = y.
Proof.
  unfold spark_key_eqb.
  destruct x as [a| | |], y as [b| | |]; simpl; split;
    try discriminate; try reflexivity.
  - rewrite orb_false_r. destruct (Req_bool_spec a b); congruence.
  - intros E. injection E as ->. rewrite orb_false_r.
    apply Req_bool_true. reflexivity.
Qed.

Lemma xgroup_eqb_eq (k k' : Z * Z * xreal) : group_eqb k k' = true <-> k = k'.
Proof.
  destruct k as [[u t] r], k' as [[u' t'] r']. unfold group_eqb. simpl.
  rewrite !andb_true_iff, !Z.eqb_eq, xspark_key_eqb_eq. split.
  - intros [[-> ->] ->]. reflexivity.
  - intros E. injection E as -> -> ->. auto.
Qed.

Lemma group_rows_in (weighted : list (JoinedRow xreal * xreal))
    (k : Z * Z * xreal) (w : JoinedRow xreal * xreal) :
  In w (group_rows weighted k) <-> In w weighted /\ group_key w = k.
Proof. unfold group_rows. rewrite filter_In, xgroup_eqb_eq. tauto. Qed.

(** The rows of [result_df]: one for each group key of the weighted rows. *)
Lemma result_df_in (weighted : list (JoinedRow xreal * xreal))
    (row : ResultRow xreal) :
  In row (result_df weighted) <->
  exists w, In w weighted
    /\ row = mkResultRow (fst (fst (group_key w))) (snd (fst (group_key w)))
               (snd (group_key w))
               (predict_group (group_rows weighted (group_key w))).
Proof.
  unfold result_df. rewrite in_map_iff. split.
  - intros (k & <- & Hk).
    apply (proj1 (distinct_by_in _ xgroup_eqb_eq _ _)) in Hk.
    apply in_map_iff in Hk as (w & <- & Hw). exists w. auto.
  - intros (w & Hw & ->). exists (group_key w). split; [reflexivity|].
    apply (distinct_by_in _ xgroup_eqb_eq), in_map, Hw.
Qed.

(** C2 (amended): for a query row q, let g be its selected neighbours. If
    g is empty, no row is produced for q: the inner join drops the query.
    If g is not empty, exactly one row is produced for q; its predicted
    rating is 0.0 when the similarities of g sum to exactly 0.0, and
    sum(similarity * rating) / sum(similarity) over g otherwise. *)
Theorem data_prediction_rows (nValue : Z) (test : list (Rating xreal))
    (sm_alias : list (SmRow xreal)) (q : Rating xreal) :
  let k := (userId q, movieId q, rating q) in
  let g := group_rows (weighted_df (joined_df nValue test sm_alias)) k in
  let of_q (row : ResultRow xreal) :=
    (res_userId row, res_movieId row, res_rating row) = k in
  (g = [] ->
     forall row, In row (data_prediction nValue test sm_alias) -> ~ of_q row)
  /\ (g <> [] ->
     exists sw ss,
       spark_sum (map snd g) = Some sw
       /\ spark_sum (map (fun w => similarity (fst w)) g) = Some ss
       /\ forall row, In row (data_prediction nValue test sm_alias) /\ of_q row
           <-> row = mkResultRow (userId q) (movieId q) (rating q)
                       (if feqb ss fzero then fzero else fdiv sw ss)).
Proof.
  intros k g of_q. unfold data_prediction.
  set (weighted := weighted_df (joined_df nValue test sm_alias)) in *.
  split.
  - intros Hg row Hrow Hq. apply result_df_in in Hrow as (w & Hw & ->).
    unfold of_q in Hq. simpl in Hq.
    assert (Hin : In w g).
    { apply group_rows_in. split; [exact Hw | exact Hq]. }
    rewrite Hg in Hin. destruct Hin.
  - intros Hg. destruct g as [|w0 g'] eqn:Hgeq; [congruence|].
    assert (Hw0 : In w0 weighted /\ group_key w0 = k).
    { apply group_rows_in. fold g. rewrite Hgeq. left. reflexivity. }
    destruct Hw0 as [Hw0 Hk0].
    cbn [map spark_sum]. eexists. eexists.
    split; [reflexivity|]. split; [reflexivity|].
    assert (Hp : predict_group (group_rows weighted k)
                 = if feqb (fold_left fadd
                             (map (fun w => similarity (fst w)) g')
                             (similarity (fst w0))) fzero
                   then fzero
                   else fdiv (fold_left fadd (map snd g') (snd w0))
                          (fold_left fadd
                             (map (fun w => similarity (fst w)) g')
                             (similarity (fst w0)))).
    { fold g. rewrite Hgeq. unfold predict_group. cbn [map spark_sum spark_div].
      destruct (feqb _ fzero); reflexivity. }
    rewrite <- Hp. intros row. split.
    + intros [Hrow Hq]. apply result_df_in in Hrow as (w & Hw & ->).
      unfold of_q in Hq. simpl in Hq.
      assert (Hkw : group_key w = k) by exact Hq.
      rewrite Hkw. reflexivity.
    + intros ->. split; [|reflexivity].
      apply result_df_in. exists w0. rewrite Hk0. split; [exact Hw0|].
      reflexivity.
Qed.

(** Every predicted rating of the result is the aggregate of a non-empty
    set of joined rows with their weights. *)
Lemma data_prediction_groups (nValue : Z) (test : list (Rating xreal))
    (sm_alias : list (SmRow xreal)) (row : ResultRow xreal) :
  In row (data_prediction nValue test sm_alias) ->
  exists ns, ns <> [] /\ incl ns (joined_df nValue test sm_alias)
    /\ predicted_rating row = predict_group (weighted_df ns).
Proof.
  unfold data_prediction. intros Hrow.
  apply result_df_in in Hrow as (w & Hw & ->). simpl.
  set (joined := joined_df nValue test sm_alias) in *.
  exists (filter (fun j => group_eqb (group_key (j, fzero)) (group_key w))
                 joined).
  assert (Hg : group_rows (weighted_df joined) (group_key w)
               = weighted_df
                   (filter (fun j => group_eqb (group_key (j, fzero))
                                       (group_key w)) joined)).
  { unfold group_rows, weighted_df. clear Hw.
    induction joined as [|j joined IH]; [reflexivity|].
    cbn [map filter].
    change (group_key (j, fmul (sm_rating (sm j)) (similarity j)))
      with (group_key (j, fzero)).
    destruct (group_eqb (group_key (j, fzero)) (group_key w));
      cbn [map]; rewrite IH; reflexivity. }
  split; [|split].
  - apply in_map_iff in Hw as (j & <- & Hj). intros Hnil.
    assert (Hin : In j []).
    { rewrite <- Hnil. apply filter_In. split; [exact Hj|].
      apply xgroup_eqb_eq. reflexivity. }
    destruct Hin.
  - intros j Hj. apply filter_In in Hj. tauto.
  - rewrite Hg. reflexivity.
Qed.

(** User 2 has rated movie 10 with 5, and movie 10 has similarity 1 to
    movie 30: one row, predicted 5 * 1 / 1. *)
Lemma data_prediction_rows_witness :
  In (mkResultRow 2 30 (Fin 1) (Fin (5 * 1 / 1)))
     (data_prediction 2 test_user2_movie30 sm_three_ratings).
Proof.
  destruct (@data_prediction_rows 2 test_user2_movie30 sm_three_ratings
              (mkRating 2 30 (Fin 1))) as [_ Hrow].
  assert (Hg : group_rows
                 (weighted_df (joined_df 2 test_user2_movie30 sm_three_ratings))
                 (2%Z, 30%Z, Fin 1)
               = [(mkJoinedRow (mkRating 2 30 (Fin 1))
                     (mkSmRow 2 10 (Fin 5) (Some (30%Z, Fin 1))) (Fin 1),
                   Fin (5 * 1))]).
  { real_bools. reflexivity. }
  simpl (userId _) in Hrow. simpl (movieId _) in Hrow.
  simpl (rating _) in Hrow. rewrite Hg in Hrow.
  destruct Hrow as (sw & ss & Hsw & Hss & Hrow); [discriminate|].
  cbn in Hsw, Hss. injection Hsw as <-. injection Hss as <-.
  apply (Hrow (mkResultRow 2 30 (Fin 1) (Fin (5 * 1 / 1)))).
  real_bools. reflexivity.
Defined.

(** C2 as stated fails: user 9 has no rating in the training set, the
    neighbour set of the query (9, 30) is empty, and the result has no row
    for it, predicted 0.0 or otherwise. *)
Lemma cold_start_query_is_dropped :
  In (mkRating 9 30 5%float) test_user9_movie30
  /\ neighbour_set 2 test_user9_movie30 sm_small_weights 9 30 = []
  /\ data_prediction 2 test_user9_movie30 sm_small_weights = []
  /\ pipeline 2 training_three_movies test_user9_movie30 = Ok [].
Proof.
  split; [left; reflexivity|]. repeat split.
Qed.

(** ** The data modeling step *)

Section DataModeling.
Context {D : Type} `{Float64 D}.

Lemma co_sym_ok (x y : list D) :
  length x = length y -> exists s, co_sym x y = Ok s.
Proof.
  intros Hlen. unfold co_sym, dot. rewrite Hlen, Nat.eqb_refl. simpl.
  eexists. reflexivity.
Qed.

Lemma has_user_true (train : list (Rating D)) (u : Z) :
  has_user train u = true <-> exists r, In r train /\ userId r = u.
Proof.
  unfold has_user. rewrite existsb_exists.
  split; intros (r & Hr & Hu); exists r; split; auto; apply Z.eqb_eq, Hu.
Qed.

Lemma has_movie_true (train : list (Rating D)) (m : Z) :
  has_movie train m = true <-> exists r, In r train /\ movieId r = m.
Proof.
  unfold has_movie. rewrite existsb_exists.
  split; intros (r & Hr & Hm); exists r; split; auto; apply Z.eqb_eq, Hm.
Qed.

(** A cell of the pivot is never NaN. *)
Lemma pivot_cell_not_nan (c : option D) :
  fis_nan (fzero : D) = false -> fis_nan (fillna0 c) = false.
Proof.
  intros Hzero. destruct c as [x|]; simpl; [|exact Hzero].
  destruct (fis_nan x) eqn:Hx; [exact Hzero | exact Hx].
Qed.

(** Within the limit on the pivot values the utility matrix is built: one
    row per movie of the training set, each over all the user columns. *)
Lemma df_vector_ok (training : list (Rating D)) :
  (Z.of_nat (length (pivot_values training)) <= pivotMaxValues)%Z ->
  fis_nan (fzero : D) = false ->
  exists dfv,
    df_vector training = Ok dfv
    /\ (forall a, In a dfv ->
          length (features a) = length (pivot_values training)
          /\ exists r, In r training /\ movieId r = vec_movieId a)
    /\ (forall r, In r training ->
          exists a, In a dfv /\ vec_movieId a = movieId r).
Proof.
  intros Hmax Hzero. unfold df_vector, pivot.
  destruct (Z.gtb_spec (Z.of_nat (length (pivot_values training)))
              pivotMaxValues) as [Hgt | _]; [lia|].
  simpl. set (rows := sort_by _ _).
  assert (Hrows : forall a, In a rows ->
            exists m, In m (map (@movieId D) training)
              /\ a = mkVectorRow m
                       (map (fun u => fillna0 (first_rating training m u))
                            (pivot_values training))).
  { intros a Ha. apply sort_by_in, in_map_iff in Ha as (m & <- & Hm).
    exists m. split; [|reflexivity].
    apply (proj1 (distinct_by_in _ Z.eqb_eq _ _)), Hm. }
  assert (Hclean : existsb (fun row => existsb fis_nan (features row)) rows
                   = false).
  { destruct (existsb _ rows) eqn:Hex; [|reflexivity].
    apply existsb_exists in Hex as (a & Ha & Hex).
    destruct (Hrows a Ha) as (m & _ & ->). simpl in Hex.
    apply existsb_exists in Hex as (c & Hc & Hex).
    apply in_map_iff in Hc as (u & <- & _).
    rewrite (pivot_cell_not_nan _ Hzero) in Hex. discriminate Hex. }
  rewrite Hclean. exists rows. split; [reflexivity|]. split.
  - intros a Ha. destruct (Hrows a Ha) as (m & Hm & ->). simpl.
    rewrite length_map. split; [reflexivity|].
    apply in_map_iff in Hm as (r & Hr & Hin). exists r. auto.
  - intros r Hr. eexists. split.
    + apply sort_by_in, in_map_iff. exists (movieId r). split; [reflexivity|].
      apply (distinct_by_in _ Z.eqb_eq), in_map, Hr.
    + reflexivity.
Qed.

(** The similarity matrix of such vectors is computed without error and
    holds a score for exactly the ordered pairs of different movies of the
    training set. *)
Lemma similarity_matrix_ok (training : list (Rating D))
    (dfv : list (VectorRow D)) :
  (forall a, In a dfv ->
     length (features a) = length (pivot_values training)
     /\ exists r, In r training /\ movieId r = vec_movieId a) ->
  (forall r, In r training -> exists a, In a dfv /\ vec_movieId a = movieId r) ->
  exists sims,
    similarity_matrix dfv = Ok sims
    /\ forall m t,
         (exists s, In (mkSimRow m t s) sims)
         <-> m <> t /\ has_movie training m = true
             /\ has_movie training t = true.
Proof.
  intros Hdfv Hmov.
  destruct (mapM_ok
    (fun ab =>
       s <- co_sym (features (fst ab)) (features (snd ab)) ;;
       Ok (mkSimRow (vec_movieId (fst ab)) (vec_movieId (snd ab)) s))
    (filter (fun ab => negb (vec_movieId (fst ab) =? vec_movieId (snd ab))%Z)
            (list_prod dfv dfv))) as [sims Hs].
  { intros [a b] Hab. apply filter_In in Hab as [Hab _].
    apply in_prod_iff in Hab as [Ha Hb]. simpl.
    destruct (co_sym_ok (features a) (features b)) as [s Hco].
    - rewrite (proj1 (Hdfv a Ha)), (proj1 (Hdfv b Hb)). reflexivity.
    - rewrite Hco. simpl. eexists. reflexivity. }
  exists sims. split; [exact Hs|]. intros m t. split.
  - intros (s & Hin).
    apply (similarity_matrix_in _ Hs) in Hin
      as (a & b & Ha & Hb & Hne & _ & Hi & Hj). simpl in Hi, Hj.
    destruct (Hdfv a Ha) as [_ (ra & Hra & Hma)].
    destruct (Hdfv b Hb) as [_ (rb & Hrb & Hmb)].
    split; [congruence|]. split; apply has_movie_true.
    + exists ra. split; [exact Hra | congruence].
    + exists rb. split; [exact Hrb | congruence].
  - intros (Hne & Hm & Ht).
    apply has_movie_true in Hm as (ra & Hra & Hma).
    apply has_movie_true in Ht as (rb & Hrb & Hmb).
    destruct (Hmov ra Hra) as (a & Ha & Hia).
    destruct (Hmov rb Hrb) as (b & Hb & Hib).
    destruct (co_sym_ok (features a) (features b)) as [s Hco].
    { rewrite (proj1 (Hdfv a Ha)), (proj1 (Hdfv b Hb)). reflexivity. }
    exists s. apply (similarity_matrix_in _ Hs). exists a, b. simpl.
    repeat split; auto; congruence.
Qed.

(** The rows of the left join that carry a similarity. *)
Lemma df_user_movie_rating_in (training : list (Rating D))
    (sims : list (SimRow D)) (s : SmRow D) (t : Z) (v : D) :
  In s (df_user_movie_rating training sims) /\ sm_similar s = Some (t, v)
  <-> exists r, In r training
        /\ s = mkSmRow (userId r) (movieId r) (rating r) (Some (t, v))
        /\ In (mkSimRow (movieId r) t v) sims.
Proof.
  unfold df_user_movie_rating. rewrite in_flat_map. split.
  - intros [(r & Hr & Hin) Hsim]. exists r. split; [exact Hr|].
    destruct (filter _ sims) as [|x matches] eqn:Hf.
    + destruct Hin as [<- | []]. discriminate Hsim.
    + rewrite <- Hf in Hin. apply in_map_iff in Hin as (row & <- & Hrow).
      simpl in Hsim. injection Hsim as <- <-.
      apply filter_In in Hrow as [Hrow Hm]. apply Z.eqb_eq in Hm.
      split; [reflexivity|]. rewrite <- Hm. destruct row. exact Hrow.
  - intros (r & Hr & -> & Hin). split; [|reflexivity].
    exists r. split; [exact Hr|].
    assert (Hf : In (mkSimRow (movieId r) t v)
                   (filter (fun s => (sim_movieId s =? movieId r)%Z) sims)).
    { apply filter_In. split; [exact Hin | apply Z.eqb_refl]. }
    destruct (filter _ sims) as [|x matches] eqn:Heq; [destruct Hf|].
    apply in_map_iff. eexists. split; [|exact Hf]. reflexivity.
Qed.

End DataModeling.

Section Scoring.
Context {D : Type} `{Float64 D}.

Lemma joined_df_in (nValue : Z) (test : list (Rating D))
    (sm_alias : list (SmRow D)) (j : JoinedRow D) :
  In j (joined_df nValue test sm_alias) -> In j (join_tst_sm test sm_alias).
Proof.
  intros Hj.
  assert (Hn : In j (neighbour_set nValue test sm_alias
                       (fst (window_key j)) (snd (window_key j)))).
  { apply window_partition_key. split; [exact Hj|].
    destruct (window_key j); reflexivity. }
  rewrite neighbour_set_top_n in Hn.
  apply firstn_In, sort_by_in, window_partition_key in Hn. tauto.
Qed.

(** With N >= 1 every window that has a row keeps a row. *)
Lemma joined_df_keeps_window (nValue : Z) (test : list (Rating D))
    (sm_alias : list (SmRow D)) (j : JoinedRow D) :
  (1 <= nValue)%Z ->
  In j (join_tst_sm test sm_alias) ->
  exists j', In j' (joined_df nValue test sm_alias)
             /\ window_key j' = window_key j.
Proof.
  intros HN Hj.
  set (u := fst (window_key j)). set (t := snd (window_key j)).
  assert (Hk : window_key j = (u, t)) by (destruct (window_key j); reflexivity).
  assert (Hc : In j (candidates test sm_alias u t))
    by (apply window_partition_key; auto).
  pose proof (neighbour_set_top_n nValue test sm_alias u t) as Hn.
  destruct (sort_by similarity_desc (candidates test sm_alias u t))
    as [|j' rest] eqn:Hs.
  - apply (sort_by_in similarity_desc) in Hc. rewrite Hs in Hc. destruct Hc.
  - replace (Z.to_nat nValue) with (S (Z.to_nat (nValue - 1))) in Hn by lia.
    simpl in Hn. exists j'.
    assert (Hj' : In j' (neighbour_set nValue test sm_alias u t))
      by (rewrite Hn; left; reflexivity).
    apply window_partition_key in Hj' as [Hj' Hk']. split; [exact Hj'|].
    congruence.
Qed.

End Scoring.

(** The test rows that the similarity pipeline scores are those of the
    rows it has joined. *)
Lemma data_prediction_scored (nValue : Z) (test : list (Rating xreal))
    (sm_alias : list (SmRow xreal)) (q : Rating xreal) :
  In q (map (@scored_row xreal) (data_prediction nValue test sm_alias))
  <-> exists j, In j (joined_df nValue test sm_alias) /\ tst j = q.
Proof.
  unfold data_prediction. rewrite in_map_iff. split.
  - intros (row & <- & Hrow). apply result_df_in in Hrow as (w & Hw & ->).
    apply in_map_iff in Hw as (j & <- & Hj). exists j. split; [exact Hj|].
    unfold scored_row. simpl. destruct (tst j). reflexivity.
  - intros (j & Hj & <-). eexists. split.
    2:{ apply result_df_in. eexists. split; [|reflexivity].
        apply in_map. exact Hj. }
    unfold scored_row. simpl. destruct (tst j). reflexivity.
Qed.

(** In exact arithmetic the whole prediction step stays in the rating
    range when every similarity of the user-movie-rating matrix is a
    non-negative real and every rating lies in [0, 5]. *)
Lemma data_prediction_in_range (nValue : Z) (test : list (Rating xreal))
    (sm_alias : list (SmRow xreal)) (row : ResultRow xreal) :
  (forall s, In s sm_alias ->
     (exists r, sm_rating s = Fin r /\ (0 <= r <= 5)%R)
     /\ forall t v, sm_similar s = Some (t, v) ->
          exists x, v = Fin x /\ (0 <= x)%R) ->
  In row (data_prediction nValue test sm_alias) ->
  exists p : R, predicted_rating row = Fin p /\ (0 <= p <= 5)%R.
Proof.
  intros Hsm Hrow.
  destruct (data_prediction_groups _ _ _ _ Hrow) as (ns & _ & Hincl & ->).
  destruct (@predict_group_contributes ns) as (p & Hp & Hrange & _).
  - apply Forall_forall. intros j Hj.
    apply Hincl, joined_df_in, join_tst_sm_in in Hj as (_ & Hs & _ & Hsim).
    destruct (Hsm _ Hs) as [(r & Hr & Hr05) Hv].
    destruct (Hv _ _ Hsim) as (x & Hx & Hx0).
    exists x, r. auto.
  - exists p. auto.
Qed.

(** ** Cold-start rows *)

Lemma als_transform_scored (predict : Z -> Z -> xreal)
    (train test : list (Rating xreal)) (q : Rating xreal) :
  (forall u m, fis_nan (predict u m) = false) ->
  In q (map fst (als_transform predict train test))
  <-> In q test /\ has_user train (userId q) = true
      /\ has_movie train (movieId q) = true.
Proof.
  intros Hfinite. unfold als_transform. rewrite in_map_iff. split.
  - intros ([q' p] & <- & Hin). apply filter_In in Hin as [Hin Hnan].
    apply in_map_iff in Hin as (r & Hr & Hin). injection Hr as -> <-.
    simpl in *. split; [exact Hin|].
    destruct (has_user train (userId q') && has_movie train (movieId q'))
      eqn:Hknown; [apply andb_true_iff, Hknown | discriminate Hnan].
  - intros (Hin & Hu & Hm).
    exists (q, predict (userId q) (movieId q)). split; [reflexivity|].
    apply filter_In. split.
    + apply in_map_iff. exists q. rewrite Hu, Hm. auto.
    + simpl. rewrite Hfinite. reflexivity.
Qed.

(** C7: on a split with at most one rating per (user, item) pair, and
    N >= 1, the similarity pipeline scores exactly the test rows whose user
    and whose item both occur in the training set, and so does the ALS
    model with its cold-start strategy "drop": the other test rows are
    excluded by both, which are evaluated over the same rows. *)
Theorem cold_start_rows_excluded (nValue : Z)
    (training test : list (Rating xreal)) (predict : Z -> Z -> xreal) :
  (1 <= nValue)%Z ->
  (Z.of_nat (length (pivot_values training)) <= pivotMaxValues)%Z ->
  NoDup (map (@rating_key xreal) (training ++ test)) ->
  (forall u m, fis_nan (predict u m) = false) ->
  exists rows,
    pipeline nValue training test = Ok rows
    /\ forall q,
        (In q (map (@scored_row xreal) rows)
         <-> In q test /\ has_user training (userId q) = true
             /\ has_movie training (movieId q) = true)
        /\ (In q (map fst (als_transform predict training test))
            <-> In q (map (@scored_row xreal) rows)).
Proof.
  intros HN Hmax Hnd Hfinite.
  destruct (@df_vector_ok xreal xreal_float64 training Hmax eq_refl)
    as (dfv & Hdfv & Hfeat & Hmov).
  destruct (similarity_matrix_ok training dfv Hfeat Hmov)
    as (sims & Hsims & Hpairs).
  exists (data_prediction nValue test (df_user_movie_rating training sims)).
  split.
  { unfold pipeline, data_modeling. rewrite Hdfv. simpl. rewrite Hsims.
    reflexivity. }
  intros q.
  assert (Hscored :
    In q (map (@scored_row xreal)
            (data_prediction nValue test (df_user_movie_rating training sims)))
    <-> In q test /\ has_user training (userId q) = true
        /\ has_movie training (movieId q) = true).
  { rewrite data_prediction_scored. split.
    - intros (j & Hj & <-).
      apply joined_df_in, join_tst_sm_in in Hj as (Ht & Hs & Hu & Hsim).
      destruct (proj1 (df_user_movie_rating_in training sims (sm j)
                         (movieId (tst j)) (similarity j)) (conj Hs Hsim))
        as (r & Hr & Hsm & Hrow).
      split; [exact Ht|]. split.
      + apply has_user_true. exists r. split; [exact Hr|].
        rewrite Hu, Hsm. reflexivity.
      + apply (proj1 (Hpairs (movieId r) (movieId (tst j)))).
        exists (similarity j). exact Hrow.
    - intros (Hq & Hu & Hm). apply has_user_true in Hu as (r & Hr & Hu).
      assert (Hne : movieId r <> movieId q).
      { intros Heq.
        apply (NoDup_map_app_disjoint (@rating_key xreal) training test r q
                 Hnd Hr Hq).
        unfold rating_key. congruence. }
      destruct (proj2 (Hpairs (movieId r) (movieId q))) as [s Hs].
      { split; [exact Hne|]. split; [|exact Hm].
        apply has_movie_true. exists r. auto. }
      pose (smrow := mkSmRow (userId r) (movieId r) (rating r)
                       (Some (movieId q, s))).
      assert (Hsm : In smrow (df_user_movie_rating training sims)).
      { apply (proj2 (df_user_movie_rating_in training sims smrow
                        (movieId q) s)).
        exists r. auto. }
      assert (Hj : In (mkJoinedRow q smrow s)
                     (join_tst_sm test (df_user_movie_rating training sims))).
      { apply join_tst_sm_in. simpl. auto. }
      destruct (@joined_df_keeps_window _ _ nValue _ _ _ HN Hj)
        as (j' & Hj' & Hk).
      exists j'. split; [exact Hj'|].
      apply joined_df_in, join_tst_sm_in in Hj' as (Ht' & _).
      apply (NoDup_map_eq (@rating_key xreal) test); auto.
      rewrite map_app in Hnd. apply NoDup_app_remove_l in Hnd. exact Hnd. }
  split; [exact Hscored|].
  rewrite Hscored. apply als_transform_scored, Hfinite.
Qed.

Lemma cold_start_rows_excluded_witness :
  exists rows,
    pipeline 2 training_exact test_exact = Ok rows
    /\ In (mkRating 1 30 (Fin 5)) (map (@scored_row xreal) rows)
    /\ ~ In (mkRating 9 30 (Fin 5)) (map (@scored_row xreal) rows)
    /\ ~ In (mkRating 9 30 (Fin 5))
           (map fst (als_transform (fun _ _ => Fin 3) training_exact
                       test_exact)).
Proof.
  destruct (@cold_start_rows_excluded 2 training_exact test_exact
              (fun _ _ => Fin 3)) as (rows & Hrows & Hq).
  - lia.
  - vm_compute. intros Hgt. discriminate Hgt.
  - simpl. unfold rating_key. simpl.
    repeat (constructor; [simpl; intuition congruence|]). constructor.
  - reflexivity.
  - exists rows. split; [exact Hrows|]. split; [|split].
    + apply (Hq (mkRating 1 30 (Fin 5))). simpl. auto.
    + intros Hin. apply (Hq (mkRating 9 30 (Fin 5))) in Hin
        as (_ & Hu & _). discriminate Hu.
    + intros Hin. apply (Hq (mkRating 9 30 (Fin 5))) in Hin.
      apply (Hq (mkRating 9 30 (Fin 5))) in Hin as (_ & Hu & _).
      discriminate Hu.
Defined.

(** ** Two runs on the same rows *)

Section PivotOrder.
Context {D : Type} `{Float64 D}.




End PivotOrder.

Lemma xadd_0_r (x : xreal) : xadd x (Fin 0) = x.
Proof. destruct x; simpl; try reflexivity. f_equal. lra. Qed.

Lemma fold_left_xadd (l : list xreal) (a : xreal) :
  fold_left xadd l a = xadd a (fold_right xadd (Fin 0) l).
Proof.
  revert a. induction l as [|b l IH]; intros a; simpl.
  - symmetry. apply xadd_0_r.
  - rewrite IH. apply xadd_assoc.
Qed.





Section JoinOrder.
Context {D : Type} `{Float64 D}.



End JoinOrder.





(** ** Runs in binary64 *)

(** The cast to a 32-bit float rounds: 0.1 becomes the nearest binary32
    number. *)
Example cast32_one_tenth :
  fcast32 0x1.999999999999ap-4%float = 0x1.99999ap-4%float.
Proof. reflexivity. Qed.

(** With N = 2 both tied neighbours of user 1 count: the prediction for
    movie 30 is (3 * 0.48 + 4 * 0.48) / (0.48 + 0.48) = 3.5, and the RMSE
    against the actual rating 4.0 is 0.5. *)
Example pipeline_three_movies :
  pipeline 2 training_three_movies test_user1_movie30
    = Ok [mkResultRow 1 30 4%float 3.5%float]
  /\ pipeline_rmse 2 training_three_movies test_user1_movie30
     = Ok 0.5%float.
Proof. split; reflexivity. Qed.

(** The predictor of part 1 on the same tie: (1.5 + 2.0) / 1.0. On a user
    without candidate both sums are None, which differs from 0, and the
    division raises. *)
Example predict_user_rating_runs :
  predict_user_rating 1 30 sm_tie_10_first = Ok (Some 3.5%float)
  /\ predict_user_rating 9 30 sm_tie_10_first = Raise TypeError.
Proof. split; reflexivity. Qed.

(** ** The range of the cosine similarity *)

Lemma Rdot_nil_r (xs : list R) : Rdot xs [] = 0%R.
Proof. destruct xs; reflexivity. Qed.

(** The Cauchy-Schwarz inequality on rating vectors. *)
Lemma Rdot_cauchy_schwarz (xs ys : list R) :
  (Rdot xs ys * Rdot xs ys <= Rdot xs xs * Rdot ys ys)%R.
Proof.
  revert ys. induction xs as [|a xs IH]; intros ys.
  - change (Rdot [] ys) with 0%R. change (Rdot [] []) with 0%R. lra.
  - destruct ys as [|b ys].
    + rewrite Rdot_nil_r. change (Rdot [] []) with 0%R. lra.
    + rewrite !Rdot_cons. specialize (IH ys).
      pose proof (Rdot_self_nonneg xs) as HX.
      pose proof (Rdot_self_nonneg ys) as HY.
      set (d := Rdot xs ys) in *. set (X := Rdot xs xs) in *.
      set (Y := Rdot ys ys) in *.
      assert (Hmix : (2 * (a * b) * d <= a * a * Y + b * b * X)%R).
      { destruct (Req_dec X 0) as [HX0 | HX0].
        - assert (Hd : d = 0%R) by nra. rewrite Hd. nra.
        - assert (HXpos : (0 < X)%R) by lra.
          apply Rmult_le_reg_l with X; [exact HXpos|].
          pose proof (Rle_0_sqr (a * d - b * X)) as Hsq. unfold Rsqr in Hsq.
          nra. }
      nra.
Qed.

Lemma Rdot_self_pos (xs : list R) :
  Exists (fun x => x <> 0%R) xs -> (0 < Rdot xs xs)%R.
Proof.
  induction 1 as [x xs Hx | x xs _ IH]; rewrite Rdot_cons.
  - pose proof (Rdot_self_nonneg xs). nra.
  - nra.
Qed.

Lemma Rdot_nonneg (xs ys : list R) :
  Forall (fun x => 0 <= x)%R xs -> Forall (fun y => 0 <= y)%R ys ->
  (0 <= Rdot xs ys)%R.
Proof.
  intros Hx. revert ys. induction Hx as [|a xs Ha _ IH]; intros ys Hy.
  - unfold Rdot, Rsum. simpl. lra.
  - destruct Hy as [|b ys Hb Hy]; [rewrite Rdot_nil_r; lra|].
    rewrite Rdot_cons. specialize (IH _ Hy). nra.
Qed.

(** The cosine of two vectors that are not zero lies in [-1, 1], and in
    [0, 1] when no entry is negative. *)
Lemma cosine_bounds (xs ys : list R) :
  Exists (fun x => x <> 0%R) xs -> Exists (fun y => y <> 0%R) ys ->
  (Rnorm2 xs * Rnorm2 ys <> 0)%R
  /\ (-1 <= cosine xs ys <= 1)%R
  /\ (Forall (fun x => 0 <= x)%R xs -> Forall (fun y => 0 <= y)%R ys ->
      (0 <= cosine xs ys)%R).
Proof.
  intros Hx Hy. apply Rdot_self_pos in Hx, Hy.
  pose proof (Rdot_cauchy_schwarz xs ys) as Hcs.
  unfold cosine, Rnorm2.
  set (d := Rdot xs ys) in *. set (X := Rdot xs xs) in *.
  set (Y := Rdot ys ys) in *.
  pose proof (sqrt_lt_R0 X Hx) as HsX. pose proof (sqrt_lt_R0 Y Hy) as HsY.
  pose proof (sqrt_sqrt X (Rlt_le _ _ Hx)) as HXX.
  pose proof (sqrt_sqrt Y (Rlt_le _ _ Hy)) as HYY.
  set (sx := R_sqrt.sqrt X) in *. set (sy := R_sqrt.sqrt Y) in *.
  assert (HN : (0 < sx * sy)%R) by nra.
  assert (Hsq : (d * d <= (sx * sy) * (sx * sy))%R) by nra.
  assert (Hd : (- (sx * sy) <= d <= sx * sy)%R) by nra.
  split; [lra|]. split.
  - split.
    + apply Rmult_le_reg_r with (sx * sy)%R; [exact HN|].
      unfold Rdiv. rewrite Rmult_assoc, Rinv_l by lra. lra.
    + apply Rmult_le_reg_r with (sx * sy)%R; [exact HN|].
      unfold Rdiv. rewrite Rmult_assoc, Rinv_l by lra. lra.
  - intros Hxs Hys. pose proof (Rdot_nonneg Hxs Hys) as Hd0. fold d in Hd0.
    apply Rmult_le_reg_r with (sx * sy)%R; [exact HN|].
    unfold Rdiv. rewrite Rmult_assoc, Rinv_l by lra. lra.
Qed.

(** X1: in exact arithmetic the cosine UDF of part 2, on two vectors of the
    same size that both hold a non-zero rating, returns a real number
    between -1 and 1; and between 0 and 1 when no entry is negative, as for
    rating vectors. *)
Theorem co_sym_in_unit_interval (xs ys : list R) :
  length xs = length ys ->
  Exists (fun x => x <> 0%R) xs -> Exists (fun y => y <> 0%R) ys ->
  exists s : R,
    co_sym (lift xs) (lift ys) = Ok (Fin s) /\ (-1 <= s <= 1)%R
    /\ (Forall (fun x => 0 <= x)%R xs -> Forall (fun y => 0 <= y)%R ys ->
        (0 <= s)%R).
Proof.
  intros Hlen Hx Hy.
  destruct (cosine_bounds Hx Hy) as (Hden & Hrange & Hpos).
  exists (cosine xs ys). split; [|split; assumption].
  rewrite (co_sym_lift _ _ Hlen). simpl.
  rewrite Req_bool_false by exact Hden. reflexivity.
Qed.

(** The vectors (3, 4) and (4, 3). *)
Lemma co_sym_in_unit_interval_witness :
  exists s : R,
    co_sym (lift [3; 4]%R) (lift [4; 3]%R) = Ok (Fin s) /\ (-1 <= s <= 1)%R
    /\ (Forall (fun x => 0 <= x)%R [3; 4]%R ->
        Forall (fun y => 0 <= y)%R [4; 3]%R -> (0 <= s)%R).
Proof.
  apply (@co_sym_in_unit_interval [3; 4]%R [4; 3]%R).
  - reflexivity.
  - apply Exists_cons_hd. lra.
  - apply Exists_cons_hd. lra.
Defined.

(** ** The rows of the utility matrix *)

Section UtilityMatrix.
Context {D : Type} `{Float64 D}.

(** When the utility matrix is built it is the pivot sorted by movie: the
    row of a movie holds, for every user column in order, the first rating
    of the movie by the user, after [fillna(0)]. *)
Lemma df_vector_rows (training : list (Rating D)) (dfv : list (VectorRow D)) :
  df_vector training = Ok dfv ->
  dfv = sort_by (fun a b => (vec_movieId a <=? vec_movieId b)%Z)
          (map (fun m =>
                  mkVectorRow m
                    (map (fun u => fillna0 (first_rating training m u))
                         (pivot_values training)))
               (distinct_by Z.eqb (map (@movieId D) training))).
Proof.
  unfold df_vector, pivot.
  destruct (Z.of_nat (length (pivot_values training)) >? pivotMaxValues)%Z;
    [discriminate|].
  simpl. destruct (existsb _ _); [discriminate|].
  intros Hok. injection Hok as <-. reflexivity.
Qed.

Lemma df_vector_in (training : list (Rating D)) (dfv : list (VectorRow D))
    (a : VectorRow D) :
  df_vector training = Ok dfv ->
  In a dfv <->
  In (vec_movieId a) (map (@movieId D) training)
  /\ features a
     = map (fun u => fillna0 (first_rating training (vec_movieId a) u))
           (pivot_values training).
Proof.
  intros Hdfv. rewrite (df_vector_rows _ Hdfv), sort_by_in, in_map_iff. split.
  - intros (m & <- & Hm). split; [|reflexivity].
    apply (distinct_by_in _ Z.eqb_eq), Hm.
  - intros [Hm Ha]. exists (vec_movieId a). split.
    + destruct a as [m f]. simpl in *. rewrite Ha. reflexivity.
    + apply (distinct_by_in _ Z.eqb_eq), Hm.
Qed.

Lemma pivot_values_in (training : list (Rating D)) (u : Z) :
  In u (pivot_values training) <-> In u (map (@userId D) training).
Proof.
  unfold pivot_values. rewrite sort_by_in. apply (distinct_by_in _ Z.eqb_eq).
Qed.

(** The first rating of a movie by a user is one of their ratings in the
    training set, and there is one as soon as the user has rated it. *)
Lemma first_rating_some (training : list (Rating D)) (m u : Z) (x : D) :
  first_rating training m u = Some x ->
  In (mkRating u m x) training.
Proof.
  unfold first_rating.
  destruct (find _ training) as [r|] eqn:Hf; [|discriminate].
  intros Hx. injection Hx as <-. apply find_some in Hf as [Hin Hk].
  apply andb_prop in Hk as [Hm Hu]. apply Z.eqb_eq in Hm, Hu. subst m u.
  destruct r. exact Hin.
Qed.

Lemma first_rating_none (training : list (Rating D)) (m u : Z) :
  first_rating training m u = None ->
  forall r, In r training -> movieId r = m -> userId r <> u.
Proof.
  unfold first_rating.
  destruct (find _ training) as [r|] eqn:Hf; [discriminate|].
  intros _ r Hr Hm Hu. apply (find_none _ _ Hf) in Hr.
  rewrite Hm, Hu, !Z.eqb_refl in Hr. discriminate Hr.
Qed.

End UtilityMatrix.

(** ** Predictions of the whole pipeline *)

(** Ratings that are real numbers in (0, 5], as those of MovieLens. *)
Lemma rated_cells (training : list (Rating xreal)) (m : Z) (users : list Z) :
  (forall r, In r training ->
     exists x : R, rating r = Fin x /\ (0 < x <= 5)%R) ->
  exists cells : list R,
    map (fun u => fillna0 (first_rating training m u)) users = lift cells
    /\ Forall (fun x => 0 <= x)%R cells
    /\ forall u, In u users -> first_rating training m u <> None ->
         Exists (fun x => x <> 0%R) cells.
Proof.
  intros Hr. induction users as [|u users (cells & Heq & Hpos & Hex)].
  - exists []. split; [reflexivity|]. split; [constructor|]. intros u [].
  - destruct (first_rating training m u) as [x|] eqn:Hf.
    + apply first_rating_some in Hf as Hin.
      destruct (Hr _ Hin) as (y & Hy & Hy05). simpl in Hy. subst x.
      exists (y :: cells). simpl. rewrite Hf, Heq. split; [reflexivity|].
      split; [constructor; [lra | exact Hpos]|].
      intros u' _ _. apply Exists_cons_hd. lra.
    + exists (0%R :: cells). simpl. rewrite Hf, Heq. split; [reflexivity|].
      split; [constructor; [lra | exact Hpos]|].
      intros u' [<- | Hu'] Hsome; [congruence|].
      apply Exists_cons_tl. exact (Hex _ Hu' Hsome).
Qed.

Lemma rated_rows (training : list (Rating xreal))
    (dfv : list (VectorRow xreal)) (a : VectorRow xreal) :
  (forall r, In r training ->
     exists x : R, rating r = Fin x /\ (0 < x <= 5)%R) ->
  df_vector training = Ok dfv ->
  In a dfv ->
  exists cells : list R,
    features a = lift cells
    /\ length cells = length (pivot_values training)
    /\ Forall (fun x => 0 <= x)%R cells
    /\ Exists (fun x => x <> 0%R) cells.
Proof.
  intros Hr Hdfv Ha. apply (df_vector_in training a Hdfv) in Ha as [Hm Hfeat].
  destruct (rated_cells training (vec_movieId a) (pivot_values training) Hr)
    as (cells & Heq & Hpos & Hex).
  exists cells. rewrite Hfeat. split; [exact Heq|]. split.
  - apply (f_equal (@length xreal)) in Heq. unfold lift in Heq.
    rewrite !length_map in Heq. symmetry. exact Heq.
  - split; [exact Hpos|].
    apply in_map_iff in Hm as (r & Hm & Hin).
    apply (Hex (userId r)).
    + apply pivot_values_in, in_map, Hin.
    + intros Hnone.
      eapply first_rating_none;
        [exact Hnone | exact Hin | exact Hm | reflexivity].
Qed.

Lemma df_user_movie_rating_row {D} `{Float64 D} (training : list (Rating D))
    (sims : list (SimRow D)) (s : SmRow D) :
  In s (df_user_movie_rating training sims) ->
  In (mkRating (sm_userId s) (sm_movieId s) (sm_rating s)) training.
Proof.
  unfold df_user_movie_rating. rewrite in_flat_map. intros (r & Hr & Hin).
  destruct (filter _ sims) as [|x matches].
  - destruct Hin as [<- | []]. simpl. destruct r. exact Hr.
  - apply in_map_iff in Hin as (row & <- & _). simpl. destruct r. exact Hr.
Qed.

(** X2: in exact arithmetic, when the pivot is within Spark's limit and
    every training rating is a real number in (0, 5], the pipeline of
    part 2 ends without error and every rating it predicts, for any test
    set and any N, is a real number in [0, 5]. *)
Theorem pipeline_predictions_in_range (nValue : Z)
    (training test : list (Rating xreal)) :
  (Z.of_nat (length (pivot_values training)) <= pivotMaxValues)%Z ->
  (forall r, In r training ->
     exists x : R, rating r = Fin x /\ (0 < x <= 5)%R) ->
  exists rows,
    pipeline nValue training test = Ok rows
    /\ forall row, In row rows ->
         exists p : R, predicted_rating row = Fin p /\ (0 <= p <= 5)%R.
Proof.
  intros Hmax Hr.
  destruct (@df_vector_ok xreal xreal_float64 training Hmax eq_refl)
    as (dfv & Hdfv & Hrows & Hmov).
  destruct (similarity_matrix_ok training dfv Hrows Hmov) as (sims & Hsims & _).
  unfold pipeline, data_modeling. rewrite Hdfv. simpl. rewrite Hsims. simpl.
  eexists. split; [reflexivity|]. intros row Hrow.
  apply (data_prediction_in_range nValue test
           (df_user_movie_rating training sims)); [|exact Hrow].
  intros s Hs. split.
  - apply df_user_movie_rating_row in Hs. destruct (Hr _ Hs) as (x & Hx & Hx05).
    exists x. simpl in Hx. split; [exact Hx | lra].
  - intros t v Hsim.
    destruct (proj1 (df_user_movie_rating_in training sims s t v)
                (conj Hs Hsim)) as (r & _ & _ & Hin).
    apply (similarity_matrix_in _ Hsims) in Hin
      as (a & b & Ha & Hb & _ & Hco & _). simpl in Hco.
    destruct (@rated_rows training dfv a Hr Hdfv Ha)
      as (xs & Hxs & Hlx & Hx0 & Hxe).
    destruct (@rated_rows training dfv b Hr Hdfv Hb)
      as (ys & Hys & Hly & Hy0 & Hye).
    rewrite Hxs, Hys, co_sym_lift in Hco by congruence.
    destruct (cosine_bounds Hxe Hye) as (Hden & _ & Hpos).
    simpl in Hco. rewrite Req_bool_false in Hco by exact Hden.
    injection Hco as <-. eexists. split; [reflexivity|]. apply Hpos; assumption.
Qed.

(** Three users and three movies, rated 3 or 4, and two queries. *)
Lemma pipeline_predictions_in_range_witness :
  exists rows,
    pipeline 2 training_exact test_exact = Ok rows
    /\ forall row, In row rows ->
         exists p : R, predicted_rating row = Fin p /\ (0 <= p <= 5)%R.
Proof.
  apply (@pipeline_predictions_in_range 2 training_exact test_exact).
  - vm_compute. intros Hgt. discriminate Hgt.
  - intros r Hr. simpl in Hr.
    repeat (destruct Hr as [<- | Hr];
            [eexists; split; [reflexivity | simpl; lra]|]).
    destruct Hr.
Defined.

(** ** The shape of the similarity matrix *)

Lemma NoDup_list_prod {A B} (l : list A) (l' : list B) :
  NoDup l -> NoDup l' -> NoDup (list_prod l l').
Proof.
  intros Hl Hl'. induction Hl as [|a l Ha _ IH]; simpl; [constructor|].
  apply NoDup_app.
  - apply Finite.Injective_map_NoDup_in; [|exact Hl'].
    intros x y _ _ Hxy. congruence.
  - exact IH.
  - intros [x y] Hin Hin'. apply in_map_iff in Hin as (b & Hb & _).
    apply in_prod_iff in Hin' as [Hx _]. congruence.
Qed.

Lemma mapM_map {A B C} (f : A -> result B) (g : B -> C) (h : A -> C)
    (l : list A) (bs : list B) :
  mapM f l = Ok bs ->
  (forall a b, f a = Ok b -> g b = h a) ->
  map g bs = map h l.
Proof.
  intros Hbs Hgh. revert bs Hbs. induction l as [|a l IH]; simpl; intros bs Hbs.
  - injection Hbs as <-. reflexivity.
  - destruct (f a) as [b|] eqn:Hfa; [|discriminate]. simpl in Hbs.
    destruct (mapM f l) as [bs'|]; [|discriminate]. simpl in Hbs.
    injection Hbs as <-. simpl. rewrite (Hgh _ _ Hfa), (IH _ eq_refl).
    reflexivity.
Qed.

Lemma mapM_length {A B} (f : A -> result B) (l : list A) (bs : list B) :
  mapM f l = Ok bs -> length bs = length l.
Proof.
  intros Hbs.
  rewrite <- (length_map (fun _ => tt) bs), <- (length_map (fun _ => tt) l).
  f_equal. eapply mapM_map; [exact Hbs | reflexivity].
Qed.

(** Among rows about different movies, one row is about a given movie. *)
Lemma filter_same_key {A} (key : A -> Z) (l : list A) (a : A) :
  NoDup (map key l) -> In a l ->
  length (filter (fun b => (key a =? key b)%Z) l) = 1%nat.
Proof.
  induction l as [|b l IH]; simpl; intros Hnd Hin; [destruct Hin|].
  apply NoDup_cons_iff in Hnd as [Hb Hnd]. destruct Hin as [-> | Hin].
  - rewrite Z.eqb_refl. simpl. f_equal. apply length_zero_iff_nil.
    apply filter_none. intros c Hc. apply Z.eqb_neq. intros Heq.
    apply Hb. rewrite Heq. apply in_map, Hc.
  - destruct (Z.eqb_spec (key a) (key b)) as [Heq | _].
    + exfalso. apply Hb. rewrite <- Heq. apply in_map, Hin.
    + apply IH; assumption.
Qed.

Lemma diagonal_length {A} (key : A -> Z) (l : list A) :
  NoDup (map key l) ->
  length (filter (fun ab => (key (fst ab) =? key (snd ab))%Z) (list_prod l l))
  = length l.
Proof.
  intros Hnd. rewrite list_prod_as_flat_map, filter_flat_map.
  rewrite (@flat_map_constant_length _ _ 1%nat); [lia|].
  intros a Ha. rewrite filter_map_swap, length_map. simpl.
  apply filter_same_key; assumption.
Qed.

(** The similarity matrix holds one row at most per ordered pair. *)
Lemma similarity_matrix_keys_nodup {D} `{Float64 D}
    (training : list (Rating D)) (dfv : list (VectorRow D))
    (sims : list (SimRow D)) :
  df_vector training = Ok dfv ->
  similarity_matrix dfv = Ok sims ->
  NoDup (map (fun s => (sim_movieId s, sim_movieId_1 s)) sims).
Proof.
  intros Hdfv Hsims. pose proof (df_vector_nodup _ Hdfv) as Hnd.
  unfold similarity_matrix in Hsims.
  assert (Hkeys :
    map (fun s => (sim_movieId s, sim_movieId_1 s)) sims
    = map (fun ab => (vec_movieId (fst ab), vec_movieId (snd ab)))
        (filter
           (fun ab => negb (vec_movieId (fst ab) =? vec_movieId (snd ab))%Z)
           (list_prod dfv dfv))).
  { eapply mapM_map; [exact Hsims|]. intros [a b] row Hrow. simpl in Hrow.
    destruct (co_sym (features a) (features b)); [|discriminate].
    simpl in Hrow. injection Hrow as <-. reflexivity. }
  rewrite Hkeys. apply Finite.Injective_map_NoDup_in.
  - intros [a b] [a' b'] Hab Hab' Heq. simpl in Heq.
    apply filter_In in Hab as [Hab _], Hab' as [Hab' _].
    apply in_prod_iff in Hab as [Ha Hb], Hab' as [Ha' Hb'].
    injection Heq as Hi Hj.
    rewrite (@NoDup_map_eq _ _ (@vec_movieId D) dfv a a' Hnd Ha Ha' Hi).
    rewrite (@NoDup_map_eq _ _ (@vec_movieId D) dfv b b' Hnd Hb Hb' Hj).
    reflexivity.
  - apply NoDup_filter, NoDup_list_prod; eapply NoDup_map_inv; exact Hnd.
Qed.

(** The pairs of the similarity matrix of a training set. *)
Lemma similarity_matrix_pairs {D} `{Float64 D}
    (training : list (Rating D)) (dfv : list (VectorRow D)) :
  df_vector training = Ok dfv ->
  exists sims,
    similarity_matrix dfv = Ok sims
    /\ forall m t,
         (exists s, In (mkSimRow m t s) sims)
         <-> m <> t /\ has_movie training m = true
             /\ has_movie training t = true.
Proof.
  intros Hdfv. apply similarity_matrix_ok.
  - intros a Ha. apply (df_vector_in training a Hdfv) in Ha as [Hm Hfeat].
    rewrite Hfeat, length_map. split; [reflexivity|].
    apply in_map_iff in Hm as (r & Hm & Hr). exists r. auto.
  - intros r Hr.
    exists (mkVectorRow (movieId r)
              (map (fun u => fillna0 (first_rating training (movieId r) u))
                   (pivot_values training))).
    split; [|reflexivity].
    apply (df_vector_in training _ Hdfv). simpl. split; [|reflexivity].
    apply in_map, Hr.
Qed.

(** X3: once the utility matrix is built, the similarity matrix is computed
    without error and holds exactly one row for every ordered pair of
    different movies of the training set, none for a movie with itself:
    n * n - n rows for n movies. *)
Theorem similarity_matrix_off_diagonal (D : Type) (F : Float64 D)
    (training : list (Rating D)) (dfv : list (VectorRow D)) :
  df_vector training = Ok dfv ->
  exists sims,
    similarity_matrix dfv = Ok sims
    /\ NoDup (map (fun s => (sim_movieId s, sim_movieId_1 s)) sims)
    /\ (forall m t,
          (exists s, In (mkSimRow m t s) sims)
          <-> m <> t /\ has_movie training m = true
              /\ has_movie training t = true)
    /\ (length sims + length dfv = length dfv * length dfv)%nat
    /\ length dfv = length (distinct_by Z.eqb (map (@movieId D) training)).
Proof.
  intros Hdfv.
  destruct (similarity_matrix_pairs training Hdfv) as (sims & Hsims & Hpairs).
  pose proof (df_vector_nodup _ Hdfv) as Hnd.
  exists sims. split; [exact Hsims|]. split; [|split; [exact Hpairs|split]].
  - exact (similarity_matrix_keys_nodup training Hdfv Hsims).
  - unfold similarity_matrix in Hsims. rewrite (mapM_length _ _ Hsims).
    pose proof (filter_length
                  (fun ab => (vec_movieId (fst ab) =? vec_movieId (snd ab))%Z)
                  (list_prod dfv dfv)) as Hfl.
    rewrite (diagonal_length (@vec_movieId D) dfv Hnd), length_prod in Hfl.
    cbv beta in Hfl. lia.
  - rewrite (df_vector_rows _ Hdfv), sort_by_length, length_map. reflexivity.
Qed.

(** The utility matrix of three users and three movies, in binary64. *)
Lemma similarity_matrix_off_diagonal_witness :
  exists sims,
    similarity_matrix
      [mkVectorRow 10 [3; 4; 0]%float; mkVectorRow 20 [4; 0; 3]%float;
       mkVectorRow 30 [0; 3; 4]%float] = Ok sims
    /\ length sims = 6%nat.
Proof.
  destruct (@similarity_matrix_off_diagonal float b64 training_three_movies
              [mkVectorRow 10 [3; 4; 0]%float; mkVectorRow 20 [4; 0; 3]%float;
               mkVectorRow 30 [0; 3; 4]%float])
    as (sims & Hsims & _ & _ & Hlen & _).
  - reflexivity.
  - exists sims. split; [exact Hsims|]. simpl in Hlen. lia.
Defined.

(** ** The cells of the utility matrix *)







(** ** The neighbours of a query *)

(** X5: every neighbour that the prediction step of part 2 selects for a
    test row is a rating of the training set by the same user, of a movie
    other than the one asked for, and its weight is the entry of the
    similarity matrix for that movie and the one asked for, which is
    therefore a movie of the training set. The rating of the movie asked
    for is never used, even if the test row is also a training row. *)
Theorem neighbours_are_other_rated_movies (D : Type) (F : Float64 D)
    (nValue : Z) (training test : list (Rating D))
    (sm_alias : list (SmRow D)) (j : JoinedRow D) :
  data_modeling training = Ok sm_alias ->
  In j (joined_df nValue test sm_alias) ->
  In (tst j) test
  /\ In (mkRating (userId (tst j)) (sm_movieId (sm j)) (sm_rating (sm j)))
        training
  /\ sm_movieId (sm j) <> movieId (tst j)
  /\ has_movie training (movieId (tst j)) = true
  /\ exists dfv sims,
       df_vector training = Ok dfv
       /\ similarity_matrix dfv = Ok sims
       /\ In (mkSimRow (sm_movieId (sm j)) (movieId (tst j)) (similarity j))
             sims.
Proof.
  unfold data_modeling. intros Hmodel Hj.
  destruct (df_vector training) as [dfv|] eqn:Hdfv; [|discriminate].
  simpl in Hmodel.
  destruct (similarity_matrix dfv) as [sims|] eqn:Hsims; [|discriminate].
  simpl in Hmodel. injection Hmodel as <-.
  apply joined_df_in, join_tst_sm_in in Hj as (Htst & Hsm & Hu & Hsim).
  destruct (proj1 (df_user_movie_rating_in training sims (sm j) _ _)
              (conj Hsm Hsim)) as (r & Hr & Hrow & Hin).
  rewrite Hrow in *. simpl in *.
  pose proof Hin as Hpair.
  apply (similarity_matrix_in _ Hsims) in Hpair
    as (a & b & _ & Hb & Hne & _ & Hi & Hj). simpl in Hi, Hj.
  split; [exact Htst|]. split; [rewrite Hu; destruct r; exact Hr|].
  split; [congruence|]. split.
  - apply has_movie_true.
    apply (df_vector_in training b Hdfv) in Hb as [Hm _].
    apply in_map_iff in Hm as (r' & Hm & Hr'). exists r'. split; congruence.
  - exists dfv, sims. auto.
Qed.

(** In binary64: user 1 asks for movie 30 and has rated the movies 10 and
    20; the neighbour of the query that is their rating 3.0 of movie 10. *)
Lemma neighbours_are_other_rated_movies_witness :
  let j := mkJoinedRow (mkRating 1 30 4%float)
             (mkSmRow 1 10 3%float
                (Some (30%Z, 0x1.eb851eb851eb8p-2%float)))
             0x1.eb851eb851eb8p-2%float in
  In (tst j) test_user1_movie30
  /\ In (mkRating 1 10 3%float) training_three_movies
  /\ sm_movieId (sm j) <> movieId (tst j).
Proof.
  intros j.
  destruct (@neighbours_are_other_rated_movies float b64 2
              training_three_movies test_user1_movie30 _ j eq_refl)
    as (Htst & Hin & Hne & _).
  - vm_compute. left. reflexivity.
  - split; [exact Htst|]. split; [exact Hin | exact Hne].
Defined.

(** ** The parameter N *)

Lemma firstn_incl_le {A} (n n' : nat) (l : list A) :
  (n <= n')%nat -> incl (firstn n l) (firstn n' l).
Proof.
  intros Hle x Hx. rewrite <- (Nat.min_l n n' Hle), <- firstn_firstn in Hx.
  exact (firstn_In _ _ _ Hx).
Qed.

(** X6: the rows that the top-N filter of part 2 keeps grow with N: every
    neighbour kept for N is kept for any larger N. For N <= 0 no row has a
    rank within N: nothing is joined and nothing is predicted. *)
Theorem joined_df_grows_with_n (D : Type) (F : Float64 D) (nValue nValue' : Z)
    (test : list (Rating D)) (sm_alias : list (SmRow D)) :
  (nValue <= nValue')%Z ->
  incl (joined_df nValue test sm_alias) (joined_df nValue' test sm_alias)
  /\ ((nValue <= 0)%Z ->
      joined_df nValue test sm_alias = []
      /\ data_prediction nValue test sm_alias = []).
Proof.
  intros Hle. rewrite !joined_df_top_n. split.
  - intros j Hj. apply in_flat_map in Hj as (k & Hk & Hj).
    apply in_flat_map. exists k. split; [exact Hk|].
    revert Hj. apply firstn_incl_le. lia.
  - intros H0.
    assert (Hnone : joined_df nValue test sm_alias = []).
    { rewrite joined_df_top_n.
      replace (Z.to_nat nValue) with 0%nat by lia. simpl.
      induction (distinct_by key_eqb _) as [|k ks IH]; [reflexivity|].
      simpl. exact IH. }
    rewrite <- joined_df_top_n. split; [exact Hnone|].
    unfold data_prediction. rewrite Hnone. reflexivity.
Qed.

(** In binary64, on the tie of user 1: the neighbour kept for N = 1 is kept
    for N = 2. *)
Lemma joined_df_grows_with_n_witness :
  incl (joined_df 1 test_user1_movie30 sm_tie_10_first)
       (joined_df 2 test_user1_movie30 sm_tie_10_first)
  /\ length (joined_df 1 test_user1_movie30 sm_tie_10_first) = 1%nat
  /\ length (joined_df 2 test_user1_movie30 sm_tie_10_first) = 2%nat.
Proof.
  split; [|split; reflexivity].
  apply (@joined_df_grows_with_n float b64 1 2 test_user1_movie30
           sm_tie_10_first).
  lia.
Defined.

(** ** The outcomes of the single-query predictor *)

Lemma spark_sum_none {D} `{Float64 D} (l : list D) :
  spark_sum l = None <-> l = [].
Proof. destruct l; simpl; split; intros Heq; congruence. Qed.

Lemma top2_nil {D} `{Float64 D} (rows : list (SmRow D * D)) :
  top2 rows = [] <-> rows = [].
Proof.
  unfold top2. split; [|intros ->; reflexivity].
  intros Hnil. apply length_zero_iff_nil.
  pose proof (sort_by_length (fun a b => spark_leb (snd b) (snd a)) rows) as Hl.
  destruct (sort_by _ rows) as [|r rs]; [simpl in Hl; lia|discriminate Hnil].
Qed.

Lemma user_ratings_in {D} `{Float64 D} (user_id movie_id : Z)
    (smDF : list (SmRow D)) (s : SmRow D) (v : D) :
  In (s, v) (user_ratings user_id movie_id smDF)
  <-> In s smDF /\ sm_userId s = user_id
      /\ sm_similar s = Some (movie_id, v).
Proof.
  unfold user_ratings. rewrite in_flat_map. split.
  - intros (s' & Hs' & Hin). destruct (sm_similar s') as [[m1 sim]|] eqn:Hsim;
      [|destruct Hin].
    destruct (Z.eqb_spec (sm_userId s') user_id) as [Hu|]; [|destruct Hin].
    destruct (Z.eqb_spec m1 movie_id) as [Hm|]; [|destruct Hin].
    destruct Hin as [Heq | []]. injection Heq as <- <-. subst. auto.
  - intros (Hs & Hu & Hsim). exists s. split; [exact Hs|].
    rewrite Hsim, Hu, !Z.eqb_refl. left. reflexivity.
Qed.

(** X8: [predict_user_rating] of part 1 ends in exactly one of three ways.
    It raises a TypeError (None / None) exactly when [smDF] has no row of
    the user whose [movieId_1] is the movie asked for; otherwise it returns
    None when the similarities of the two rows kept sum to zero and their
    quotient of sums when they do not. It never raises a
    ZeroDivisionError. *)
Theorem predict_user_rating_outcomes (D : Type) (F : Float64 D)
    (user_id movie_id : Z) (smDF : list (SmRow D)) :
  let rows := top2 (user_ratings user_id movie_id smDF) in
  let numerator :=
    spark_sum (map (fun r => fcast32 (fmul (sm_rating (fst r)) (snd r))) rows)
  in
  let denominator := spark_sum (map snd rows) in
  (predict_user_rating user_id movie_id smDF = Raise TypeError
   <-> forall s v, In s smDF -> sm_userId s = user_id ->
         sm_similar s <> Some (movie_id, v))
  /\ (forall e, predict_user_rating user_id movie_id smDF = Raise e ->
        e = TypeError)
  /\ (forall n d, numerator = Some n -> denominator = Some d ->
        predict_user_rating user_id movie_id smDF
        = Ok (if feqb d fzero then None else Some (fdiv n d))).
Proof.
  intros rows numerator denominator.
  assert (Hempty : rows = [] <->
            forall s v, In s smDF -> sm_userId s = user_id ->
              sm_similar s <> Some (movie_id, v)).
  { unfold rows. rewrite top2_nil. split.
    - intros Hnil s v Hs Hu Hsim.
      assert (Hin : In (s, v) (user_ratings user_id movie_id smDF))
        by (apply user_ratings_in; auto).
      rewrite Hnil in Hin. destruct Hin.
    - intros Hno. destruct (user_ratings user_id movie_id smDF)
        as [|[s v] l] eqn:Hrows; [reflexivity|].
      assert (Hin : In (s, v) (user_ratings user_id movie_id smDF))
        by (rewrite Hrows; left; reflexivity).
      apply user_ratings_in in Hin as (Hs & Hu & Hsim).
      destruct (Hno s v Hs Hu Hsim). }
  assert (Hcases :
    (rows = [] /\ predict_user_rating user_id movie_id smDF = Raise TypeError)
    \/ (exists n d, numerator = Some n /\ denominator = Some d
          /\ predict_user_rating user_id movie_id smDF
             = Ok (if feqb d fzero then None else Some (fdiv n d)))).
  { unfold predict_user_rating. fold rows. fold numerator. fold denominator.
    unfold numerator, denominator.
    destruct rows as [|r rs]; [left; split; reflexivity|].
    right. simpl. eexists. eexists. split; [reflexivity|].
    split; [reflexivity|].
    destruct (feqb _ fzero); reflexivity. }
  split; [|split].
  - rewrite <- Hempty. split.
    + intros Hraise. destruct Hcases as [[Hnil _] | (n & d & _ & _ & Hok)];
        [exact Hnil|].
      rewrite Hok in Hraise. discriminate Hraise.
    + intros Hnil. destruct Hcases as [[_ Hraise] | (n & d & Hn & _ & _)];
        [exact Hraise|].
      unfold numerator in Hn. rewrite Hnil in Hn. discriminate Hn.
  - intros e He. destruct Hcases as [[_ Hraise] | (n & d & _ & _ & Hok)].
    + congruence.
    + rewrite Hok in He. discriminate He.
  - intros n d Hn Hd.
    destruct Hcases as [[Hnil _] | (n' & d' & Hn' & Hd' & Hok)].
    + unfold numerator in Hn. rewrite Hnil in Hn. discriminate Hn.
    + rewrite Hn in Hn'. rewrite Hd in Hd'.
      injection Hn' as <-. injection Hd' as <-. exact Hok.
Qed.

(** ** The failures of the pipeline *)

(** X7: the steps 4 and 5 of part 2 fail in one way only. When the training
    set has more distinct users than [spark.sql.pivotMaxValues] (20000 in
    the session of the notebook) the pivot is refused with an
    AnalysisException, whatever the test set and N; otherwise the pipeline
    returns its predictions: after [fillna(0)] the VectorAssembler meets no
    NaN, and [co_sym] only meets vectors of the same size. This needs of
    the doubles only that 0.0 is not NaN. *)
Theorem pipeline_fails_only_on_pivot_limit (D : Type) (F : Float64 D)
    (nValue : Z) (training test : list (Rating D)) :
  fis_nan (fzero : D) = false ->
  ((pivotMaxValues < Z.of_nat (length (pivot_values training)))%Z
   <-> pipeline nValue training test = Raise AnalysisException)
  /\ ((Z.of_nat (length (pivot_values training)) <= pivotMaxValues)%Z
      <-> exists rows, pipeline nValue training test = Ok rows)
  /\ (forall e, pipeline nValue training test = Raise e ->
        e = AnalysisException).
Proof.
  intros Hzero.
  destruct (Z.gtb_spec (Z.of_nat (length (pivot_values training)))
              pivotMaxValues) as [Hgt | Hle].
  - assert (Hraise : pipeline nValue training test = Raise AnalysisException).
    { unfold pipeline, data_modeling, df_vector, pivot.
      destruct (Z.gtb_spec (Z.of_nat (length (pivot_values training)))
                  pivotMaxValues) as [_ | Hle]; [reflexivity | lia]. }
    rewrite Hraise. split; [tauto|]. split.
    + split; [lia|]. intros (rows & Hrows). discriminate Hrows.
    + intros e He. congruence.
  - destruct (df_vector_ok training Hle Hzero) as (dfv & Hdfv & Hrows & Hmov).
    destruct (similarity_matrix_ok training dfv Hrows Hmov)
      as (sims & Hsims & _).
    assert (Hok : pipeline nValue training test
                  = Ok (data_prediction nValue test
                          (df_user_movie_rating training sims))).
    { unfold pipeline, data_modeling. rewrite Hdfv. simpl. rewrite Hsims.
      reflexivity. }
    rewrite Hok. split.
    + split; [lia | discriminate].
    + split; [|discriminate]. split; [|tauto]. intros _. eexists. reflexivity.
Qed.

(** In binary64, on three users and three movies. *)
Lemma pipeline_fails_only_on_pivot_limit_witness :
  exists rows, pipeline 2 training_three_movies test_user1_movie30 = Ok rows.
Proof.
  destruct (@pipeline_fails_only_on_pivot_limit float b64 2
              training_three_movies test_user1_movie30 eq_refl)
    as (_ & Hok & _).
  apply Hok. vm_compute. intros Hgt. discriminate Hgt.
Defined.

(** ** The Pearson similarity of part 1 *)

Section PearsonValues.
Context {D : Type} `{Float64 D}.

Lemma value_py_sum (l : list (pynum D)) (a : pynum D) :
  Pearson.value (fold_left Pearson.py_add l a)
  = fold_left fadd (map Pearson.value l) (Pearson.value a).
Proof.
  revert a. induction l as [|e l IH]; intros a; [reflexivity|].
  simpl. rewrite IH. f_equal. destruct a, e; reflexivity.
Qed.

Lemma py_div_count_pos (s : pynum D) (n : nat) :
  n <> 0%nat ->
  Pearson.py_div_count s n
  = Ok (fdiv (Pearson.value s) (Pearson.of_count n)).
Proof.
  intros Hn. destruct s as [x | x]; [reflexivity|].
  destruct n; [congruence | reflexivity].
Qed.

(** As soon as a cell differs from 0 the centred row depends on the values
    of the cells only, not on the way the vector is stored. *)
Lemma pearson_average_values (v : Vector D) :
  let cells := map Pearson.value (Pearson.elements v) in
  let count := length (filter (fun c => negb (feqb c fzero)) cells) in
  count <> 0%nat ->
  Pearson.pearson_average v
  = Ok (map (fun c => if negb (feqb c fzero)
                      then fsub c (fdiv (fsum cells) (Pearson.of_count count))
                      else fzero) cells).
Proof.
  intros cells count Hcount. unfold Pearson.pearson_average.
  assert (Hlen : length (filter (fun e => negb (feqb (Pearson.value e) fzero))
                           (Pearson.elements v)) = count).
  { unfold count, cells. rewrite filter_map_swap, length_map. reflexivity. }
  rewrite Hlen, (py_div_count_pos _ Hcount). simpl.
  unfold Pearson.py_sum. rewrite value_py_sum. simpl.
  unfold cells. rewrite map_map. reflexivity.
Qed.

Lemma elements_dense (values : list D) :
  Pearson.elements (DenseVector values) = map np_float64 values.
Proof.
  unfold Pearson.elements. simpl.
  assert (Hgen : forall (l : list D) (k : nat) (pre : list D),
            length pre = k ->
            flat_map (fun i => match option_map np_float64
                                       (nth_error (pre ++ l) i) with
                               | Some e => [e]
                               | None => []
                               end) (seq k (length l))
            = map np_float64 l).
  { induction l as [|a l IH]; intros k pre Hk; [reflexivity|].
    simpl. rewrite nth_error_app2, <- Hk, Nat.sub_diag by lia. simpl. f_equal.
    replace (pre ++ a :: l) with ((pre ++ [a]) ++ l)
      by (rewrite <- app_assoc; reflexivity).
    apply IH. rewrite length_app. simpl. lia. }
  exact (Hgen values 0%nat [] eq_refl).
Qed.

End PearsonValues.

Lemma xeqb_zero (c : xreal) : feqb c fzero = true -> c = Fin 0.
Proof.
  destruct c as [a | | |]; simpl; try discriminate.
  destruct (Req_bool_spec a 0) as [-> | _]; [reflexivity | discriminate].
Qed.

Lemma of_count_real (n : nat) : Pearson.of_count n = Fin (INR n).
Proof.
  unfold Pearson.of_count. simpl fone.
  replace (repeat (Fin 1) n) with (lift (map (fun _ => 1%R) (repeat tt n))).
  - rewrite fsum_lift, Rsum_ones, repeat_length. reflexivity.
  - unfold lift. rewrite map_map. induction n as [|n IH]; [reflexivity|].
    simpl. rewrite IH. reflexivity.
Qed.

(** The stored cells of a sparse vector answer for their index, and 0.0
    answers for the cells that are 0. *)
Lemma sparse_lookup (cells : list xreal) (k : nat) :
  map (fun i =>
         Pearson.value
           match find (fun iv => (fst iv =? i)%nat)
                   (filter (fun iv => negb (feqb (snd iv) fzero))
                      (combine (seq k (length cells)) cells)) with
           | Some iv => np_float64 (snd iv)
           | None => py_float fzero
           end)
      (seq k (length cells))
  = cells.
Proof.
  revert k. induction cells as [|c cells IH]; intros k; [reflexivity|].
  cbn [length seq combine map filter snd].
  assert (Hlater : forall iv,
            In iv (filter (fun iv => negb (feqb (snd iv) fzero))
                     (combine (seq (S k) (length cells)) cells)) ->
            (fst iv =? k)%nat = false).
  { intros [i x] Hin. apply filter_In in Hin as [Hin _].
    apply in_combine_l, in_seq in Hin. simpl. apply Nat.eqb_neq. lia. }
  f_equal.
  - destruct (feqb c fzero) eqn:Hc; cbn [negb find fst snd].
    + rewrite (xeqb_zero _ Hc).
      destruct (find _ _) as [iv|] eqn:Hf; [|reflexivity].
      apply find_some in Hf as [Hin Hk]. rewrite (Hlater _ Hin) in Hk.
      discriminate Hk.
    + rewrite Nat.eqb_refl. reflexivity.
  - rewrite <- (IH (S k)) at 2. apply map_ext_in. intros i Hi.
    apply in_seq in Hi.
    destruct (feqb c fzero); cbn [negb find fst]; [reflexivity|].
    destruct (Nat.eqb_spec k i) as [-> | _]; [lia | reflexivity].
Qed.

Lemma flat_map_some {A B} (p : A -> bool) (g : A -> B) (l : list A) :
  (forall i, In i l -> p i = true) ->
  flat_map (fun i => match (if p i then Some (g i) else None) with
                     | Some e => [e]
                     | None => []
                     end) l
  = map g l.
Proof.
  induction l as [|i l IH]; intros Hp; [reflexivity|].
  simpl. rewrite (Hp i (or_introl eq_refl)), IH; [reflexivity|].
  intros i' Hi'. apply Hp. right. exact Hi'.
Qed.

(** In exact arithmetic the items of an assembled vector are its cells,
    whether it is stored dense or sparse. *)
Lemma elements_assemble (cells : list xreal) :
  map Pearson.value (Pearson.elements (Pearson.assemble cells)) = cells.
Proof.
  unfold Pearson.assemble.
  destruct (_ <? _)%nat.
  - unfold Pearson.elements. cbn [Pearson.len Pearson.getitem].
    rewrite (flat_map_some (fun i => (i <? length cells)%nat)).
    + rewrite map_map. apply (sparse_lookup cells 0).
    + intros i Hi. apply in_seq in Hi. apply Nat.ltb_lt. lia.
  - rewrite elements_dense, map_map. simpl. apply map_id.
Qed.

Lemma filter_nonzero_lift (xs : list R) :
  filter (fun c : xreal => negb (feqb c fzero)) (lift xs)
  = lift (filter (fun x => negb (Req_bool x 0)) xs).
Proof.
  induction xs as [|x xs IH]; [reflexivity|].
  cbn [lift map filter]. change (feqb (Fin x) fzero) with (Req_bool x 0).
  fold (lift xs). rewrite IH.
  destruct (Req_bool x 0); reflexivity.
Qed.

Lemma count_nonzero_pos (xs : list R) :
  Exists (fun x => x <> 0%R) xs ->
  length (filter (fun x => negb (Req_bool x 0)) xs) <> 0%nat.
Proof.
  induction 1 as [x xs Hx | x xs _ IH]; simpl.
  - rewrite Req_bool_false by exact Hx. discriminate.
  - destruct (Req_bool x 0); simpl; [exact IH | discriminate].
Qed.

(** The centred row that the code computes is the one of the design. *)
Lemma pearson_average_cells (v : Vector xreal) (xs : list R) :
  map Pearson.value (Pearson.elements v) = lift xs ->
  Exists (fun x => x <> 0%R) xs ->
  Pearson.pearson_average v = Ok (lift (centred xs)).
Proof.
  intros Hcells Hx. pose proof (count_nonzero_pos Hx) as Hcount.
  pose proof (pearson_average_values v) as Havg. cbv zeta in Havg.
  rewrite Hcells, filter_nonzero_lift in Havg.
  replace (length (lift (filter (fun x => negb (Req_bool x 0)) xs)))
    with (length (filter (fun x => negb (Req_bool x 0)) xs)) in Havg
    by (symmetry; apply length_map).
  rewrite (Havg Hcount). f_equal.
  rewrite fsum_lift, of_count_real. unfold lift, centred.
  rewrite !map_map. apply map_ext. intros x. simpl.
  destruct (Req_bool x 0); [reflexivity|]. simpl.
  rewrite Req_bool_false by (apply not_0_INR; exact Hcount).
  reflexivity.
Qed.

Lemma Rsum_map_centre (mu : R) (xs : list R) :
  Rsum (map (fun x => if Req_bool x 0 then 0 else x - mu)%R xs)
  = (Rsum xs
     - INR (length (filter (fun x => negb (Req_bool x 0)) xs)) * mu)%R.
Proof.
  induction xs as [|x xs IH]; [unfold Rsum; simpl; lra|].
  cbn [map filter]. rewrite !Rsum_cons, IH.
  destruct (Req_bool_spec x 0) as [-> | Hx]; cbn [negb]; [lra|].
  cbn [length]. rewrite S_INR. lra.
Qed.

Lemma centred_zero_cell (xs : list R) :
  Exists (fun x => x <> 0%R) (centred xs) -> Exists (fun x => x <> 0%R) xs.
Proof.
  unfold centred. intros Hex. apply Exists_exists in Hex as (y & Hy & Hy0).
  apply in_map_iff in Hy as (x & <- & Hx). apply Exists_exists. exists x.
  split; [exact Hx|]. intros ->. apply Hy0.
  rewrite Req_bool_true by reflexivity. reflexivity.
Qed.

(** X9: in exact arithmetic, on a row that holds at least one rating,
    [pearson_average] of part 1 returns the row of the design: every cell
    that is not 0 minus the mean of those cells, the cells without rating
    left at 0. The result is the same for the vector stored dense and for
    the one the VectorAssembler makes, and the centred ratings sum to 0. *)
Theorem pearson_average_centres (xs : list R) :
  Exists (fun x => x <> 0%R) xs ->
  Pearson.pearson_average (Pearson.assemble (lift xs)) = Ok (lift (centred xs))
  /\ Pearson.pearson_average (DenseVector (lift xs)) = Ok (lift (centred xs))
  /\ Rsum (centred xs) = 0%R
  /\ length (centred xs) = length xs
  /\ forall i, nth i xs 0%R = 0%R -> nth i (centred xs) 0%R = 0%R.
Proof.
  intros Hx. split; [|split; [|split; [|split]]].
  - apply pearson_average_cells; [apply elements_assemble | exact Hx].
  - apply pearson_average_cells; [|exact Hx].
    rewrite elements_dense, map_map. simpl. apply map_id.
  - unfold centred. rewrite Rsum_map_centre. unfold Rmean_nonzero.
    pose proof (not_0_INR _ (count_nonzero_pos Hx)) as Hk. field. exact Hk.
  - unfold centred. apply length_map.
  - intros i. unfold centred. generalize (Rmean_nonzero xs) as mu. intros mu.
    clear Hx. revert i.
    induction xs as [|x xs' IH]; intros [|i] Hi; try reflexivity.
    + simpl in *. rewrite Hi, Req_bool_true by reflexivity. reflexivity.
    + simpl in *. apply IH, Hi.
Qed.

(** The ratings 1, 3 and 5 of three users out of four. *)
Lemma pearson_average_centres_witness :
  Pearson.pearson_average (Pearson.assemble (lift [1; 0; 3; 5]%R))
    = Ok (lift (centred [1; 0; 3; 5]%R))
  /\ Rsum (centred [1; 0; 3; 5]%R) = 0%R.
Proof.
  destruct (@pearson_average_centres [1; 0; 3; 5]%R) as (Havg & _ & Hsum & _).
  - apply Exists_cons_hd. lra.
  - split; [exact Havg | exact Hsum].
Defined.

Lemma cosine_comm (xs ys : list R) : cosine xs ys = cosine ys xs.
Proof.
  unfold cosine. rewrite (Rdot_comm xs ys), (Rmult_comm (Rnorm2 xs)).
  reflexivity.
Qed.

(** The UDF of part 1 on two rows with a rating each is the cosine UDF of
    part 2 on their centred rows. *)
Lemma pearson_co_sym_centred (x y : Vector xreal) (xs ys : list R) :
  map Pearson.value (Pearson.elements x) = lift xs ->
  map Pearson.value (Pearson.elements y) = lift ys ->
  Exists (fun a => a <> 0%R) xs -> Exists (fun b => b <> 0%R) ys ->
  Pearson.co_sym x y = co_sym (lift (centred xs)) (lift (centred ys)).
Proof.
  intros Hxs Hys Hx Hy. unfold Pearson.co_sym.
  rewrite (@pearson_average_cells x xs Hxs Hx).
  rewrite (@pearson_average_cells y ys Hys Hy).
  reflexivity.
Qed.

(** X10: in exact arithmetic the Pearson UDF of part 1, on two rows of the
    same size whose ratings are not all equal, returns the Pearson
    correlation of the design: the cosine of the centred rows, a real
    number between -1 and 1, and the same in both orders of the two
    rows. *)
Theorem pearson_co_sym_bounded (xs ys : list R) :
  length xs = length ys ->
  Exists (fun a => a <> 0%R) (centred xs) ->
  Exists (fun b => b <> 0%R) (centred ys) ->
  Pearson.co_sym (Pearson.assemble (lift xs)) (Pearson.assemble (lift ys))
    = Ok (Fin (pearson xs ys))
  /\ Pearson.co_sym (Pearson.assemble (lift ys)) (Pearson.assemble (lift xs))
    = Ok (Fin (pearson xs ys))
  /\ (-1 <= pearson xs ys <= 1)%R.
Proof.
  intros Hlen Hcx Hcy.
  pose proof (@centred_zero_cell xs Hcx) as Hx.
  pose proof (@centred_zero_cell ys Hcy) as Hy.
  assert (Hclen : length (centred xs) = length (centred ys))
    by (unfold centred; rewrite !length_map; exact Hlen).
  destruct (cosine_bounds Hcx Hcy) as (Hden & Hrange & _).
  split; [|split; [|exact Hrange]].
  - rewrite (@pearson_co_sym_centred _ _ xs ys (elements_assemble _)
               (elements_assemble _) Hx Hy).
    rewrite (co_sym_lift _ _ Hclen). simpl.
    rewrite Req_bool_false by exact Hden. reflexivity.
  - rewrite (@pearson_co_sym_centred _ _ ys xs (elements_assemble _)
               (elements_assemble _) Hy Hx).
    rewrite (co_sym_lift _ _ (eq_sym Hclen)). simpl.
    rewrite Req_bool_false by (rewrite Rmult_comm; exact Hden).
    unfold pearson. rewrite (cosine_comm (centred xs)). reflexivity.
Qed.

(** The rows (1, 0, 3, 5) and (2, 4, 0, 3). *)
Lemma pearson_co_sym_bounded_witness :
  Pearson.co_sym (Pearson.assemble (lift [1; 0; 3; 5]%R))
                 (Pearson.assemble (lift [2; 4; 0; 3]%R))
    = Ok (Fin (pearson [1; 0; 3; 5]%R [2; 4; 0; 3]%R))
  /\ (-1 <= pearson [1; 0; 3; 5]%R [2; 4; 0; 3]%R <= 1)%R.
Proof.
  destruct (@pearson_co_sym_bounded [1; 0; 3; 5]%R [2; 4; 0; 3]%R)
    as (Hco & _ & Hrange).
  - reflexivity.
  - apply Exists_cons_hd. unfold centred, Rmean_nonzero. real_bools.
    unfold Rsum. simpl. lra.
  - apply Exists_cons_hd. unfold centred, Rmean_nonzero. real_bools.
    unfold Rsum. simpl. lra.
  - split; [exact Hco | exact Hrange].
Defined.

(** A row whose centred ratings are all 0 has norm 0: the cosine UDF
    divides 0 by 0. *)
Lemma co_sym_lift_zero (xs ys : list R) :
  length xs = length ys -> Rdot xs xs = 0%R ->
  co_sym (lift xs) (lift ys) = Ok NaN /\ co_sym (lift ys) (lift xs) = Ok NaN.
Proof.
  intros Hlen Hzero.
  assert (Hnorm : Rnorm2 xs = 0%R)
    by (unfold Rnorm2; rewrite Hzero; apply sqrt_0).
  pose proof (Rdot_self_zero xs ys Hzero) as Hdot.
  rewrite (co_sym_lift _ _ Hlen), (co_sym_lift _ _ (eq_sym Hlen)).
  rewrite (Rdot_comm ys xs), Hdot, Hnorm, Rmult_0_l, Rmult_0_r. simpl.
  rewrite Req_bool_true by reflexivity. split; reflexivity.
Qed.

Lemma Rsum_equal_ratings (xs : list R) (c : R) :
  Forall (fun a => a = 0 \/ a = c)%R xs ->
  Rsum xs = (INR (length (filter (fun x => negb (Req_bool x 0)) xs)) * c)%R.
Proof.
  induction 1 as [|x xs Hx _ IH]; [unfold Rsum; simpl; lra|].
  rewrite Rsum_cons, IH. cbn [filter].
  destruct (Req_bool_spec x 0) as [-> | Hx0]; cbn [negb]; [lra|].
  cbn [length]. rewrite S_INR. destruct Hx as [Hx | Hx]; [contradiction|].
  rewrite Hx. lra.
Qed.

Lemma centred_equal_ratings (xs : list R) (c : R) :
  Exists (fun a => a <> 0%R) xs ->
  Forall (fun a => a = 0 \/ a = c)%R xs ->
  centred xs = map (fun _ => 0%R) xs.
Proof.
  intros Hex Hall.
  assert (Hmean : Rmean_nonzero xs = c).
  { unfold Rmean_nonzero. rewrite (Rsum_equal_ratings Hall).
    pose proof (not_0_INR _ (count_nonzero_pos Hex)) as Hk. field. exact Hk. }
  unfold centred. rewrite Hmean. apply map_ext_in. intros x Hx.
  destruct (Req_bool_spec x 0) as [_ | Hx0]; [reflexivity|].
  destruct (proj1 (Forall_forall _ _) Hall x Hx) as [-> | ->]; lra.
Qed.

Lemma Rdot_zeros {A} (l : list A) :
  Rdot (map (fun _ => 0%R) l) (map (fun _ => 0%R) l) = 0%R.
Proof.
  induction l as [|a l IH]; [reflexivity|].
  simpl. rewrite Rdot_cons, IH. lra.
Qed.

(** X11: in exact arithmetic, a movie whose ratings are all equal, as is a
    movie with one rating, has a centred row of zeros, and the Pearson UDF
    of part 1 returns NaN (0 / 0) for it with every other row that holds a
    rating, in both orders; nothing is raised. *)
Theorem pearson_equal_ratings_nan (xs ys : list R) (c : R) :
  length xs = length ys ->
  Exists (fun a => a <> 0%R) xs ->
  Forall (fun a => a = 0 \/ a = c)%R xs ->
  Exists (fun b => b <> 0%R) ys ->
  Pearson.pearson_average (Pearson.assemble (lift xs))
    = Ok (lift (map (fun _ => 0%R) xs))
  /\ Pearson.co_sym (Pearson.assemble (lift xs)) (Pearson.assemble (lift ys))
     = Ok NaN
  /\ Pearson.co_sym (Pearson.assemble (lift ys)) (Pearson.assemble (lift xs))
     = Ok NaN.
Proof.
  intros Hlen Hx Hall Hy.
  pose proof (centred_equal_ratings Hx Hall) as Hcentred.
  assert (Hclen : length (centred xs) = length (centred ys))
    by (unfold centred; rewrite !length_map; exact Hlen).
  assert (Hzero : Rdot (centred xs) (centred xs) = 0%R)
    by (rewrite Hcentred; apply Rdot_zeros).
  destruct (co_sym_lift_zero _ _ Hclen Hzero) as [Hxy Hyx].
  split; [|split].
  - rewrite <- Hcentred.
    apply pearson_average_cells; [apply elements_assemble | exact Hx].
  - rewrite (@pearson_co_sym_centred _ _ xs ys (elements_assemble _)
               (elements_assemble _) Hx Hy). exact Hxy.
  - rewrite (@pearson_co_sym_centred _ _ ys xs (elements_assemble _)
               (elements_assemble _) Hy Hx). exact Hyx.
Qed.

(** A movie that one user out of three has rated, 4, against a movie that
    the three have rated. *)
Lemma pearson_equal_ratings_nan_witness :
  Pearson.co_sym (Pearson.assemble (lift [0; 4; 0]%R))
                 (Pearson.assemble (lift [3; 4; 5]%R)) = Ok NaN
  /\ Pearson.co_sym (Pearson.assemble (lift [3; 4; 5]%R))
                    (Pearson.assemble (lift [0; 4; 0]%R)) = Ok NaN.
Proof.
  destruct (@pearson_equal_ratings_nan [0; 4; 0]%R [3; 4; 5]%R 4%R)
    as (_ & Hxy & Hyx).
  - reflexivity.
  - apply Exists_cons_tl, Exists_cons_hd. lra.
  - repeat constructor; lra.
  - apply Exists_cons_hd. lra.
  - split; [exact Hxy | exact Hyx].
Defined.

(** ** A row of zeros in part 1 *)

Section ZeroRow.
Context {D : Type} `{Float64 D}.
Hypothesis zero_eq_zero : feqb (fzero : D) fzero = true.







End ZeroRow.



(** ** Recommendations for a sample user *)

Lemma distinct_by_incl {A} (eqb : A -> A -> bool) (l : list A) (a : A) :
  In a (distinct_by eqb l) -> In a l.
Proof.
  induction l as [|b l IH]; simpl; [tauto|].
  intros [<- | Hin]; [left; reflexivity|].
  apply filter_In in Hin as [Hin _]. right. apply IH, Hin.
Qed.

Lemma row_number_from_in {A} (l : list A) (k : Z) (a : A) (z : Z) :
  In (a, z) (row_number_from k l) -> In a l.
Proof.
  revert k. induction l as [|b l IH]; intros k; simpl; [tauto|].
  intros [Heq | Hin]; [left; congruence | right; exact (IH _ Hin)].
Qed.

(** Rows with different keys still have different keys once filtered. *)
Lemma NoDup_map_filter {K Row} (key : Row -> K) (keep : Row -> bool)
    (rows : list Row) (Hkeys : NoDup (map key rows)) :
  NoDup (map key (filter keep rows)).
Proof.
  induction rows as [|a rows IH]; simpl; [constructor|].
  apply NoDup_cons_iff in Hkeys as [Ha Hkeys]. specialize (IH Hkeys).
  destruct (keep a); simpl; [|exact IH].
  constructor; [|exact IH]. intros Hin. apply Ha.
  apply in_map_iff in Hin as (b & Hb & Hin). apply filter_In in Hin as [Hin _].
  rewrite <- Hb. apply in_map, Hin.
Qed.

Lemma movie_key_eqb_eq (a b : option Z) : movie_key_eqb a b = true <-> a = b.
Proof.
  destruct a as [x|], b as [y|]; simpl; try (split; congruence).
  rewrite Z.eqb_eq. split; congruence.
Qed.

Section Recommend.
Context {D : Type} `{Float64 D}.

Lemma top_candidates_in (nValue : Z) (rows : list (CandidateRow D))
    (c : CandidateRow D) :
  In c (top_candidates nValue rows) -> In c rows.
Proof.
  unfold top_candidates. intros Hc.
  apply in_map_iff in Hc as ([c' z] & <- & Hc). simpl.
  apply filter_In in Hc as [Hc _]. apply in_flat_map in Hc as (k & _ & Hc).
  apply row_number_from_in, sort_by_in, filter_In in Hc. tauto.
Qed.

Lemma join_on_movieId_in (tst : list (Rating D)) (sm_alias : list (PairRow D))
    (c : CandidateRow D) :
  In c (join_on_movieId tst sm_alias) <->
  In (cand_tst c) tst
  /\ In (mkPairRow (movieId (cand_tst c)) (cand_similar c)) sm_alias.
Proof.
  unfold join_on_movieId. rewrite in_flat_map. split.
  - intros (t & Ht & Hc). apply in_flat_map in Hc as (p & Hp & Hc).
    destruct (Z.eqb_spec (movieId t) (movieId2 p)) as [Heq|]; [|destruct Hc].
    destruct Hc as [<- | []]. simpl. rewrite Heq. destruct p. auto.
  - intros [Ht Hp]. exists (cand_tst c). split; [exact Ht|].
    apply in_flat_map. eexists. split; [exact Hp|]. simpl.
    rewrite Z.eqb_refl. left. destruct c. reflexivity.
Qed.

Lemma group_by_movieId_1_in (weighted : list (CandidateRow D))
    (r : Recommendation D) :
  In r (group_by_movieId_1 weighted) <->
  (exists c, In c weighted /\ movieId_1 (cand_similar c) = rec_movieId_1 r)
  /\ rec_predicted_rating r
     = recommend_group
         (filter (fun c => movie_key_eqb (movieId_1 (cand_similar c))
                                         (rec_movieId_1 r))
                 weighted).
Proof.
  unfold group_by_movieId_1. rewrite in_map_iff. split.
  - intros (k & <- & Hk). simpl. split; [|reflexivity].
    apply (distinct_by_in _ movie_key_eqb_eq), in_map_iff in Hk
      as (c & Hc & Hin).
    exists c. auto.
  - intros [(c & Hc & Hk) Hp]. exists (rec_movieId_1 r). split.
    + destruct r as [k p]. simpl in *. rewrite Hp. reflexivity.
    + apply (distinct_by_in _ movie_key_eqb_eq), in_map_iff. exists c. auto.
Qed.

Lemma left_anti_in (result_df : list (Recommendation D))
    (userRatingsDf : list (Rating D)) (r : Recommendation D) :
  In r (left_anti result_df userRatingsDf) <->
  In r result_df
  /\ forall m, rec_movieId_1 r = Some m ->
       ~ In m (map (@movieId D) userRatingsDf).
Proof.
  unfold left_anti. rewrite filter_In. apply and_iff_compat_l.
  rewrite negb_true_iff. split.
  - intros Hnone m Hm Hin. apply in_map_iff in Hin as (t & Ht & Hin).
    assert (Hex : existsb (fun t => match rec_movieId_1 r with
                                    | Some m1 => (m1 =? movieId t)%Z
                                                 && (userId t =? userId t)%Z
                                    | None => false
                                    end) userRatingsDf = true).
    { apply existsb_exists. exists t. split; [exact Hin|].
      rewrite Hm, Ht, !Z.eqb_refl. reflexivity. }
    congruence.
  - intros Hnot. destruct (existsb _ userRatingsDf) eqn:Hex; [|reflexivity].
    apply existsb_exists in Hex as (t & Ht & Hex).
    destruct (rec_movieId_1 r) as [m1|]; [|discriminate Hex].
    apply andb_prop in Hex as [Hm _]. apply Z.eqb_eq in Hm.
    destruct (Hnot m1 eq_refl). rewrite Hm. apply in_map, Ht.
Qed.

End Recommend.

(** X13: the recommendations that part 2 computes for a sample user name
    every movie at most once, never a movie that the user has rated, and
    only movies that the user-movie-rating matrix holds as [movieId_1] of a
    movie that the user has rated. *)
Theorem recommend_new_movies (D : Type) (F : Float64 D) (nValue : Z)
    (userRatingsDf : list (Rating D)) (smDF : list (SmRow D)) :
  let recs := recommend nValue userRatingsDf smDF in
  NoDup (map (@rec_movieId_1 D) recs)
  /\ forall r m, In r recs -> rec_movieId_1 r = Some m ->
       ~ In m (map (@movieId D) userRatingsDf)
       /\ exists t s v,
            In t userRatingsDf /\ In s smDF
            /\ sm_movieId s = movieId t /\ sm_similar s = Some (m, v).
Proof.
  intros recs. unfold recs, recommend. split.
  - eapply Permutation_NoDup.
    + apply Permutation_map, Permutation_sym, sort_by_perm.
    + unfold left_anti. apply NoDup_map_filter.
      unfold group_by_movieId_1. rewrite map_map. simpl. rewrite map_id.
      apply distinct_by_nodup, movie_key_eqb_eq.
  - intros r m Hr Hm. apply sort_by_in, left_anti_in in Hr as [Hr Hnew].
    split; [exact (Hnew m Hm)|].
    apply group_by_movieId_1_in in Hr as [(c & Hc & Hk) _].
    apply top_candidates_in, join_on_movieId_in in Hc as [Ht Hp].
    apply distinct_by_incl in Hp. unfold drop_userId_rating in Hp.
    apply in_map_iff in Hp as (s & Hs & Hin).
    injection Hs as Hmovie Hsim. rewrite Hm in Hk. unfold movieId_1 in Hk.
    destruct (cand_similar c) as [[m' v]|] eqn:Hcs; [|discriminate Hk].
    simpl in Hk. injection Hk as ->.
    exists (cand_tst c), s, v. auto.
Qed.

(** The sums of a group of candidates whose ratings lie in [0, hi] and whose
    similarities are not negative. *)
Lemma candidate_sums (g : list (CandidateRow xreal)) (hi : R) :
  (forall c, In c g ->
     exists r : R, rating (cand_tst c) = Fin r /\ (0 <= r <= hi)%R) ->
  (forall c t v, In c g -> cand_similar c = Some (t, v) ->
     exists x : R, v = Fin x /\ (0 <= x)%R) ->
  exists ws ss : list R,
    flat_map (fun o : option xreal => match o with
                                      | Some x => [x]
                                      | None => []
                                      end) (map weighted_rating g) = lift ws
    /\ flat_map (fun o : option xreal => match o with
                                         | Some x => [x]
                                         | None => []
                                         end)
         (map (fun c => similarity_of (cand_similar c)) g) = lift ss
    /\ length ws = length ss
    /\ (0 <= Rsum ss)%R /\ (0 <= Rsum ws <= hi * Rsum ss)%R.
Proof.
  induction g as [|c g IH]; intros Hr Hs.
  - exists [], []. repeat split; try reflexivity; unfold Rsum; simpl; lra.
  - destruct IH as (ws & ss & Hws & Hss & Hlen & Hs0 & Hw).
    { intros c' Hc'. apply Hr. right. exact Hc'. }
    { intros c' t v Hc'. apply Hs. right. exact Hc'. }
    destruct (Hr c (or_introl eq_refl)) as (r & Hrc & Hr0).
    destruct (cand_similar c) as [[t v]|] eqn:Hsim.
    + destruct (Hs c t v (or_introl eq_refl) Hsim) as (x & -> & Hx).
      exists ((r * x)%R :: ws), (x :: ss).
      cbn [map flat_map]. unfold weighted_rating at 1. rewrite Hsim, Hrc.
      cbn [similarity_of option_map snd app]. rewrite Hws, Hss.
      rewrite !Rsum_cons. repeat split; try reflexivity; simpl; try nra.
      f_equal. exact Hlen.
    + exists ws, ss. cbn [map flat_map]. unfold weighted_rating at 1.
      rewrite Hsim. cbn [similarity_of option_map app]. rewrite Hws, Hss.
      repeat split; try reflexivity; try lra. exact Hlen.
Qed.

Lemma recommend_group_range (g : list (CandidateRow xreal)) (hi : R) :
  (0 <= hi)%R ->
  (forall c, In c g ->
     exists r : R, rating (cand_tst c) = Fin r /\ (0 <= r <= hi)%R) ->
  (forall c t v, In c g -> cand_similar c = Some (t, v) ->
     exists x : R, v = Fin x /\ (0 <= x)%R) ->
  exists p : R, recommend_group g = Fin p /\ (0 <= p <= hi)%R.
Proof.
  intros Hhi Hr Hs.
  destruct (candidate_sums g Hr Hs) as (ws & ss & Hws & Hss & Hlen & Hs0 & Hw).
  unfold recommend_group, sum_non_null. rewrite Hws, Hss, !spark_sum_lift.
  destruct ws as [|w ws], ss as [|x ss]; try discriminate Hlen.
  - exists 0%R. split; [reflexivity | lra].
  - cbn [spark_div]. change (feqb (Fin (Rsum (x :: ss))) fzero)
      with (Req_bool (Rsum (x :: ss)) 0).
    destruct (Req_bool_spec (Rsum (x :: ss)) 0) as [_ | Hne].
    + exists 0%R. split; [reflexivity | lra].
    + exists (Rsum (w :: ws) / Rsum (x :: ss))%R. split.
      * simpl. rewrite Req_bool_false by exact Hne. reflexivity.
      * assert (Hpos : (0 < Rsum (x :: ss))%R) by lra. split.
        -- apply Rmult_le_reg_r with (Rsum (x :: ss)); [exact Hpos|].
           unfold Rdiv. rewrite Rmult_assoc, Rinv_l by exact Hne. lra.
        -- apply Rmult_le_reg_r with (Rsum (x :: ss)); [exact Hpos|].
           unfold Rdiv. rewrite Rmult_assoc, Rinv_l by exact Hne. lra.
Qed.

(** X14: in exact arithmetic, when the ratings of the sample user are real
    numbers in [0, hi] and the similarities of the user-movie-rating matrix
    are real numbers that are not negative, the recommendations of part 2
    come sorted by predicted rating, highest first, and every predicted
    rating is a real number in [0, hi]: no prediction exceeds the highest
    rating that the user has given. *)
Theorem recommend_sorted_in_range (nValue : Z)
    (userRatingsDf : list (Rating xreal)) (smDF : list (SmRow xreal))
    (hi : R) :
  (forall t, In t userRatingsDf ->
     exists r : R, rating t = Fin r /\ (0 <= r <= hi)%R) ->
  (forall s t v, In s smDF -> sm_similar s = Some (t, v) ->
     exists x : R, v = Fin x /\ (0 <= x)%R) ->
  let recs := recommend nValue userRatingsDf smDF in
  StronglySorted
    (fun a b =>
       spark_leb (rec_predicted_rating b) (rec_predicted_rating a) = true)
    recs
  /\ forall r, In r recs ->
       exists p : R, rec_predicted_rating r = Fin p /\ (0 <= p <= hi)%R.
Proof.
  intros Hr Hs recs. unfold recs, recommend. split.
  - apply (sort_by_sorted
             (fun a b : Recommendation xreal =>
                spark_leb (rec_predicted_rating b) (rec_predicted_rating a))).
    + intros a b. apply xspark_leb_total.
    + intros a b c Hab Hbc. exact (xspark_leb_trans _ _ _ Hbc Hab).
  - intros r Hin. apply sort_by_in, left_anti_in in Hin as [Hin _].
    apply group_by_movieId_1_in in Hin as [(c0 & Hc0 & _) ->].
    assert (Hcand : forall c,
              In c (top_candidates nValue
                      (join_on_movieId userRatingsDf
                         (dropDuplicates (drop_userId_rating smDF)))) ->
              In (cand_tst c) userRatingsDf
              /\ exists s, In s smDF /\ sm_similar s = cand_similar c).
    { intros c Hc.
      apply top_candidates_in, join_on_movieId_in in Hc as [Ht Hp].
      split; [exact Ht|]. apply distinct_by_incl in Hp.
      apply in_map_iff in Hp as (s & Heq & Hs'). exists s.
      split; [exact Hs'|]. injection Heq as _ Hsim. exact Hsim. }
    apply recommend_group_range.
    + destruct (Hcand c0 Hc0) as [Ht _]. destruct (Hr _ Ht) as (r0 & _ & H0).
      lra.
    + intros c Hc. apply filter_In in Hc as [Hc _].
      apply Hr. exact (proj1 (Hcand c Hc)).
    + intros c t v Hc Hsim. apply filter_In in Hc as [Hc _].
      destruct (Hcand c Hc) as [_ (s & Hs' & Heq)].
      apply (Hs s t v Hs'). congruence.
Qed.

(** A user who has rated movie 10 with 4 and movie 40 with 2: movie 30 is
    recommended before movie 50. *)
Lemma recommend_sorted_in_range_witness :
  StronglySorted
    (fun a b =>
       spark_leb (rec_predicted_rating b) (rec_predicted_rating a) = true)
    (recommend 2 user7_ratings sm_three_ratings)
  /\ forall r, In r (recommend 2 user7_ratings sm_three_ratings) ->
       exists p : R, rec_predicted_rating r = Fin p /\ (0 <= p <= 5)%R.
Proof.
  apply (@recommend_sorted_in_range 2 user7_ratings sm_three_ratings 5%R).
  - intros t Ht. simpl in Ht.
    repeat (destruct Ht as [<- | Ht];
            [eexists; split; [reflexivity | simpl; lra]|]).
    destruct Ht.
  - intros s t v Hs Hsim. simpl in Hs.
    repeat (destruct Hs as [<- | Hs];
            [injection Hsim as <- <-; eexists; split; [reflexivity | lra]|]).
    destruct Hs.
Defined.

(** ** Part 1 on the ratings of the slides *)

(** On the utility matrix of the slides the model of part 1 returns, for
    user 5 and movie 1, the very double that the notebook prints:
    2.5864068884261053. The two movies most similar to movie 1 among those
    that user 5 has rated are the movies 6 and 3. *)
Example predict_slides :
  Pearson.predict 5 1 ratings_tiny = Ok (Some 2.5864068884261053%float)
  /\ (exists smDF,
        Pearson.data_modeling ratings_tiny = Ok smDF
        /\ map (fun r => (sm_movieId (fst r), snd r))
               (top2 (user_ratings 5 1 smDF))
           = [(6%Z, 0.5870395085642741%float);
              (3%Z, 0.41403933560541256%float)]).
Proof.
  split; [vm_compute; reflexivity|].
  eexists. split; [vm_compute; reflexivity|]. vm_compute. reflexivity.
Qed.

(** ** A NaN similarity *)

Lemma xadd_nan_r (x : xreal) : xadd x NaN = NaN.
Proof. destruct x; reflexivity. Qed.

Lemma xmul_nan_r (x : xreal) : xmul x NaN = NaN.
Proof. destruct x; reflexivity. Qed.

Lemma fold_right_xadd_nan (l : list xreal) :
  In NaN l -> fold_right xadd (Fin 0) l = NaN.
Proof.
  induction l as [|x l IH]; [intros []|]. simpl.
  intros [-> | Hin]; [reflexivity|]. rewrite (IH Hin). apply xadd_nan_r.
Qed.

Lemma fsum_nan (l : list xreal) : In NaN l -> fsum l = NaN.
Proof.
  intros Hin. unfold fsum. simpl fadd. simpl fzero.
  rewrite fold_left_xadd, (fold_right_xadd_nan _ Hin). reflexivity.
Qed.

Lemma spark_sum_nan (l : list xreal) : In NaN l -> spark_sum l = Some NaN.
Proof.
  destruct l as [|x l]; [intros []|]. simpl. intros Hin. f_equal.
  rewrite fold_left_xadd. destruct Hin as [-> | Hin]; [reflexivity|].
  rewrite (fold_right_xadd_nan _ Hin). apply xadd_nan_r.
Qed.

Lemma spark_leb_nan_l (y : xreal) : spark_leb NaN y = true -> y = NaN.
Proof. destruct y; simpl; intros Hy; try discriminate Hy. reflexivity. Qed.

(** In Spark's descending order a NaN comes first. *)
Lemma sort_desc_head_nan {A} (sim : A -> xreal) (rows : list A) (a : A) :
  In a rows -> sim a = NaN ->
  exists h tl,
    sort_by (fun x y => spark_leb (sim y) (sim x)) rows = h :: tl
    /\ sim h = NaN.
Proof.
  intros Hin Ha.
  pose proof (sort_by_sorted (fun x y => spark_leb (sim y) (sim x))) as Hsorted.
  specialize (Hsorted (fun x y => xspark_leb_total (sim y) (sim x))).
  specialize (Hsorted (fun x y z Hxy Hyz =>
                         xspark_leb_trans (sim z) (sim y) (sim x) Hyz Hxy)).
  specialize (Hsorted rows).
  apply (sort_by_in (fun x y => spark_leb (sim y) (sim x))) in Hin.
  destruct (sort_by _ rows) as [|h tl]; [destruct Hin|].
  exists h, tl. split; [reflexivity|]. destruct Hin as [-> | Hin]; [exact Ha|].
  apply StronglySorted_inv in Hsorted as [_ Hall].
  pose proof (proj1 (Forall_forall _ _) Hall a Hin) as Hle. simpl in Hle.
  rewrite Ha in Hle. apply spark_leb_nan_l, Hle.
Qed.

Lemma evaluate_rmse_nan (rows : list (ResultRow xreal)) (row : ResultRow xreal) :
  In row rows -> predicted_rating row = NaN -> evaluate_rmse rows = NaN.
Proof.
  intros Hin Hnan. unfold evaluate_rmse.
  rewrite fsum_nan; [reflexivity|].
  apply in_map_iff. exists NaN. split; [reflexivity|].
  apply in_map_iff. exists row. split; [|exact Hin].
  rewrite Hnan. simpl. apply xadd_nan_r.
Qed.

(** X15: in exact arithmetic with the IEEE special values, one NaN
    similarity among the candidates of a test row poisons the evaluation of
    part 2. For N >= 1 the descending order of the window ranks a NaN
    first, so the row is kept; both sums of its group are NaN, their
    quotient is NaN, which [coalesce] keeps since it is not null; and the
    RMSE over the predictions is then NaN. *)
Theorem nan_similarity_poisons_rmse (nValue : Z) (test : list (Rating xreal))
    (sm_alias : list (SmRow xreal)) (j : JoinedRow xreal) :
  (1 <= nValue)%Z ->
  In j (join_tst_sm test sm_alias) ->
  similarity j = NaN ->
  (exists row,
     In row (data_prediction nValue test sm_alias)
     /\ res_userId row = userId (tst j) /\ res_movieId row = movieId (tst j)
     /\ predicted_rating row = NaN)
  /\ evaluate_rmse (data_prediction nValue test sm_alias) = NaN.
Proof.
  intros HN Hj Hnan.
  set (u := userId (tst j)). set (t := movieId (tst j)).
  assert (Hc : In j (candidates test sm_alias u t))
    by (apply window_partition_key; split; [exact Hj | reflexivity]).
  destruct (sort_desc_head_nan (@similarity xreal) _ j Hc Hnan)
    as (h & tl & Hsort & Hh).
  assert (Hns : In h (neighbour_set nValue test sm_alias u t)).
  { rewrite neighbour_set_top_n. unfold similarity_desc. rewrite Hsort.
    replace (Z.to_nat nValue) with (S (Z.to_nat (nValue - 1))) by lia.
    left. reflexivity. }
  apply window_partition_key in Hns as [Hjoined Hkey].
  set (weighted := weighted_df (joined_df nValue test sm_alias)).
  set (w := (h, fmul (sm_rating (sm h)) (similarity h))).
  assert (Hw : In w weighted) by (apply in_map_iff; exists h; auto).
  assert (Hg : In w (group_rows weighted (group_key w)))
    by (apply group_rows_in; auto).
  assert (Hrow : exists row,
            In row (data_prediction nValue test sm_alias)
            /\ res_userId row = u /\ res_movieId row = t
            /\ predicted_rating row = NaN).
  { eexists. split; [|split; [|split]].
    - apply result_df_in. exists w. split; [exact Hw | reflexivity].
    - simpl. injection Hkey as Hu _. exact Hu.
    - simpl. injection Hkey as _ Ht. exact Ht.
    - simpl. unfold predict_group.
      rewrite (@spark_sum_nan (map snd _)), (@spark_sum_nan (map _ _)).
      + reflexivity.
      + apply in_map_iff. exists w. split; [exact Hh | exact Hg].
      + apply in_map_iff. exists w. split; [|exact Hg].
        simpl. rewrite Hh. apply xmul_nan_r. }
  split; [exact Hrow|]. destruct Hrow as (row & Hin & _ & _ & Hp).
  exact (evaluate_rmse_nan _ _ Hin Hp).
Qed.

(** User 1 asks for movie 30, to which the similarity of movie 10, which
    they have rated, is NaN. *)
Lemma nan_similarity_poisons_rmse_witness :
  (exists row,
     In row (data_prediction 2 test_user1_movie30_exact sm_nan_similarity)
     /\ res_userId row = 1%Z /\ res_movieId row = 30%Z
     /\ predicted_rating row = NaN)
  /\ evaluate_rmse (data_prediction 2 test_user1_movie30_exact
                      sm_nan_similarity) = NaN.
Proof.
  apply (@nan_similarity_poisons_rmse 2 test_user1_movie30_exact
           sm_nan_similarity
           (mkJoinedRow (mkRating 1 30 (Fin 5))
              (mkSmRow 1 10 (Fin 3) (Some (30%Z, NaN))) NaN)).
  - lia.
  - simpl. left. reflexivity.
  - reflexivity.
Defined.

Lemma top2_head_nan (rows : list (SmRow xreal * xreal)) (s : SmRow xreal) :
  In (s, NaN) rows -> exists s' tl, top2 rows = (s', NaN) :: tl.
Proof.
  intros Hin.
  destruct (sort_desc_head_nan (@snd (SmRow xreal) xreal) _ (s, NaN) Hin eq_refl)
    as ([s' v] & tl & Hsort & Hh).
  simpl in Hh. subst v. unfold top2. rewrite Hsort.
  exists s', (firstn 1 tl). reflexivity.
Qed.

Lemma predict_user_rating_top_nan (user_id movie_id : Z)
    (smDF : list (SmRow xreal)) (s : SmRow xreal)
    (tl : list (SmRow xreal * xreal)) :
  top2 (user_ratings user_id movie_id smDF) = (s, NaN) :: tl ->
  predict_user_rating user_id movie_id smDF = Ok (Some NaN).
Proof.
  intros Htop. unfold predict_user_rating. rewrite Htop.
  cbn [map fst snd].
  rewrite (@spark_sum_nan (NaN :: _)) by (left; reflexivity).
  rewrite (@spark_sum_nan (_ :: _)).
  - reflexivity.
  - left. simpl. apply xmul_nan_r.
Qed.

(** X16: in exact arithmetic with the IEEE special values, when one of the
    rows of the user for the movie asked for holds a NaN similarity,
    [predict_user_rating] of part 1 returns NaN: the descending sort puts
    the NaN first, both sums are NaN, NaN differs from 0, and the quotient
    is NaN. *)
Theorem predict_user_rating_nan (user_id movie_id : Z)
    (smDF : list (SmRow xreal)) (s : SmRow xreal) :
  In s smDF ->
  sm_userId s = user_id ->
  sm_similar s = Some (movie_id, NaN) ->
  predict_user_rating user_id movie_id smDF = Ok (Some NaN).
Proof.
  intros Hs Hu Hsim.
  assert (Hin : In (s, NaN) (user_ratings user_id movie_id smDF))
    by (apply user_ratings_in; auto).
  destruct (top2_head_nan _ _ Hin) as (s' & tl & Htop).
  exact (predict_user_rating_top_nan _ _ _ Htop).
Qed.

(** User 1 asks for movie 30. *)
Lemma predict_user_rating_nan_witness :
  predict_user_rating 1 30 sm_nan_similarity = Ok (Some NaN).
Proof.
  apply (@predict_user_rating_nan 1 30 sm_nan_similarity
           (mkSmRow 1 10 (Fin 3) (Some (30%Z, NaN)))).
  - left. reflexivity.
  - reflexivity.
  - reflexivity.
Defined.

(** ** A movie with equal ratings in part 1 *)

Section PearsonPipeline.
Variable training : list (Rating xreal).
Hypothesis within_limit :
  (Z.of_nat (length (pivot_values training)) <= pivotMaxValues)%Z.
Hypothesis ratings_positive :
  forall r, In r training -> exists x : R, rating r = Fin x /\ (0 < x <= 5)%R.

(** The real numbers in the row of a movie. *)
Let cells (m : Z) : list R :=
  map (fun u => to_R (fillna0 (first_rating training m u)))
      (pivot_values training).

Lemma cell_real (m u : Z) :
  fillna0 (first_rating training m u)
  = Fin (to_R (fillna0 (first_rating training m u))).
Proof.
  destruct (first_rating training m u) as [x|] eqn:Hf; [|reflexivity].
  apply first_rating_some in Hf. destruct (ratings_positive _ Hf) as (y & Hy & _).
  simpl in Hy. subst x. reflexivity.
Qed.

Lemma cells_lift (m : Z) :
  map (fun u => fillna0 (first_rating training m u)) (pivot_values training)
  = lift (cells m).
Proof.
  unfold cells, lift. rewrite map_map. apply map_ext. intros u.
  apply cell_real.
Qed.

Lemma cells_rated (m : Z) :
  has_movie training m = true -> Exists (fun x => x <> 0%R) (cells m).
Proof.
  intros Hm. apply has_movie_true in Hm as (r & Hr & Hm).
  apply Exists_exists.
  exists (to_R (fillna0 (first_rating training m (userId r)))). split.
  - unfold cells. apply in_map_iff. exists (userId r). split; [reflexivity|].
    apply pivot_values_in, in_map, Hr.
  - destruct (first_rating training m (userId r)) as [x|] eqn:Hf.
    + apply first_rating_some in Hf.
      destruct (ratings_positive _ Hf) as (y & Hy & Hy0). simpl in Hy.
      subst x. simpl. lra.
    + exfalso.
      eapply first_rating_none; [exact Hf | exact Hr | exact Hm | reflexivity].
Qed.

Lemma cells_equal (m : Z) (c : R) :
  (forall r, In r training -> movieId r = m -> rating r = Fin c) ->
  Forall (fun x => x = 0 \/ x = c)%R (cells m).
Proof.
  intros Hc. apply Forall_forall. intros x Hx.
  apply in_map_iff in Hx as (u & <- & _).
  destruct (first_rating training m u) as [y|] eqn:Hf; [|left; reflexivity].
  apply first_rating_some in Hf. pose proof (Hc _ Hf eq_refl) as Hy.
  simpl in Hy. subst y. right. reflexivity.
Qed.

Lemma pearson_df_vector_ok :
  Pearson.df_vector training
  = Ok (map (fun m => (m, Pearson.assemble (lift (cells m))))
            (distinct_by Z.eqb (map (@movieId xreal) training))).
Proof.
  unfold Pearson.df_vector, pivot.
  destruct (Z.gtb_spec (Z.of_nat (length (pivot_values training)))
              pivotMaxValues) as [Hgt | _]; [lia|].
  simpl. rewrite map_map. simpl.
  destruct (existsb _ _) eqn:Hex.
  - apply existsb_exists in Hex as (a & Ha & Hex).
    apply in_map_iff in Ha as (m & <- & _). simpl in Hex.
    apply existsb_exists in Hex as (x & Hx & Hnan).
    apply in_map_iff in Hx as (u & <- & _).
    rewrite cell_real in Hnan. discriminate Hnan.
  - f_equal. apply map_ext. intros m. rewrite cells_lift. reflexivity.
Qed.

(** The Pearson UDF raises nothing on two rows of the matrix. *)
Lemma pearson_co_sym_rows (m t : Z) :
  has_movie training m = true -> has_movie training t = true ->
  Pearson.co_sym (Pearson.assemble (lift (cells m)))
                 (Pearson.assemble (lift (cells t)))
  = co_sym (lift (centred (cells m))) (lift (centred (cells t)))
  /\ exists s,
       co_sym (lift (centred (cells m))) (lift (centred (cells t))) = Ok s.
Proof.
  intros Hm Ht. split.
  - apply pearson_co_sym_centred;
      try apply elements_assemble; apply cells_rated; assumption.
  - apply co_sym_ok. unfold lift, centred, cells. rewrite !length_map.
    reflexivity.
Qed.

Lemma pearson_similarity_matrix_ok :
  exists sims,
    (dfv <- Pearson.df_vector training ;; Pearson.similarity_matrix dfv)
    = Ok sims
    /\ forall m t s,
         In (mkSimRow m t s) sims <->
         m <> t /\ has_movie training m = true /\ has_movie training t = true
         /\ co_sym (lift (centred (cells m))) (lift (centred (cells t))) = Ok s.
Proof.
  rewrite pearson_df_vector_ok. simpl.
  set (movies := distinct_by Z.eqb (map (@movieId xreal) training)).
  assert (Hmovies : forall m, In m movies <-> has_movie training m = true).
  { intros m. unfold movies. rewrite (distinct_by_in _ Z.eqb_eq).
    rewrite has_movie_true, in_map_iff.
    split; intros (r & H1 & H2); exists r; auto. }
  set (dfv := map (fun m => (m, Pearson.assemble (lift (cells m)))) movies).
  assert (Hdfv : forall a, In a dfv <->
            has_movie training (fst a) = true
            /\ snd a = Pearson.assemble (lift (cells (fst a)))).
  { intros [m v]. unfold dfv. rewrite in_map_iff. simpl. split.
    - intros (m' & Heq & Hm'). injection Heq as -> <-.
      split; [apply Hmovies, Hm' | reflexivity].
    - intros [Hm ->]. exists m. split; [reflexivity | apply Hmovies, Hm]. }
  destruct (mapM_ok
    (fun ab : (Z * Vector xreal) * (Z * Vector xreal) =>
       s <- Pearson.co_sym (snd (fst ab)) (snd (snd ab)) ;;
       Ok (mkSimRow (fst (fst ab)) (fst (snd ab)) s))
    (filter (fun ab => negb (fst (fst ab) =? fst (snd ab))%Z)
            (list_prod dfv dfv))) as [sims Hsims].
  { intros [a b] Hab. apply filter_In in Hab as [Hab _].
    apply in_prod_iff in Hab as [Ha Hb].
    apply Hdfv in Ha as [Hma Hva], Hb as [Hmb Hvb]. simpl.
    rewrite Hva, Hvb.
    destruct (pearson_co_sym_rows (fst a) (fst b) Hma Hmb) as [-> (s & ->)].
    simpl. eexists. reflexivity. }
  exists sims. split; [exact Hsims|]. intros m t s.
  rewrite (mapM_Ok_in _ _ Hsims). split.
  - intros ([a b] & Hab & Hrow). apply filter_In in Hab as [Hab Hne].
    apply in_prod_iff in Hab as [Ha Hb].
    apply Hdfv in Ha as [Hma Hva], Hb as [Hmb Hvb]. simpl in *.
    rewrite Hva, Hvb in Hrow.
    destruct (pearson_co_sym_rows (fst a) (fst b) Hma Hmb)
      as [Heq (s' & Hs')].
    rewrite Heq, Hs' in Hrow. simpl in Hrow. injection Hrow as <- <- <-.
    apply negb_true_iff, Z.eqb_neq in Hne. auto.
  - intros (Hne & Hm & Ht & Hco).
    exists ((m, Pearson.assemble (lift (cells m))),
            (t, Pearson.assemble (lift (cells t)))). split.
    + apply filter_In. split.
      * apply in_prod_iff. split; apply Hdfv; simpl; auto.
      * simpl. apply negb_true_iff, Z.eqb_neq, Hne.
    + simpl. rewrite (proj1 (pearson_co_sym_rows m t Hm Ht)), Hco.
      reflexivity.
Qed.

End PearsonPipeline.

(** X17: in exact arithmetic, on a dataset within the pivot limit whose
    ratings are real numbers in (0, 5], part 1 predicts NaN for a user as
    soon as they have rated a movie whose ratings are all equal, as is a
    movie that only they have rated: whatever other movie of the dataset is
    asked for, the Pearson similarity of that movie to it is NaN, it is
    sorted first, and the prediction is NaN. Nothing is raised. *)
Theorem pearson_equal_ratings_poison_predictions
    (training : list (Rating xreal)) (r : Rating xreal) (t : Z) (c : R) :
  (Z.of_nat (length (pivot_values training)) <= pivotMaxValues)%Z ->
  (forall r, In r training ->
     exists x : R, rating r = Fin x /\ (0 < x <= 5)%R) ->
  In r training ->
  (forall r', In r' training -> movieId r' = movieId r -> rating r' = Fin c) ->
  has_movie training t = true ->
  t <> movieId r ->
  Pearson.predict (userId r) t training = Ok (Some NaN).
Proof.
  intros Hmax Hpos Hr Hequal Ht Hne.
  destruct (@pearson_similarity_matrix_ok training Hmax Hpos)
    as (sims & Hsims & Hin).
  assert (Hm : has_movie training (movieId r) = true)
    by (apply has_movie_true; exists r; auto).
  assert (Hnan : In (mkSimRow (movieId r) t NaN) sims).
  { apply Hin. split; [congruence|]. split; [exact Hm|]. split; [exact Ht|].
    refine (proj1 (co_sym_lift_zero _ _ _ _)).
    - unfold centred. rewrite !length_map. reflexivity.
    - rewrite (centred_equal_ratings
                 (@cells_rated training Hpos (movieId r) Hm)
                 (@cells_equal training (movieId r) c Hequal)).
      apply Rdot_zeros. }
  unfold Pearson.predict, Pearson.data_modeling.
  destruct (Pearson.df_vector training) as [dfv|]; [|discriminate Hsims].
  simpl in Hsims. simpl. rewrite Hsims. simpl.
  set (smDF := df_user_movie_rating training sims).
  assert (Hrow : In (mkSmRow (userId r) (movieId r) (rating r)
                       (Some (t, NaN)), NaN)
                    (user_ratings (userId r) t smDF)).
  { apply user_ratings_in. split; [|split; reflexivity].
    apply (proj2 (df_user_movie_rating_in training sims _ t NaN)).
    exists r. auto. }
  destruct (top2_head_nan _ _ Hrow) as (s' & tl & Htop).
  exact (predict_user_rating_top_nan _ _ _ Htop).
Qed.

(** User 1 has rated movie 10 only, which nobody else has rated, and asks
    for movie 30. *)
Lemma pearson_equal_ratings_poison_predictions_witness :
  Pearson.predict 1 30 training_two_ratings = Ok (Some NaN).
Proof.
  apply (@pearson_equal_ratings_poison_predictions training_two_ratings
           (mkRating 1 10 (Fin 3)) 30 3%R).
  - vm_compute. intros Hgt. discriminate Hgt.
  - intros r Hr. simpl in Hr.
    repeat (destruct Hr as [<- | Hr];
            [eexists; split; [reflexivity | simpl; lra]|]).
    destruct Hr.
  - left. reflexivity.
  - intros r' Hr' Hm. simpl in Hr'.
    destruct Hr' as [<- | [<- | []]]; [reflexivity | discriminate Hm].
  - reflexivity.
  - simpl. lia.
Defined.

(** ** Predicting row by row *)

Lemma distinct_by_app_disjoint {A} (eqb : A -> A -> bool) (l1 l2 : list A) :
  (forall a b, In a l1 -> In b l2 -> eqb a b = false) ->
  distinct_by eqb (l1 ++ l2) = distinct_by eqb l1 ++ distinct_by eqb l2.
Proof.
  induction l1 as [|a l1 IH]; intros Hdis; [reflexivity|].
  simpl. rewrite IH by (intros x y Hx; apply Hdis; right; exact Hx).
  rewrite filter_app. f_equal. f_equal. apply filter_all. intros b Hb.
  apply distinct_by_incl in Hb.
  rewrite (Hdis a b (or_introl eq_refl) Hb). reflexivity.
Qed.

Lemma flat_map_ext_on {A B} (f g : A -> list B) (l : list A) :
  (forall a, In a l -> f a = g a) -> flat_map f l = flat_map g l.
Proof.
  induction l as [|a l IH]; intros Hfg; [reflexivity|].
  simpl. rewrite (Hfg a (or_introl eq_refl)), IH; [reflexivity|].
  intros b Hb. apply Hfg. right. exact Hb.
Qed.

Lemma map_ext_on {A B} (f g : A -> B) (l : list A) :
  (forall a, In a l -> f a = g a) -> map f l = map g l.
Proof.
  induction l as [|a l IH]; intros Hfg; [reflexivity|].
  simpl. rewrite (Hfg a (or_introl eq_refl)), IH; [reflexivity|].
  intros b Hb. apply Hfg. right. exact Hb.
Qed.

Section RowByRow.
Context {D : Type} `{Float64 D}.

Lemma key_eqb_neq (k k' : Z * Z) : k <> k' -> key_eqb k k' = false.
Proof.
  intros Hne. destruct (key_eqb k k') eqn:Hk; [|reflexivity].
  apply key_eqb_eq in Hk. contradiction.
Qed.

Lemma join_tst_sm_rows (test : list (Rating D)) (sm_alias : list (SmRow D))
    (j : JoinedRow D) :
  In j (join_tst_sm test sm_alias) ->
  In (window_key j) (map (@rating_key D) test).
Proof.
  intros Hj. apply join_tst_sm_in in Hj as (Ht & _).
  apply in_map_iff. exists (tst j). split; [reflexivity | exact Ht].
Qed.

(** Windows of different (user, movie) pairs do not mix. *)
Lemma top_n_app (n : nat) (J1 J2 : list (JoinedRow D)) :
  (forall a b, In a J1 -> In b J2 -> window_key a <> window_key b) ->
  flat_map (fun k => firstn n (sort_by similarity_desc
                                 (window_partition (J1 ++ J2) k)))
           (distinct_by key_eqb (map (@window_key D) (J1 ++ J2)))
  = flat_map (fun k => firstn n (sort_by similarity_desc
                                   (window_partition J1 k)))
             (distinct_by key_eqb (map (@window_key D) J1))
    ++ flat_map (fun k => firstn n (sort_by similarity_desc
                                      (window_partition J2 k)))
                (distinct_by key_eqb (map (@window_key D) J2)).
Proof.
  intros Hdis. rewrite map_app, distinct_by_app_disjoint.
  - rewrite flat_map_app. f_equal; apply flat_map_ext_on; intros k Hk;
      apply distinct_by_incl, in_map_iff in Hk as (a & <- & Ha);
      unfold window_partition; rewrite filter_app.
    + rewrite (@filter_none _ _ J2), app_nil_r; [reflexivity|].
      intros b Hb. apply key_eqb_neq. intros Heq.
      exact (Hdis a b Ha Hb (eq_sym Heq)).
    + rewrite (@filter_none _ _ J1); [reflexivity|].
      intros b Hb. apply key_eqb_neq. exact (Hdis b a Hb Ha).
  - intros k k' Hk Hk'. apply in_map_iff in Hk as (a & <- & Ha).
    apply in_map_iff in Hk' as (b & <- & Hb).
    apply key_eqb_neq, Hdis; assumption.
Qed.

Lemma joined_df_app (nValue : Z) (t1 t2 : list (Rating D))
    (sm_alias : list (SmRow D)) :
  (forall a b, In a t1 -> In b t2 -> rating_key a <> rating_key b) ->
  joined_df nValue (t1 ++ t2) sm_alias
  = joined_df nValue t1 sm_alias ++ joined_df nValue t2 sm_alias.
Proof.
  intros Hdis. rewrite !joined_df_top_n. unfold join_tst_sm at 1 2.
  rewrite flat_map_app. fold (join_tst_sm t1 sm_alias).
  fold (join_tst_sm t2 sm_alias). apply top_n_app.
  intros a b Ha Hb. apply join_tst_sm_in in Ha as (Ha & _), Hb as (Hb & _).
  exact (Hdis _ _ Ha Hb).
Qed.

Lemma group_eqb_neq (k k' : Z * Z * D) :
  fst k <> fst k' -> group_eqb k k' = false.
Proof.
  intros Hne. unfold group_eqb.
  destruct (Z.eqb_spec (fst (fst k)) (fst (fst k'))) as [H1|]; [|reflexivity].
  destruct (Z.eqb_spec (snd (fst k)) (snd (fst k'))) as [H2|]; [|reflexivity].
  exfalso. apply Hne. destruct (fst k), (fst k'). simpl in *. congruence.
Qed.

Lemma result_df_app (w1 w2 : list (JoinedRow D * D)) :
  (forall a b, In a w1 -> In b w2 ->
     fst (group_key a) <> fst (group_key b)) ->
  result_df (w1 ++ w2) = result_df w1 ++ result_df w2.
Proof.
  intros Hdis. unfold result_df. rewrite map_app, distinct_by_app_disjoint.
  - rewrite map_app. f_equal; apply map_ext_on; intros k Hk;
      apply distinct_by_incl, in_map_iff in Hk as (a & <- & Ha);
      unfold group_rows; rewrite filter_app.
    + rewrite (@filter_none _ _ w2), app_nil_r; [reflexivity|].
      intros b Hb. apply group_eqb_neq. intros Heq.
      exact (Hdis a b Ha Hb (eq_sym Heq)).
    + rewrite (@filter_none _ _ w1); [reflexivity|].
      intros b Hb. apply group_eqb_neq. exact (Hdis b a Hb Ha).
  - intros k k' Hk Hk'. apply in_map_iff in Hk as (a & <- & Ha).
    apply in_map_iff in Hk' as (b & <- & Hb).
    apply group_eqb_neq, Hdis; assumption.
Qed.

Lemma data_prediction_app (nValue : Z) (t1 t2 : list (Rating D))
    (sm_alias : list (SmRow D)) :
  (forall a b, In a t1 -> In b t2 -> rating_key a <> rating_key b) ->
  data_prediction nValue (t1 ++ t2) sm_alias
  = data_prediction nValue t1 sm_alias ++ data_prediction nValue t2 sm_alias.
Proof.
  intros Hdis. unfold data_prediction.
  rewrite (joined_df_app _ _ _ _ Hdis). unfold weighted_df.
  rewrite map_app. apply result_df_app.
  intros a b Ha Hb. apply in_map_iff in Ha as (ja & <- & Ha).
  apply in_map_iff in Hb as (jb & <- & Hb).
  apply joined_df_in, join_tst_sm_in in Ha as (Ha & _).
  apply joined_df_in, join_tst_sm_in in Hb as (Hb & _).
  exact (Hdis _ _ Ha Hb).
Qed.

End RowByRow.

(** X18: with at most one test row per (user, movie) pair, the batch
    prediction of part 2 is the concatenation, in the order of the test
    rows, of the predictions made for every test row alone: the windows
    and the groups of different test rows do not mix. *)
Theorem data_prediction_row_by_row (D : Type) (F : Float64 D) (nValue : Z)
    (test : list (Rating D)) (sm_alias : list (SmRow D)) :
  NoDup (map (@rating_key D) test) ->
  data_prediction nValue test sm_alias
  = flat_map (fun q => data_prediction nValue [q] sm_alias) test.
Proof.
  induction test as [|q test IH]; intros Hnd; [reflexivity|].
  simpl in Hnd. apply NoDup_cons_iff in Hnd as [Hq Hnd].
  change (q :: test) with ([q] ++ test).
  rewrite data_prediction_app.
  - rewrite flat_map_app, (IH Hnd). simpl. rewrite app_nil_r. reflexivity.
  - intros a b [<- | []] Hb Heq. apply Hq. rewrite Heq. apply in_map, Hb.
Qed.

(** In exact arithmetic: the queries of the users 1 and 2 for movie 30. *)
Lemma data_prediction_row_by_row_witness :
  data_prediction 2 test_two_queries sm_three_ratings
  = data_prediction 2 [mkRating 1 30 (Fin 5)] sm_three_ratings
    ++ data_prediction 2 [mkRating 2 30 (Fin 1)] sm_three_ratings.
Proof.
  rewrite (@data_prediction_row_by_row xreal xreal_float64 2 test_two_queries
             sm_three_ratings).
  - unfold test_two_queries. cbn [flat_map]. rewrite app_nil_r. reflexivity.
  - simpl. unfold rating_key. simpl.
    repeat (constructor; [simpl; intuition congruence|]). constructor.
Defined.

(** ** The similarity table of the sample-user cell *)

(** [distinct_by] keeps no two rows with the same key, whatever the key. *)
Lemma distinct_by_nodup_refl {A} (eqb : A -> A -> bool) (l : list A) :
  (forall a, eqb a a = true) -> NoDup (distinct_by eqb l).
Proof.
  intros Hrefl. induction l as [|b l IH]; simpl; constructor.
  - intros Hin. apply filter_In in Hin as [_ Hin].
    rewrite Hrefl in Hin. discriminate Hin.
  - apply NoDup_filter, IH.
Qed.

(** A row stays when the rows with its key are all equal to it. *)
Lemma distinct_by_in_on {A} (eqb : A -> A -> bool) (l : list A) (a : A) :
  (forall b, In b l -> eqb b a = true -> b = a) ->
  In a l -> In a (distinct_by eqb l).
Proof.
  induction l as [|b l IH]; simpl; intros Hkey Hin; [exact Hin|].
  destruct Hin as [-> | Hin]; [left; reflexivity|].
  destruct (eqb b a) eqn:Hba.
  - left. apply Hkey; [left; reflexivity | exact Hba].
  - right. apply filter_In. split; [|rewrite Hba; reflexivity].
    apply IH; [|exact Hin]. intros c Hc. apply Hkey. right. exact Hc.
Qed.

Section SimilarityTable.
Context {D : Type} `{Float64 D}.

(** The rows of the left join, without [userId] and [rating]. *)
Lemma drop_userId_rating_in (training : list (Rating D))
    (sims : list (SimRow D)) (p : PairRow D) :
  In p (drop_userId_rating (df_user_movie_rating training sims))
  <-> exists r, In r training
      /\ ((p = mkPairRow (movieId r) None
           /\ forall s, In s sims -> sim_movieId s <> movieId r)
          \/ exists s, In s sims /\ sim_movieId s = movieId r
             /\ p = mkPairRow (movieId r)
                      (Some (sim_movieId_1 s, sim_similarity s))).
Proof.
  unfold drop_userId_rating, df_user_movie_rating.
  rewrite in_map_iff. split.
  - intros (row & <- & Hrow). apply in_flat_map in Hrow as (r & Hr & Hrow).
    exists r. split; [exact Hr|].
    destruct (filter (fun s => (sim_movieId s =? movieId r)%Z) sims)
      as [|s0 matches] eqn:Hf.
    + destruct Hrow as [<- | []]. left. split; [reflexivity|].
      intros s Hs Heq.
      assert (Hin : In s (filter (fun s => (sim_movieId s =? movieId r)%Z)
                            sims)).
      { apply filter_In. split; [exact Hs | apply Z.eqb_eq, Heq]. }
      rewrite Hf in Hin. exact Hin.
    + right. apply in_map_iff in Hrow as (s & <- & Hs).
      rewrite <- Hf in Hs. apply filter_In in Hs as [Hs Heq].
      exists s. split; [exact Hs|]. split; [apply Z.eqb_eq, Heq|reflexivity].
  - intros (r & Hr & [[-> Hnone] | (s & Hs & Heq & ->)]).
    + exists (mkSmRow (userId r) (movieId r) (rating r) None).
      split; [reflexivity|]. apply in_flat_map. exists r. split; [exact Hr|].
      rewrite filter_none; [left; reflexivity|].
      intros s Hs. apply Z.eqb_neq, Hnone, Hs.
    + exists (mkSmRow (userId r) (movieId r) (rating r)
                (Some (sim_movieId_1 s, sim_similarity s))).
      split; [reflexivity|]. apply in_flat_map. exists r. split; [exact Hr|].
      assert (Hin : In s (filter (fun s => (sim_movieId s =? movieId r)%Z)
                            sims)).
      { apply filter_In. split; [exact Hs | apply Z.eqb_eq, Heq]. }
      destruct (filter (fun s => (sim_movieId s =? movieId r)%Z) sims)
        as [|s0 matches]; [destruct Hin|].
      apply in_map_iff. exists s. split; [reflexivity | exact Hin].
Qed.

End SimilarityTable.

(** X19: in the cell that recommends movies to a sample user, the table
    [sm_alias] left by [drop] and [dropDuplicates] is the similarity matrix
    again, one row per ordered pair of different movies with its
    similarity and no null, up to the order of the rows, as soon as the
    training set has two movies. *)
Theorem sm_alias_is_similarity_matrix (D : Type) (F : Float64 D)
    (training : list (Rating D)) (dfv : list (VectorRow D))
    (sims : list (SimRow D)) :
  df_vector training = Ok dfv ->
  similarity_matrix dfv = Ok sims ->
  sims <> [] ->
  Permutation
    (dropDuplicates
       (drop_userId_rating (df_user_movie_rating training sims)))
    (map (fun s =>
            mkPairRow (sim_movieId s)
              (Some (sim_movieId_1 s, sim_similarity s)))
         sims).
Proof.
  intros Hdfv Hsims Hne.
  pose proof (similarity_matrix_keys_nodup training Hdfv Hsims) as Hnd.
  destruct (similarity_matrix_pairs training Hdfv) as (sims' & Hsims' & Hp).
  rewrite Hsims in Hsims'. injection Hsims' as <-.
  set (pair := fun s : SimRow D =>
                 mkPairRow (sim_movieId s)
                   (Some (sim_movieId_1 s, sim_similarity s))).
  set (rows := drop_userId_rating (df_user_movie_rating training sims)).
  (* every movie of the training set has a row in the similarity matrix *)
  assert (Hfull : forall r, In r training ->
            exists s, In s sims /\ sim_movieId s = movieId r).
  { intros r Hr. destruct sims as [|[m t x] sims0] eqn:Es; [congruence|].
    rewrite <- Es in *.
    assert (Hmt : exists s, In (mkSimRow m t s) sims).
    { exists x. rewrite Es. left. reflexivity. }
    apply Hp in Hmt as (Hneq & Hm & Ht).
    assert (Hr' : has_movie training (movieId r) = true).
    { apply has_movie_true. exists r. auto. }
    destruct (Z.eq_dec (movieId r) m) as [Heq | Hdiff].
    - assert (Hex : exists s, In (mkSimRow (movieId r) t s) sims).
      { apply Hp. rewrite Heq. auto. }
      destruct Hex as (s & Hs). exists (mkSimRow (movieId r) t s). auto.
    - assert (Hex : exists s, In (mkSimRow (movieId r) m s) sims).
      { apply Hp. auto. }
      destruct Hex as (s & Hs). exists (mkSimRow (movieId r) m s). auto. }
  assert (Hrows : forall p, In p rows <-> In p (map pair sims)).
  { intros p. unfold rows. rewrite drop_userId_rating_in, in_map_iff. split.
    - intros (r & Hr & [[_ Hnone] | (s & Hs & Heq & ->)]).
      + destruct (Hfull r Hr) as (s & Hs & Heq).
        exfalso. exact (Hnone s Hs Heq).
      + exists s. split; [|exact Hs]. unfold pair. rewrite Heq. reflexivity.
    - intros (s & <- & Hs).
      assert (Hm : has_movie training (sim_movieId s) = true).
      { destruct s as [m t x].
        apply (proj1 (Hp m t)). exists x. exact Hs. }
      apply has_movie_true in Hm as (r & Hr & Hm).
      exists r. split; [exact Hr|]. right. exists s.
      split; [exact Hs|]. split; [symmetry; exact Hm|].
      unfold pair. rewrite Hm. reflexivity. }
  apply NoDup_Permutation.
  - apply distinct_by_nodup_refl. intros a.
    rewrite Z.eqb_refl. simpl.
    destruct (movieId_1 (pair_similar a)); simpl;
      [apply Z.eqb_refl | reflexivity].
  - apply (@NoDup_map_inv _ _
             (fun p : PairRow D => (movieId2 p, movieId_1 (pair_similar p)))).
    rewrite map_map. simpl.
    replace (map (fun s : SimRow D => (sim_movieId s, Some (sim_movieId_1 s)))
               sims)
      with (map (fun k : Z * Z => (fst k, Some (snd k)))
              (map (fun s : SimRow D => (sim_movieId s, sim_movieId_1 s))
                 sims))
      by (rewrite map_map; reflexivity).
    apply Finite.Injective_map_NoDup; [|exact Hnd].
    intros [a b] [a' b'] Heq. simpl in Heq. congruence.
  - intros p. fold pair. rewrite <- Hrows. unfold dropDuplicates. split.
    + apply distinct_by_incl.
    + intros Hin. apply distinct_by_in_on; [|exact Hin].
      intros q Hq Hkey. fold rows in Hq, Hin.
      apply Hrows, in_map_iff in Hq as (sq & <- & Hsq).
      apply Hrows, in_map_iff in Hin as (sp & <- & Hsp).
      simpl in Hkey. apply andb_true_iff in Hkey as [Hk1 Hk2].
      apply Z.eqb_eq in Hk1, Hk2.
      rewrite (@NoDup_map_eq _ _
                 (fun s : SimRow D => (sim_movieId s, sim_movieId_1 s))
                 sims sq sp Hnd Hsq Hsp); [reflexivity|].
      simpl. congruence.
Qed.

(** The three movies of [training_three_movies], in binary64: six pairs. *)
Lemma sm_alias_is_similarity_matrix_witness :
  exists sims,
    similarity_matrix
      [mkVectorRow 10 [3; 4; 0]%float; mkVectorRow 20 [4; 0; 3]%float;
       mkVectorRow 30 [0; 3; 4]%float] = Ok sims
    /\ Permutation
         (dropDuplicates
            (drop_userId_rating
               (df_user_movie_rating training_three_movies sims)))
         (map (fun s =>
                 mkPairRow (sim_movieId s)
                   (Some (sim_movieId_1 s, sim_similarity s)))
              sims).
Proof.
  eexists. split; [vm_compute; reflexivity|].
  apply (@sm_alias_is_similarity_matrix float b64 training_three_movies
           [mkVectorRow 10 [3; 4; 0]%float; mkVectorRow 20 [4; 0; 3]%float;
            mkVectorRow 30 [0; 3; 4]%float]).
  - reflexivity.
  - vm_compute. reflexivity.
  - discriminate.
Defined.
